(** * MOT_CEL: guardrails, centroid tracker and stream orchestrator

    A shallow embedding of [guardrails.py], [yolo_service.py] and
    [websocket_server.py], and the properties of the guardrail and
    session-tracking layer proved over it.

    Conventions of the embedding.
    - Python [float] values (timestamps, confidences, coordinates) are
      exact rationals [Q]: comparisons and arithmetic are the exact ones,
      so IEEE rounding, [nan] and the infinities are outside the model.
      The statements on [validate_detections] that depend on them are
      made for numbers of magnitude at most 2^53, with a margin for
      rounding ([DetectionValidator.plain_numbers], [rounding_margin]).
    - Python [int] values are [Z]; counters that start at [0] and are only
      incremented are [nat].
    - Process-wide dictionaries keyed by session id are [gmap string _];
      a dictionary whose iteration order the code relies on is an
      association list in insertion order.
    - [time.time()], the detector, the codecs and the HTTP boundary are
      inputs of the functions that call them. *)

From Stdlib Require Import ZArith QArith Lqa Ascii String List Permutation Sorted.
From stdpp Require Import base gmap sets list strings pretty.

Set Warnings "-register-all".

Local Open Scope Q_scope.

(** ** Numbers *)

(** [a < b] on Python numbers. *)
Definition Qltb (a b : Q) : bool :=
  match a ?= b with Lt => true | _ => false end.

(** [a >= b]. *)
Definition Qgeb (a b : Q) : bool := negb (Qltb a b).

(** ** guardrails.py: RateLimiter *)

Module RateLimiter.

(** [_requests = defaultdict(list)]: per session, the admitted
    timestamps in arrival order. *)
Abbreviation requests_map := (gmap string (list Q)).

(** [now - req_time < 1.0] *)
Definition recent (now req_time : Q) : bool := Qltb (now - req_time) 1.

Definition rate_limit_message (max_per_second : Z) : string :=
  "Rate limit exceeded: max " +:+ pretty max_per_second +:+ " requests/second".

(** [RateLimiter.check(session_id, max_per_second)], with the value
    read from [time.time()] as the argument [now].  The window of the
    session is created on first use, pruned in place, and extended by
    [now] only when the call is allowed. *)
Definition check (session_id : string) (now : Q) (max_per_second : Z)
    (_requests : requests_map) : (bool * string) * requests_map :=
  let requests := default [] (_requests !! session_id) in
  let requests := List.filter (recent now) requests in
  if (Z.of_nat (length requests) >=? max_per_second)%Z
  then ((false, rate_limit_message max_per_second),
        <[session_id := requests]> _requests)
  else ((true, "OK"%string),
        <[session_id := requests ++ [now]]> _requests).

(** [RateLimiter.reset_session(session_id)] *)
Definition reset_session (session_id : string) (_requests : requests_map)
    : requests_map :=
  if decide (is_Some (_requests !! session_id))
  then delete session_id _requests
  else _requests.

(** The window of a session, empty when the session has none. *)
Definition window (_requests : requests_map) (session_id : string) : list Q :=
  default [] (_requests !! session_id).

(** *** Runs of the limiter

    A run is a sequence of calls [(session_id, now)] under one
    configured limit, started in the empty map; the log records for
    each call its session, its clock value and its verdict. *)
Definition call : Type := string * Q.
Definition log_entry : Type := string * Q * bool.

Definition step (limit : Z) (acc : requests_map * list log_entry) (c : call)
    : requests_map * list log_entry :=
  let r := check (fst c) (snd c) limit (fst acc) in
  (snd r, snd acc ++ [(fst c, snd c, fst (fst r))]).

Definition run (limit : Z) (calls : list call) : requests_map * list log_entry :=
  fold_left (step limit) calls (∅, []).

(** Timestamps of the admitted requests of a session, in call order. *)
Definition admitted (session_id : string) (log : list log_entry) : list Q :=
  map (fun e => snd (fst e))
      (List.filter (fun e => snd e && bool_decide (fst (fst e) = session_id)) log).

(** The trailing one-second window that ends at [t], with the test of
    the code: [r] is in it when [r <= t] and [t - r < 1.0]. *)
Definition in_trailing_window (t r : Q) : bool :=
  Qgeb t r && recent t r.

Definition count_in_window (t : Q) (l : list Q) : nat :=
  length (List.filter (in_trailing_window t) l).

(** The clock read by successive calls never goes back. *)
Fixpoint nondecreasing (l : list Q) : bool :=
  match l with
  | [] => true
  | x :: l' =>
      match l' with
      | [] => true
      | y :: _ => Qgeb y x && nondecreasing l'
      end
  end.

(** Thirty-one calls of one session within half a second, then one a
    second and a half after the first. *)
Definition burst : list call :=
  map (fun k => ("abc-1"%string, Z.of_nat k # 62)) (seq 0 31)
  ++ [("abc-1"%string, 3 # 2)].

End RateLimiter.

(** ** Python values

    The JSON-shaped values the guardrails and the orchestrator inspect
    at run time ([isinstance], [dict.get], truthiness). *)

Inductive pyval : Type :=
| PNone
| PBool (b : bool)
| PInt (n : Z)
| PFloat (x : Q)
| PStr (s : string)
| PList (l : list pyval)
| PDict (d : list (string * pyval)).

(** Insertion-ordered dictionaries, as Python's [dict]. *)
Section Dict.
Context {K V : Type} `{EqDecision K}.

(** [d.get(k)] *)
Fixpoint dict_get (k : K) (d : list (K * V)) : option V :=
  match d with
  | [] => None
  | (k', v) :: d' => if decide (k' = k) then Some v else dict_get k d'
  end.

(** [k in d] *)
Definition dict_has (k : K) (d : list (K * V)) : bool :=
  match dict_get k d with Some _ => true | None => false end.

(** [d[k] = v]: an existing key keeps its position, a new key goes last. *)
Fixpoint dict_set (k : K) (v : V) (d : list (K * V)) : list (K * V) :=
  match d with
  | [] => [(k, v)]
  | (k', v') :: d' =>
      if decide (k' = k) then (k, v) :: d' else (k', v') :: dict_set k v d'
  end.

(** [d.keys()] *)
Definition dict_keys (d : list (K * V)) : list K := map fst d.
End Dict.

(** [bool(v)] *)
Definition truthy (v : pyval) : bool :=
  match v with
  | PNone => false
  | PBool b => b
  | PInt n => negb (n =? 0)%Z
  | PFloat x => negb (Qeq_bool x 0)
  | PStr s => negb (String.eqb s "")
  | PList l => match l with [] => false | _ => true end
  | PDict d => match d with [] => false | _ => true end
  end.

(** The value of [v] when [isinstance(v, (int, float))] holds; [bool] is
    a subclass of [int]. *)
Definition number_of (v : pyval) : option Q :=
  match v with
  | PBool b => Some (if b then 1 else 0)
  | PInt n => Some (inject_Z n)
  | PFloat x => Some x
  | _ => None
  end.

(** [float(v)]: [None] stands for the [ValueError] or [TypeError] it
    raises.  [parse] is the runtime's reading of a numeral from a string.
    The result is the rational the float stands for: nan, the
    infinities, and the [OverflowError] of an integer beyond the range
    of a float have no counterpart here, and the statements that depend
    on them are made for [DetectionValidator.plain_numbers]. *)
Definition py_float (parse : string -> option Q) (v : pyval) : option Q :=
  match v with
  | PStr s => parse s
  | _ => number_of v
  end.

(** [min(a, b)] and [max(a, b)]: the first argument unless the second is
    strictly smaller (resp. greater). *)
Definition py_min (a b : Q) : Q := if Qltb b a then b else a.
Definition py_max (a b : Q) : Q := if Qltb a b then b else a.

(** ** guardrails.py: DetectionValidator *)

Module DetectionValidator.

Definition MIN_CONFIDENCE : Q := 3 # 10.
Definition MIN_BBOX_AREA : Q := 100.
Definition MAX_DETECTIONS_PER_FRAME : nat := 100.
Definition MAX_BBOX_SIZE_RATIO : Q := 95 # 100.

(** The entries of the returned [warnings] list.  Each constructor is
    one message template of the code, with the values it formats. *)
Inductive warning : Type :=
| WNotDict (i : nat)
    (* Detecção {i} não é um dicionário, ignorada *)
| WBadConfidence (i : nat) (confidence : pyval)
    (* Detecção {i} tem confiança inválida: {confidence} *)
| WBboxNotList (i : nat)
    (* Detecção {i} tem bbox inválido (não é lista) *)
| WBboxLength (i : nat) (len : nat)
    (* Detecção {i} tem bbox com tamanho incorreto: {len} (esperado 4) *)
| WBboxCoords (i : nat) (bbox : list pyval)
    (* Detecção {i} tem coordenadas bbox inválidas: {bbox} *)
| WBboxInverted (i : nat) (x1 y1 x2 y2 : Q)
    (* Detecção {i} tem bbox inválido: coordenadas invertidas (...) *)
| WBboxClamped (i : nat)
    (* Detecção {i}: bbox foi ajustado para dentro do frame *)
| WBboxTooLarge (i : nat) (percent : Q)
    (* Detecção {i}: bbox muito grande ({percent:.1f}% do frame), ... *)
| WMissingFields (i : nat) (missing : list string)
    (* Detecção {i} está faltando campos: {missing} *)
| WLimitExceeded (limit removed : nat)
    (* Limite de {limit} detecções por frame excedido.
       {removed} detecções removidas (menor confiança) *).

(** The local variables of [validate_detections] that the loop updates. *)
Record vstate : Type := mk_vstate {
  valid_detections : list pyval;
  warnings : list warning;
  rejected_low_confidence : nat;
  rejected_invalid_bbox : nat;
  rejected_too_small : nat;
  rejected_out_of_bounds : nat
}.

Definition vstate_init : vstate := mk_vstate [] [] 0 0 0 0.

Definition warn (st : vstate) (m : warning) : vstate :=
  mk_vstate (valid_detections st) (warnings st ++ [m])
    (rejected_low_confidence st) (rejected_invalid_bbox st)
    (rejected_too_small st) (rejected_out_of_bounds st).

Definition keep (st : vstate) (d : pyval) : vstate :=
  mk_vstate (valid_detections st ++ [d]) (warnings st)
    (rejected_low_confidence st) (rejected_invalid_bbox st)
    (rejected_too_small st) (rejected_out_of_bounds st).

Definition count_low_confidence (st : vstate) : vstate :=
  mk_vstate (valid_detections st) (warnings st)
    (S (rejected_low_confidence st)) (rejected_invalid_bbox st)
    (rejected_too_small st) (rejected_out_of_bounds st).

Definition count_invalid_bbox (st : vstate) : vstate :=
  mk_vstate (valid_detections st) (warnings st)
    (rejected_low_confidence st) (S (rejected_invalid_bbox st))
    (rejected_too_small st) (rejected_out_of_bounds st).

Definition count_too_small (st : vstate) : vstate :=
  mk_vstate (valid_detections st) (warnings st)
    (rejected_low_confidence st) (rejected_invalid_bbox st)
    (S (rejected_too_small st)) (rejected_out_of_bounds st).

Definition count_out_of_bounds (st : vstate) : vstate :=
  mk_vstate (valid_detections st) (warnings st)
    (rejected_low_confidence st) (rejected_invalid_bbox st)
    (rejected_too_small st) (S (rejected_out_of_bounds st)).

Definition required_fields : list string :=
  ["class_id"; "class_name"; "track_id"]%string.

(** [[float(x1), float(y1), float(x2), float(y2)]] *)
Definition bbox_value (x1 y1 x2 y2 : Q) : pyval :=
  PList [PFloat x1; PFloat y1; PFloat x2; PFloat y2].

(** [max(0, min(x, w))] *)
Definition clamp (x : Q) (w : Z) : Q := py_max 0 (py_min x (inject_Z w)).

(** Step 4: some coordinate lies beyond the 5% tolerance. *)
Definition beyond_tolerance (h w : Z) (x1 y1 x2 y2 : Q) : bool :=
  let tolerance := 5 # 100 in
  Qltb x1 (inject_Z (- w) * tolerance) || Qltb y1 (inject_Z (- h) * tolerance)
  || Qltb (inject_Z w * (1 + tolerance)) x2
  || Qltb (inject_Z h * (1 + tolerance)) y2.

(** Step 4, inner test: some coordinate lies beyond the 10% band. *)
Definition beyond_band (h w : Z) (x1 y1 x2 y2 : Q) : bool :=
  Qltb x1 (inject_Z (- w) * (1 # 10)) || Qltb y1 (inject_Z (- h) * (1 # 10))
  || Qltb (inject_Z w * (11 # 10)) x2 || Qltb (inject_Z h * (11 # 10)) y2.

Section Validate.
(** The runtime's [float(str)]. *)
Variable parse : string -> option Q.

(** Steps 5 to 7 and the construction of the validated record, for
    detection [i] with fields [det], confidence [confidence] and the
    (possibly clamped) corners. *)
Definition finish_detection (h w : Z) (st : vstate) (i : nat)
    (det : list (string * pyval)) (confidence x1 y1 x2 y2 : Q) : vstate :=
  let area := (x2 - x1) * (y2 - y1) in
  if Qltb area MIN_BBOX_AREA then count_too_small st
  else
    let frame_area := (w * h)%Z in
    let bbox_ratio :=
      if (frame_area >? 0)%Z then area / inject_Z frame_area else 0 in
    let st :=
      if Qltb MAX_BBOX_SIZE_RATIO bbox_ratio
      then warn st (WBboxTooLarge i (bbox_ratio * 100))
      else st in
    let missing_fields :=
      List.filter (fun field => negb (dict_has field det)) required_fields in
    match missing_fields with
    | _ :: _ => warn st (WMissingFields i missing_fields)
    | [] =>
        let validated_det := dict_set "bbox"%string (bbox_value x1 y1 x2 y2) det in
        let validated_det :=
          dict_set "confidence"%string (PFloat confidence) validated_det in
        keep st (PDict validated_det)
    end.

(** One iteration of the loop over [enumerate(detections)]. *)
Definition validate_one (h w : Z) (st : vstate) (i : nat) (det : pyval)
    : vstate :=
  match det with
  | PDict d =>
      let confidence := default (PFloat 0) (dict_get "confidence"%string d) in
      match number_of confidence with
      | None => warn st (WBadConfidence i confidence)
      | Some c =>
          if Qltb c MIN_CONFIDENCE then count_low_confidence st
          else
            match default (PList []) (dict_get "bbox"%string d) with
            | PList bbox =>
                if negb (length bbox =? 4)%nat
                then count_invalid_bbox (warn st (WBboxLength i (length bbox)))
                else
                  match mapM (py_float parse) bbox with
                  | Some [x1; y1; x2; y2] =>
                      if Qgeb x1 x2 || Qgeb y1 y2
                      then count_invalid_bbox
                             (warn st (WBboxInverted i x1 y1 x2 y2))
                      else if beyond_tolerance h w x1 y1 x2 y2
                      then
                        if beyond_band h w x1 y1 x2 y2
                        then count_out_of_bounds st
                        else
                          finish_detection h w (warn st (WBboxClamped i)) i d c
                            (clamp x1 w) (clamp y1 h) (clamp x2 w) (clamp y2 h)
                      else finish_detection h w st i d c x1 y1 x2 y2
                  | _ => count_invalid_bbox (warn st (WBboxCoords i bbox))
                  end
            | _ => warn st (WBboxNotList i)
            end
      end
  | _ => warn st (WNotDict i)
  end.

(** The loop, from index [i] on. *)
Fixpoint validate_loop (h w : Z) (dets : list pyval) (i : nat) (st : vstate)
    : vstate :=
  match dets with
  | [] => st
  | det :: dets' => validate_loop h w dets' (S i) (validate_one h w st i det)
  end.

(** The key of the final sort, [x.get("confidence", 0)]; every record
    in [valid_detections] carries a float there. *)
Definition sort_key (d : pyval) : Q :=
  match d with
  | PDict f =>
      match dict_get "confidence"%string f with
      | Some v => default 0 (number_of v)
      | None => 0
      end
  | _ => 0
  end.

(** [list.sort(key=sort_key, reverse=True)]: Python's sort is stable,
    also with [reverse=True].  [insert_desc x l] puts [x] in front of
    the first element whose key does not exceed its own. *)
Fixpoint insert_desc (x : pyval) (l : list pyval) : list pyval :=
  match l with
  | [] => [x]
  | y :: l' =>
      if Qltb (sort_key x) (sort_key y) then y :: insert_desc x l'
      else x :: y :: l'
  end.

Fixpoint sort_desc (l : list pyval) : list pyval :=
  match l with
  | [] => []
  | x :: l' => insert_desc x (sort_desc l')
  end.

(** The cap applied after the loop. *)
Definition cap_detections (st : vstate) : vstate :=
  if (MAX_DETECTIONS_PER_FRAME <? length (valid_detections st))%nat
  then
    let removed := (length (valid_detections st) - MAX_DETECTIONS_PER_FRAME)%nat in
    warn (mk_vstate
            (firstn MAX_DETECTIONS_PER_FRAME (sort_desc (valid_detections st)))
            (warnings st)
            (rejected_low_confidence st) (rejected_invalid_bbox st)
            (rejected_too_small st) (rejected_out_of_bounds st))
         (WLimitExceeded MAX_DETECTIONS_PER_FRAME removed)
  else st.

(** The state of [validate_detections] when it returns; [frame_shape]
    is the pair [(h, w)].  An empty [detections] returns at once. *)
Definition validate_detections_state (detections : list pyval)
    (frame_shape : Z * Z) : vstate :=
  match detections with
  | [] => vstate_init
  | _ =>
      let '(h, w) := frame_shape in
      cap_detections (validate_loop h w detections 0 vstate_init)
  end.

(** [DetectionValidator.validate_detections(detections, frame_shape)]:
    the kept detections and the warnings.  The counters are only
    logged. *)
Definition validate_detections (detections : list pyval)
    (frame_shape : Z * Z) : list pyval * list warning :=
  let st := validate_detections_state detections frame_shape in
  (valid_detections st, warnings st).
End Validate.

(** The corners stored in a detection record, when its [bbox] is a list
    of four floats. *)
Definition bbox_of (d : pyval) : option (Q * Q * Q * Q) :=
  match d with
  | PDict f =>
      match dict_get "bbox"%string f with
      | Some (PList [PFloat x1; PFloat y1; PFloat x2; PFloat y2]) =>
          Some (x1, y1, x2, y2)
      | _ => None
      end
  | _ => None
  end.

(** The box lies in [[lo_x, hi_x] x [lo_y, hi_y]]. *)
Definition bbox_within (lo_x hi_x lo_y hi_y : Q) (b : Q * Q * Q * Q) : Prop :=
  let '(x1, y1, x2, y2) := b in
  lo_x <= x1 /\ x1 <= hi_x /\ lo_x <= x2 /\ x2 <= hi_x /\
  lo_y <= y1 /\ y1 <= hi_y /\ lo_y <= y2 /\ y2 <= hi_y.

(** The record appended on acceptance: a copy of [det] with [bbox] and
    [confidence] replaced by the floats. *)
Definition validated (det : list (string * pyval)) (confidence x1 y1 x2 y2 : Q)
    : pyval :=
  PDict (dict_set "confidence"%string (PFloat confidence)
           (dict_set "bbox"%string (bbox_value x1 y1 x2 y2) det)).

(** Steps 1 to 3 of the loop body on their own: the fields, the
    confidence and the four corners of a detection that reaches the
    bounds check of step 4, [None] for one rejected before it. *)
Definition checked_corners (parse : string -> option Q) (det : pyval)
    : option (list (string * pyval) * Q * (Q * Q * Q * Q)) :=
  match det with
  | PDict d =>
      match number_of (default (PFloat 0) (dict_get "confidence"%string d)) with
      | None => None
      | Some c =>
          if Qltb c MIN_CONFIDENCE then None
          else
            match default (PList []) (dict_get "bbox"%string d) with
            | PList bbox =>
                match mapM (py_float parse) bbox with
                | Some [x1; y1; x2; y2] =>
                    if Qgeb x1 x2 || Qgeb y1 y2 then None
                    else Some (d, c, (x1, y1, x2, y2))
                | _ => None
                end
            | _ => None
            end
      end
  | _ => None
  end.

(** The frame enlarged by the 5% tolerance of step 4. *)
Definition within_tolerance (h w : Z) (b : Q * Q * Q * Q) : Prop :=
  bbox_within (inject_Z (- w) * (5 # 100)) (inject_Z w * (1 + (5 # 100)))
              (inject_Z (- h) * (5 # 100)) (inject_Z h * (1 + (5 # 100))) b.

(** The frame itself. *)
Definition within_frame (h w : Z) (b : Q * Q * Q * Q) : Prop :=
  bbox_within 0 (inject_Z w) 0 (inject_Z h) b.

(** What holds of every record the loop appends to [valid_detections]. *)
Definition accepted (h w : Z) (d' : pyval) : Prop :=
  exists d c x1 y1 x2 y2,
    d' = validated d c x1 y1 x2 y2 /\
    MIN_CONFIDENCE <= c /\
    x1 < x2 /\ y1 < y2 /\
    beyond_tolerance h w x1 y1 x2 y2 = false /\
    MIN_BBOX_AREA <= (x2 - x1) * (y2 - y1) /\
    List.filter (fun field => negb (dict_has field d)) required_fields = [].

(** A warning about the size of a box, the only kind that does not come
    with a rejection or a clamp. *)
Definition is_size_warning (m : warning) : Prop :=
  match m with
  | WBboxTooLarge _ _ => True
  | _ => False
  end.



(** A well-formed detection record with the given corners and confidence. *)
Definition detection (x1 y1 x2 y2 : Z) (confidence : Q) (id : Z) : pyval :=
  PDict [("bbox", PList [PInt x1; PInt y1; PInt x2; PInt y2]);
         ("confidence", PFloat confidence);
         ("class_id", PInt 0);
         ("class_name", PStr "person");
         ("track_id", PInt id)]%string.

(** A detection that leaves a 640 x 480 frame on the right by more than
    5% and less than 10% of the width. *)
Definition right_of_frame : pyval := detection 0 0 690 100 (9 # 10) 1.

Definition right_of_frame_fields : list (string * pyval) :=
  match right_of_frame with
  | PDict d => d
  | _ => []
  end.

(** One detection just left of a 640 x 480 frame, inside the tolerance. *)
Definition left_of_frame : list pyval := [detection (-1) 0 100 100 (9 # 10) 1].

(** A detection whose confidence is a string. *)
Definition string_confidence : list pyval :=
  [PDict [("bbox", PList [PInt 0; PInt 0; PInt 100; PInt 100]);
          ("confidence", PStr "high");
          ("class_id", PInt 0);
          ("class_name", PStr "person");
          ("track_id", PInt 1)]%string].

(** 150 valid detections whose confidences run through 0.30 .. 0.79
    three times. *)
Definition many_detections : list pyval :=
  map (fun k => detection 0 0 100 100
                  (Z.of_nat (30 + k mod 50) # 100) (Z.of_nat k))
      (seq 0 150).

(** An instance of [parse] for inputs none of whose coordinates is a
    string: it reads no string. *)
Definition no_numerals : string -> option Q := fun _ => None.

(** [d'] is the validated copy of the input record [det]. *)
Definition validated_from (d' det : pyval) : Prop :=
  exists d c x1 y1 x2 y2,
    det = PDict d /\ d' = validated d c x1 y1 x2 y2 /\
    is_Some (dict_get "bbox"%string d) /\
    is_Some (dict_get "confidence"%string d).

(** The warnings that come with a rejection no counter records. *)
Definition is_uncounted_rejection (m : warning) : bool :=
  match m with
  | WNotDict _ | WBadConfidence _ _ | WBboxNotList _ | WMissingFields _ _ => true
  | _ => false
  end.

(** Kept records, counted rejections and uncounted rejections. *)
Definition accounted (st : vstate) : nat :=
  length (valid_detections st)
  + rejected_low_confidence st + rejected_invalid_bbox st
  + rejected_too_small st + rejected_out_of_bounds st
  + length (List.filter is_uncounted_rejection (warnings st)).

(** [int(v)]: [None] stands for the [ValueError] or [TypeError] it
    raises.  A float is cut towards zero; [parse] is the runtime's
    reading of an integer numeral from a string. *)
Definition py_int (parse : string -> option Z) (v : pyval) : option Z :=
  match v with
  | PBool b => Some (if b then 1 else 0)%Z
  | PInt n => Some n
  | PFloat x => Some (Z.quot (Qnum x) (Z.pos (Qden x)))
  | PStr s => parse s
  | _ => None
  end.

(** The messages of [validate_frame_shape]. *)
Inductive shape_verdict : Type :=
| ShapeNotList
    (* Frame shape deve ser uma lista *)
| ShapeLength (n : nat)
    (* Frame shape deve ter 2 elementos, recebido {n} *)
| ShapeNotIntegers
    (* Frame shape deve conter apenas inteiros *)
| ShapeInvalid (w h : Z)
    (* Frame shape inválido: {w}x{h} (deve ser > 0) *)
| ShapeOk.
    (* OK *)

(** [DetectionValidator.validate_frame_shape(frame_shape)] *)
Definition validate_frame_shape (parse : string -> option Z) (frame_shape : pyval)
    : bool * shape_verdict :=
  match frame_shape with
  | PList l =>
      match l with
      | [a; b] =>
          match py_int parse a with
          | Some h =>
              match py_int parse b with
              | Some w =>
                  if ((h <=? 0) || (w <=? 0))%Z then (false, ShapeInvalid w h)
                  else (true, ShapeOk)
              | None => (false, ShapeNotIntegers)
              end
          | None => (false, ShapeNotIntegers)
          end
      | _ => (false, ShapeLength (length l))
      end
  | _ => (false, ShapeNotList)
  end.

(** No text is read as an integer. *)
Definition no_integers : string -> option Z := fun _ => None.

(** *** The numbers the statements speak of

    The code computes with binary64 floats, which are read here as the
    rationals they stand for.  The reading is exact for numbers of
    magnitude at most 2^53: an integer in that range converts to a float
    without rounding, no conversion overflows, and nan and the
    infinities, of which no bound holds, are left out.  What remains is
    the rounding of the products the tests compare with (the bounds of
    step 4, the area of step 5, the constant 0.3): a relative margin of
    2^-50 is wider than any of them. *)
Definition exact_bound : Q := 9007199254740992.

Definition in_exact_range (q : Q) : Prop := - exact_bound <= q /\ q <= exact_bound.

(** The confidence of a detection and the coordinates of its bbox, as
    far as they are numbers, lie in that range. *)
Definition plain_numbers (parse : string -> option Q) (det : pyval) : Prop :=
  match det with
  | PDict d =>
      (forall c,
          number_of (default (PFloat 0) (dict_get "confidence"%string d)) = Some c ->
          in_exact_range c) /\
      (forall bbox,
          dict_get "bbox"%string d = Some (PList bbox) ->
          Forall (fun coord => forall q, py_float parse coord = Some q ->
                                         in_exact_range q) bbox)
  | _ => True
  end.

(** A frame shape with sides from 0 to 2^53. *)
Definition frame_sides (h w : Z) : Prop :=
  (0 <= h <= 9007199254740992)%Z /\ (0 <= w <= 9007199254740992)%Z.

(** 2^-50 *)
Definition rounding_margin : Q := 1 # 1125899906842624.

(** Some coordinate of the box lies beyond the frame enlarged on every
    side by the fraction [ratio] of its width or height, the bounds
    being stretched by [scale]. *)
Definition beyond_enlarged (ratio scale : Q) (h w : Z) (b : Q * Q * Q * Q) : Prop :=
  let '(x1, y1, x2, y2) := b in
  x1 < - (ratio * inject_Z w) * scale \/
  y1 < - (ratio * inject_Z h) * scale \/
  (1 + ratio) * inject_Z w * scale < x2 \/
  (1 + ratio) * inject_Z h * scale < y2.

(** No coordinate of the box lies beyond that enlarged frame. *)
Definition within_enlarged (ratio scale : Q) (h w : Z) (b : Q * Q * Q * Q) : Prop :=
  let '(x1, y1, x2, y2) := b in
  - (ratio * inject_Z w) * scale <= x1 /\
  - (ratio * inject_Z h) * scale <= y1 /\
  x2 <= (1 + ratio) * inject_Z w * scale /\
  y2 <= (1 + ratio) * inject_Z h * scale.

(** [x'] is [x] moved to the nearest point of [[0, w]]. *)
Definition clamped_to (w : Z) (x x' : Q) : Prop :=
  (x <= 0 -> x' == 0) /\
  (0 <= x -> x <= inject_Z w -> x' == x) /\
  (inject_Z w <= x -> x' == inject_Z w).




End DetectionValidator.

(** ** yolo_service.py: YOLOTracker *)

Module YOLOTracker.

Definition point : Type := Q * Q.

(** One entry of [r.boxes]: the corners [box.xyxy[0]], [box.conf[0]]
    and [box.cls[0]]. *)
Record box : Type := mk_box {
  box_x1 : Q; box_y1 : Q; box_x2 : Q; box_y2 : Q;
  box_conf : Q;
  box_cls : Z
}.

(** [DetectionResult] *)
Record DetectionResult : Type := mk_detection {
  bbox : Q * Q * Q * Q;
  confidence : Q;
  class_id : Z;
  class_name : string;
  track_id : nat
}.

(** The fields of [YOLOTracker] that tracking reads and writes.
    [trackers] maps a session to its tracks, a dictionary from track id
    to last centroid whose iteration order (insertion order) decides
    ties; [track_history] is keyed by track id alone. *)
Record tracker : Type := mk_tracker {
  trackers : gmap string (list (nat * point));
  track_id_counter : nat;
  track_history : gmap nat (list point)
}.

(** [__init__] *)
Definition init : tracker := mk_tracker ∅ 0 ∅.

(** [((x1 + x2) / 2, (y1 + y2) / 2)] *)
Definition centroid (b : Q * Q * Q * Q) : point :=
  let '(x1, y1, x2, y2) := b in ((x1 + x2) / 2, (y1 + y2) / 2).

(** The square of [distance = np.sqrt(dx**2 + dy**2)].  The square root
    is increasing, so the code's [distance < min_distance] and
    [distance < 50] are the same tests on the squares, against the
    square of the running minimum and against [2500]. *)
Definition distance2 (c last_pos : point) : Q :=
  (fst c - fst last_pos) ^ 2 + (snd c - snd last_pos) ^ 2.

Definition threshold2 : Q := 2500.

(** [d < min_distance], where [None] is [float('inf')]. *)
Definition below (d : Q) (min_distance : option Q) : bool :=
  match min_distance with
  | None => true
  | Some m => Qltb d m
  end.

(** The loop over [self.trackers[session_id].items()], carrying
    [min_distance] (squared) and [matched_id]. *)
Fixpoint scan_tracks (c : point) (tracks : list (nat * point))
    (min_distance : option Q) (matched_id : option nat) : option Q * option nat :=
  match tracks with
  | [] => (min_distance, matched_id)
  | (track_id, last_pos) :: tracks' =>
      let distance := distance2 c last_pos in
      if below distance min_distance && Qltb distance threshold2
      then scan_tracks c tracks' (Some distance) (Some track_id)
      else scan_tracks c tracks' min_distance matched_id
  end.

(** [_assign_track_id(session_id, bbox)]: the id, and the tracker after
    the call. *)
Definition _assign_track_id (session_id : string) (b : Q * Q * Q * Q)
    (t : tracker) : nat * tracker :=
  let tracks := default [] (trackers t !! session_id) in
  let c := centroid b in
  match snd (scan_tracks c tracks None None) with
  | None =>
      let matched_id := track_id_counter t in
      (matched_id,
       mk_tracker (<[session_id := dict_set matched_id c tracks]> (trackers t))
                  (S (track_id_counter t)) (track_history t))
  | Some matched_id =>
      (matched_id,
       mk_tracker (<[session_id := dict_set matched_id c tracks]> (trackers t))
                  (track_id_counter t) (track_history t))
  end.

(** History depth: "últimos 30 pontos". *)
Definition history_depth : nat := 30.

(** [track_history[id].append(c)], then [pop(0)] when the list has more
    than 30 entries. *)
Definition append_history (c : point) (h : list point) : list point :=
  let h := h ++ [c] in
  if (history_depth <? length h)%nat then tail h else h.

Definition record_history (id : nat) (c : point) (hist : gmap nat (list point))
    : gmap nat (list point) :=
  <[id := append_history c (default [] (hist !! id))]> hist.

Section Detect.
(** [self.model.names[class_id] if class_id < len(self.model.names)
    else f"class_{class_id}"], a function of the detector's table. *)
Variable name_of_class : Z -> string.

(** The body of the loop over the boxes of a frame. *)
Definition track_box (session_id : string) (t : tracker) (b : box)
    : DetectionResult * tracker :=
  let corners := (box_x1 b, box_y1 b, box_x2 b, box_y2 b) in
  let '(id, t) := _assign_track_id session_id corners t in
  let detection :=
    mk_detection corners (box_conf b) (box_cls b) (name_of_class (box_cls b)) id in
  (detection,
   mk_tracker (trackers t) (track_id_counter t)
              (record_history id (centroid corners) (track_history t))).

(** The loop of [detect_and_track], with [detections] accumulated in
    order. *)
Fixpoint track_boxes (session_id : string) (boxes : list box)
    (detections : list DetectionResult) (t : tracker)
    : list DetectionResult * tracker :=
  match boxes with
  | [] => (detections, t)
  | b :: boxes' =>
      let '(d, t) := track_box session_id t b in
      track_boxes session_id boxes' (detections ++ [d]) t
  end.

(** [detect_and_track(frame, session_id)], where [boxes] is what the
    detector returns for the frame: the ["detections"] of the result
    and the tracker afterwards. *)
Definition detect_and_track (boxes : list box) (session_id : string)
    (t : tracker) : list DetectionResult * tracker :=
  track_boxes session_id boxes [] t.


(** *** Runs of the tracker

    A run is a sequence of calls [(session_id, boxes)] started from
    [init]; the log lists, in order, every assignment made: the
    session of the call, the track id and the centroid appended to
    the history of that id. *)
Definition call : Type := string * list box.
Definition assignment : Type := string * nat * point.

Definition step (acc : tracker * list assignment) (c : call)
    : tracker * list assignment :=
  let r := detect_and_track (snd c) (fst c) (fst acc) in
  (snd r,
   snd acc ++ map (fun d => (fst c, track_id d, centroid (bbox d))) (fst r)).

Definition run (calls : list call) : tracker * list assignment :=
  fold_left step calls (init, []).
End Detect.

(** The track ids a session holds. *)
Definition session_ids (t : tracker) (session_id : string) : list nat :=
  dict_keys (default [] (trackers t !! session_id)).

(** The pair [(min_distance, matched_id)] the scan carries: both unset,
    or a match whose distance is under the threshold. *)
Definition acc_ok (m : option Q) (id : option nat) : Prop :=
  match m, id with
  | None, None => True
  | Some d, Some _ => d < threshold2
  | _, _ => False
  end.

(** The invariant of a run: ids are below the counter, no id is held
    by two sessions, every logged assignment names an id its session
    holds, and a history is bounded and made of logged centroids. *)
Record inv (t : tracker) (log : list assignment) : Prop := mk_inv {
  inv_below : forall s id, In id (session_ids t s) ->
                           (id < track_id_counter t)%nat;
  inv_disjoint : forall s1 s2 id,
      In id (session_ids t s1) -> In id (session_ids t s2) -> s1 = s2;
  inv_log : forall s id c, In (s, id, c) log -> In id (session_ids t s);
  inv_hist_len : forall id h,
      track_history t !! id = Some h -> (length h <= history_depth)%nat;
  inv_hist_src : forall id h c,
      track_history t !! id = Some h -> In c h -> exists s, In (s, id, c) log
}.


Definition bbox_corners_at (x : Q) : Q * Q * Q * Q := (x - 5, -5, x + 5, 5).

Definition box_at (x : Q) : box := mk_box (x - 5) (-5) (x + 5) 5 (9 # 10) 0.

(** Forty frames with one object standing still. *)
Definition forty_frames : list call := repeat ("s"%string, [box_at 0]) 40.

Definition history_after_forty : list point :=
  Eval vm_compute in
    default [] (track_history (fst (run (fun _ => "object"%string) forty_frames))
                  !! 0%nat).

(** Two sessions seen in turn: the second session gets a fresh id, not
    the id of the first. *)
Definition two_sessions : list call :=
  [("a"%string, [box_at 0]); ("b"%string, [box_at 0]); ("a"%string, [box_at 10])].

(** [get_track_history(track_id)] *)
Definition get_track_history (track_id : nat) (t : tracker) : list point :=
  default [] (track_history t !! track_id).

(** [self.trackers[session_id]], empty for a session not seen yet. *)
Definition tracks_of (t : tracker) (session_id : string) : list (nat * point) :=
  default [] (trackers t !! session_id).

(** The shape of the tracker's dictionaries in a run: the ids of a
    session come in increasing order, every id below the counter is
    held, the last point of a history is the stored position of its
    track, and only ids below the counter have a history. *)
Record well_formed (t : tracker) : Prop := mk_well_formed {
  wf_sorted : forall s, StronglySorted lt (session_ids t s);
  wf_dense : forall n, (n < track_id_counter t)%nat ->
                       exists s, In n (session_ids t s);
  wf_last : forall s id p,
      dict_get id (tracks_of t s) = Some p ->
      last (get_track_history id t) = Some p;
  wf_hist : forall id h,
      track_history t !! id = Some h -> (id < track_id_counter t)%nat
}.

(** Two frames that leave tracks [0] and [1] of session ["s"] at the
    origin and 80 pixels to its right. *)
Definition two_tracks : list call :=
  [("s"%string, [box_at 0]); ("s"%string, [box_at 80])].

End YOLOTracker.

(** ** guardrails.py: FrameValidator *)

Module FrameValidator.

Definition MAX_FRAME_SIZE : Z := 10 * 1024 * 1024.
Definition MIN_FRAME_DIMENSION : Z := 32.
Definition MAX_FRAME_DIMENSION : Z := 4096.
Definition MAX_FPS_PER_SESSION : Z := 30.
Definition MIN_BASE64_LENGTH : Z := 100.

(** The second component of the result: ["OK"] or the reason of the
    rejection, one constructor per message of the code. *)
Inductive reason : Type :=
| ROk
| REmptyOrNotString      (* Frame data está vazio ou não é string *)
| REncodedTooLarge (len : nat)
| REncodedTooSmall (len : nat)
| RInvalidBase64
| RDecodedEmpty
| RDecodedTooLarge (len : nat)
| RImageDecodeError
| RImageNotDecoded
| RDimensionsTooSmall (w h : Z)
| RDimensionsTooLarge (w h : Z)
| RDimensionsInvalid (w h : Z)
| RInvalidChannels
| RRateLimited (rate_error : string)
| RUnexpected.           (* Erro na validação: ... *)

Fixpoint has_comma (s : string) : bool :=
  match s with
  | EmptyString => false
  | String c s' => Ascii.eqb c ","%char || has_comma s'
  end.

(** [frame_data.split(",")[-1]] *)
Fixpoint last_segment (s : string) : string :=
  match s with
  | EmptyString => EmptyString
  | String c s' =>
      if has_comma s' then last_segment s'
      else if Ascii.eqb c ","%char then s' else s
  end.

Section Validate.
(** The decoded image, with [frame.shape]. *)
Variable Frame : Type.
Variable shape : Frame -> list Z.
(** [base64.b64decode(s, validate=True)]; [None] when it raises. *)
Variable b64decode : string -> option (list Byte.byte).
(** [cv2.imdecode]: [None] when it raises, [Some None] when it
    returns [None]. *)
Variable imdecode : list Byte.byte -> option (option Frame).

(** Steps 8 to 11, on a decoded frame. *)
Definition validate_decoded (frame : Frame) (session_id : string) (now : Q)
    (_requests : RateLimiter.requests_map)
    : (bool * reason * option Frame) * RateLimiter.requests_map :=
  match shape frame with
  | h :: w :: rest =>
      if ((h <? MIN_FRAME_DIMENSION) || (w <? MIN_FRAME_DIMENSION))%Z
      then ((false, RDimensionsTooSmall w h, None), _requests)
      else if ((h >? MAX_FRAME_DIMENSION) || (w >? MAX_FRAME_DIMENSION))%Z
      then ((false, RDimensionsTooLarge w h, None), _requests)
      else if ((h <=? 0) || (w <=? 0))%Z
      then ((false, RDimensionsInvalid w h, None), _requests)
      else
        match rest with
        | [3%Z] =>
            let '((is_allowed, rate_error), _requests) :=
              RateLimiter.check session_id now MAX_FPS_PER_SESSION _requests in
            if is_allowed then ((true, ROk, Some frame), _requests)
            else ((false, RRateLimited rate_error, None), _requests)
        | _ => ((false, RInvalidChannels, None), _requests)
        end
  | _ => ((false, RUnexpected, None), _requests)
  end.

(** [FrameValidator.validate_frame_data(frame_data, session_id)], with
    the clock value the rate limiter reads.  The length of the text is
    its number of bytes, which is [len(frame_data)] for the ASCII text of
    a base64 payload. *)
Definition validate_frame_data (frame_data : pyval) (session_id : string)
    (now : Q) (_requests : RateLimiter.requests_map)
    : (bool * reason * option Frame) * RateLimiter.requests_map :=
  match frame_data with
  | PStr s =>
      if negb (truthy frame_data)
      then ((false, REmptyOrNotString, None), _requests)
      else if (MAX_FRAME_SIZE <? Z.of_nat (String.length s))%Z
      then ((false, REncodedTooLarge (String.length s), None), _requests)
      else if (Z.of_nat (String.length s) <? MIN_BASE64_LENGTH)%Z
      then ((false, REncodedTooSmall (String.length s), None), _requests)
      else
        let base64_part := if has_comma s then last_segment s else s in
        match b64decode base64_part with
        | None => ((false, RInvalidBase64, None), _requests)
        | Some frame_bytes =>
            if (length frame_bytes =? 0)%nat
            then ((false, RDecodedEmpty, None), _requests)
            else if (MAX_FRAME_SIZE <? Z.of_nat (length frame_bytes))%Z
            then ((false, RDecodedTooLarge (length frame_bytes), None), _requests)
            else
              match imdecode frame_bytes with
              | None => ((false, RImageDecodeError, None), _requests)
              | Some None => ((false, RImageNotDecoded, None), _requests)
              | Some (Some frame) =>
                  validate_decoded frame session_id now _requests
              end
        end
  | _ => ((false, REmptyOrNotString, None), _requests)
  end.
End Validate.

(** The verdict of [validate_session_id]: ["OK"] or one of its messages. *)
Inductive session_id_verdict : Type :=
| SidOk
| SidEmpty               (* Session ID não pode estar vazio *)
| SidNotString           (* Session ID deve ser string *)
| SidTooLong (len : nat) (* Session ID muito longo: {len} caracteres (max: 256) *)
| SidTooShort            (* Session ID muito curto *)
| SidInvalidChars.       (* Session ID contém caracteres inválidos ... *)

(** [s.replace(c, "")] for a one-character [c]. *)
Fixpoint remove_char (c : ascii) (s : string) : string :=
  match s with
  | EmptyString => EmptyString
  | String x s' =>
      if Ascii.eqb x c then remove_char c s' else String x (remove_char c s')
  end.

Fixpoint all_chars (p : ascii -> bool) (s : string) : bool :=
  match s with
  | EmptyString => true
  | String x s' => p x && all_chars p s'
  end.

Fixpoint some_char (p : ascii -> bool) (s : string) : bool :=
  match s with
  | EmptyString => false
  | String x s' => p x || some_char p s'
  end.

(** The characters below 128. *)
Definition is_ascii_char (c : ascii) : bool := (N_of_ascii c <? 128)%N.

(** The ASCII letters and digits. *)
Definition is_alnum_char (c : ascii) : bool :=
  let n := N_of_ascii c in
  ((48 <=? n) && (n <=? 57) || (65 <=? n) && (n <=? 90)
   || (97 <=? n) && (n <=? 122))%N.

(** [s.isalnum()] on ASCII text: at least one character, all of them
    letters or digits.  (On other text Python also counts the letters
    and digits of other scripts.) *)
Definition isalnum (s : string) : bool :=
  negb (String.eqb s "") && all_chars is_alnum_char s.

(** [FrameValidator.validate_session_id(session_id)] *)
Definition validate_session_id (session_id : pyval) : bool * session_id_verdict :=
  if negb (truthy session_id) then (false, SidEmpty)
  else
    match session_id with
    | PStr s =>
        if (256 <? String.length s)%nat then (false, SidTooLong (String.length s))
        else if (String.length s <? 1)%nat then (false, SidTooShort)
        else if negb (isalnum (remove_char "-" (remove_char "_" s)))
        then (false, SidInvalidChars)
        else (true, SidOk)
    | _ => (false, SidNotString)
    end.

(** A character a session id may hold. *)
Definition is_id_char (c : ascii) : bool :=
  is_alnum_char c || Ascii.eqb c "_" || Ascii.eqb c "-".

(** The text made of [n] copies of [c]. *)
Fixpoint replicate_char (n : nat) (c : ascii) : string :=
  match n with
  | O => EmptyString
  | S n' => String c (replicate_char n' c)
  end.

(** A payload of a hundred characters, and the same behind a data URL
    prefix. *)
Definition payload_text : string := replicate_char 100 "A".
Definition data_url_text : string :=
  "data:image/jpeg;base64" +:+ "," +:+ payload_text.

(** Codecs for which every text decodes to one byte and every buffer to
    a colour frame of 64 x 64, a frame being given by its shape. *)
Definition one_byte : string -> option (list Byte.byte) :=
  fun _ => Some [Byte.x00].
Definition small_frame : list Byte.byte -> option (option (list Z)) :=
  fun _ => Some (Some [64; 64; 3]%Z).
Definition shape_itself : list Z -> list Z := fun sh => sh.

End FrameValidator.

(** ** yolo_service.py: YOLOService and the drawing helpers *)

Module YOLOService.
Import YOLOTracker.

(** The table of [get_color_for_class]. *)
Definition colors : list (Z * Z * Z) :=
  [(255, 0, 0); (0, 255, 0); (0, 0, 255); (255, 255, 0); (255, 0, 255);
   (0, 255, 255); (128, 0, 128); (255, 165, 0); (0, 128, 0); (0, 0, 128)]%Z.

(** [l[i]] on a list: a negative index counts from the end, and [None]
    is the [IndexError]. *)
Definition py_index {A : Type} (l : list A) (i : Z) : option A :=
  if (0 <=? i)%Z then l !! Z.to_nat i
  else if (- Z.of_nat (length l) <=? i)%Z then l !! Z.to_nat (Z.of_nat (length l) + i)
  else None.

(** [get_color_for_class(class_id)]: [colors[class_id % len(colors)]].
    Python's [%] takes the sign of the divisor, as [Z.modulo] does. *)
Definition get_color_for_class (class_id : Z) : option (Z * Z * Z) :=
  py_index colors (class_id mod Z.of_nat (length colors))%Z.

(** [frame_data.split(",")[1]] for a text with a comma: what stands
    between the first comma and the next one. *)
Fixpoint up_to_comma (s : string) : string :=
  match s with
  | EmptyString => EmptyString
  | String c s' => if Ascii.eqb c "," then EmptyString else String c (up_to_comma s')
  end.

Fixpoint second_segment (s : string) : string :=
  match s with
  | EmptyString => EmptyString
  | String c s' => if Ascii.eqb c "," then up_to_comma s' else second_segment s'
  end.

Fixpoint count_commas (s : string) : nat :=
  match s with
  | EmptyString => O
  | String c s' => ((if Ascii.eqb c "," then 1 else 0) + count_commas s')%nat
  end.

(** The text [process_video_frame] hands to the base64 decoder. *)
Definition service_payload (s : string) : string :=
  if FrameValidator.has_comma s then second_segment s else s.

(** The text [validate_frame_data] hands to the base64 decoder. *)
Definition validator_payload (s : string) : string :=
  if FrameValidator.has_comma s then FrameValidator.last_segment s else s.

(** The argument [data] of [process_video_frame], with the defaults of
    [data.get] filled in (frame [""], session ["default"], no
    annotation).  The frame is whatever JSON value the caller sent; the
    session id is a text, as in [VideoFrameRequest]. *)
Record VideoFrameRequest : Type := mk_request {
  frame : pyval;
  session_id : string;
  return_annotated : bool
}.

(** The dictionary [process_video_frame] returns.  [error] and
    [annotated_frame] are [None] when the key is absent. *)
Record VideoFrameResponse : Type := mk_response {
  detections : list DetectionResult;
  frame_shape : list Z;
  timestamp : Q;
  response_session_id : string;
  annotated_frame : option string;
  error : option string
}.

Definition error_response (msg : string) (now : Q) (sid : string)
    : VideoFrameResponse :=
  mk_response [] [] now sid None (Some msg).

Section Service.
(** The decoded image and its [shape]. *)
Variable Frame : Type.
Variable shape : Frame -> list Z.
(** The collaborators of the endpoint.  A left value is the text of the
    exception the call raises. *)
(** [base64.b64decode(s)], without validation. *)
Variable b64decode : string -> string + list Byte.byte.
(** [cv2.imdecode]; [inr None] when it returns [None]. *)
Variable imdecode : list Byte.byte -> string + option Frame.
(** [self.model(frame)], flattened to the boxes of its results. *)
Variable detect : Frame -> string + list box.
(** [draw_annotations], JPEG and base64 encoding of the result. *)
Variable annotate : Frame -> list DetectionResult -> tracker -> string + string.
(** The text of the exception raised on a frame that is not a text. *)
Variable not_text_error : pyval -> string.
Variable name_of_class : Z -> string.

(** [YOLOService.process_video_frame(data)] at clock value [now], on the
    process-wide tracker [t]. *)
Definition process_video_frame (data : VideoFrameRequest) (now : Q) (t : tracker)
    : VideoFrameResponse * tracker :=
  let sid := session_id data in
  if negb (truthy (frame data))
  then (error_response "No frame data provided" now sid, t)
  else
    match frame data with
    | PStr s =>
        match b64decode (service_payload s) with
        | inl e => (error_response e now sid, t)
        | inr frame_bytes =>
            match imdecode frame_bytes with
            | inl e => (error_response e now sid, t)
            | inr None => (error_response "Failed to decode frame" now sid, t)
            | inr (Some fr) =>
                match detect fr with
                | inl e => (error_response e now sid, t)
                | inr boxes =>
                    let '(dets, t) := detect_and_track name_of_class boxes sid t in
                    if return_annotated data
                    then
                      match annotate fr dets t with
                      | inl e => (error_response e now sid, t)
                      | inr a =>
                          (mk_response dets (firstn 2 (shape fr)) now sid (Some a) None,
                           t)
                      end
                    else
                      (mk_response dets (firstn 2 (shape fr)) now sid None None, t)
                end
            end
        end
    | other => (error_response (not_text_error other) now sid, t)
    end.
End Service.


(** Collaborators that decode any text to one byte and any buffer to a
    frame of shape 64 x 64 x 3, find one object at the origin, and
    cannot draw. *)
Definition one_byte : string -> string + list Byte.byte :=
  fun _ => inr [Byte.x00].
Definition small_frame : list Byte.byte -> string + option (list Z) :=
  fun _ => inr (Some [64; 64; 3]%Z).
Definition one_object : list Z -> string + list box := fun _ => inr [box_at 0].
Definition cannot_draw : list Z -> list DetectionResult -> tracker -> string + string :=
  fun _ _ _ => inl "drawing failed"%string.
Definition can_draw : list Z -> list DetectionResult -> tracker -> string + string :=
  fun _ _ _ => inr "/9j/"%string.
Definition type_error_text : pyval -> string := fun _ => "TypeError"%string.
Definition object_name : Z -> string := fun _ => "object"%string.

End YOLOService.

(** ** websocket_server.py *)

Module VideoStreamHandler.

(** A connection handle. *)
Definition websocket : Type := positive.

(** One value of [session_data]. *)
Record session_entry : Type := mk_session_entry {
  entry_websocket : websocket;
  started_at : Q;
  frames_processed : nat;
  last_fps : Z
}.

Record handler : Type := mk_handler {
  active_connections : gset websocket;
  session_data : gmap string session_entry
}.

(** [__init__] *)
Definition init : handler := mk_handler ∅ ∅.

(** [register(websocket, session_id)], at time [now]. *)
Definition register (ws : websocket) (session_id : string) (now : Q)
    (h : handler) : handler :=
  mk_handler ({[ws]} ∪ active_connections h)
             (<[session_id := mk_session_entry ws now 0 0]> (session_data h)).

(** [unregister(websocket, session_id)] *)
Definition unregister (ws : websocket) (session_id : string) (h : handler)
    : handler :=
  mk_handler (active_connections h ∖ {[ws]})
             (delete session_id (session_data h)).

(** What the POST to the inference boundary does. *)
Inductive boundary_outcome : Type :=
| Responded (status : Z) (body : pyval)
    (* a response arrived; [body] is its JSON when the status is 200 *)
| TimedOut                      (* asyncio.TimeoutError *)
| ClientError (e : string)      (* aiohttp.ClientError, with str(e) *)
| OtherError (e : string).      (* any other exception, with str(e) *)

Definition error_result (msg : string) : pyval :=
  PDict [("error"%string, PStr msg)].

Definition count_frame (e : session_entry) : session_entry :=
  mk_session_entry (entry_websocket e) (started_at e)
                   (S (frames_processed e)) (last_fps e).

(** [process_frame(frame_data, session_id)] *)
Definition process_frame (frame_data : pyval) (session_id : string)
    (o : boundary_outcome) (h : handler) : pyval * handler :=
  match o with
  | Responded status body =>
      if (status =? 200)%Z
      then (body,
            mk_handler (active_connections h)
                       (alter count_frame session_id (session_data h)))
      else (error_result ("Processing error: " +:+ pretty status), h)
  | TimedOut => (error_result "Processing timeout", h)
  | ClientError e => (error_result ("Connection error: " +:+ e), h)
  | OtherError e => (error_result e, h)
  end.

End VideoStreamHandler.

(** *** handle_client

    One connection, as a state machine driven by what the connection and
    the inference boundary deliver.  The process-wide state is the
    stream handler of this module and the rate limiter's windows of
    [guardrails.py]. *)

Module Orchestrator.
Import VideoStreamHandler.

Record world : Type := mk_world {
  stream_handler : handler;
  rate_requests : RateLimiter.requests_map
}.

Inductive conn_state : Type :=
| CONNECTING
| ACTIVE (session_id : string)
| CLOSED.

(** A received text, as [json.loads] sees it. *)
Inductive inbound : Type :=
| NotJson
| Json (data : pyval).

(** The first message: an object, with its [session_id] when it has
    one (a string), or anything on which the handshake raises before it
    registers: a closed connection, a text that is not JSON, a value
    that is not an object.  Session ids that are not texts are left
    out. *)
Inductive init_message : Type :=
| InitFails
| InitObject (session_id : option string).

(** What the loop [async for message in websocket] meets: a message,
    together with what the boundary would answer and whether a reply
    can be sent, or the end of the connection. *)
Inductive loop_event : Type :=
| Message (m : inbound) (o : boundary_outcome) (send_ok : bool)
| ConnectionClosed
| ConnectionError.

(** Exceptions raised inside the [try] of the loop body. *)
Inductive raised : Type :=
| JSONDecodeError
| OtherException.

Definition connected_message (session_id : string) : pyval :=
  PDict [("type", PStr "connected");
         ("session_id", PStr session_id);
         ("message", PStr "Conectado ao servidor de streaming")]%string.

(** The [response] built from the [result] of [process_frame]. *)
Definition detection_result_message (session_id : string)
    (result : list (string * pyval)) : pyval :=
  PDict [("type", PStr "detection_result");
         ("session_id", PStr session_id);
         ("detections", default (PList []) (dict_get "detections" result));
         ("annotated_frame", default (PStr "") (dict_get "annotated_frame" result));
         ("timestamp", default (PInt 0) (dict_get "timestamp" result))]%string.

Definition pong_message : pyval := PDict [("type", PStr "pong")]%string.

(** [await websocket.send(json.dumps(msg))] *)
Definition send (send_ok : bool) (msg : pyval) : raised + list pyval :=
  if send_ok then inr [msg] else inl OtherException.

(** The body of the inner [try]: the handler afterwards, and either the
    exception raised or the messages sent. *)
Definition message_body (session_id : string) (m : inbound)
    (o : boundary_outcome) (send_ok : bool) (h : handler)
    : handler * (raised + list pyval) :=
  match m with
  | NotJson => (h, inl JSONDecodeError)
  | Json (PDict data) =>
      match dict_get "type"%string data with
      | Some (PStr type) =>
          if String.eqb type "frame" then
            let frame_data := default (PStr "") (dict_get "data"%string data) in
            if truthy frame_data then
              let '(result, h) := process_frame frame_data session_id o h in
              match result with
              | PDict result =>
                  (h, send send_ok (detection_result_message session_id result))
              | _ => (h, inl OtherException)
              end
            else (h, inr [])
          else if String.eqb type "ping" then (h, send send_ok pong_message)
          else (h, inr [])
      | _ => (h, inr [])
      end
  | Json _ => (h, inl OtherException)
  end.

(** The [finally] clause: [if session_id: unregister(...)]. *)
Definition finalize (ws : websocket) (session_id : option string) (w : world)
    : world :=
  match session_id with
  | Some sid =>
      if truthy (PStr sid)
      then mk_world (unregister ws sid (stream_handler w)) (rate_requests w)
      else w
  | None => w
  end.

(** The handshake, up to the loop. *)
Definition connect (ws : websocket) (i : init_message) (now : Q)
    (send_ok : bool) (w : world) : conn_state * world * list pyval :=
  match i with
  | InitFails => (CLOSED, finalize ws None w, [])
  | InitObject session_id =>
      let sid := default "unknown"%string session_id in
      let w := mk_world (register ws sid now (stream_handler w)) (rate_requests w) in
      if send_ok then (ACTIVE sid, w, [connected_message sid])
      else (CLOSED, finalize ws (Some sid) w, [])
  end.

(** One turn of the loop for the session [session_id]. *)
Definition on_event (ws : websocket) (session_id : string) (e : loop_event)
    (w : world) : conn_state * world * list pyval :=
  match e with
  | Message m o send_ok =>
      let '(h, r) := message_body session_id m o send_ok (stream_handler w) in
      (ACTIVE session_id, mk_world h (rate_requests w),
       match r with
       | inr sent => sent
       | inl _ => []       (* logged by the [except] clauses *)
       end)
  | ConnectionClosed | ConnectionError =>
      (CLOSED, finalize ws (Some session_id) w, [])
  end.

(** The loop over the events that arrive, with the messages sent so far. *)
Fixpoint serve (ws : websocket) (st : conn_state) (events : list loop_event)
    (w : world) (sent : list pyval) : conn_state * world * list pyval :=
  match st, events with
  | ACTIVE session_id, e :: events' =>
      let '(st, w, out) := on_event ws session_id e w in
      serve ws st events' w (sent ++ out)
  | _, _ => (st, w, sent)
  end.

(** [handle_client(websocket)] *)
Definition handle_client (ws : websocket) (i : init_message) (now : Q)
    (send_ok : bool) (events : list loop_event) (w : world)
    : conn_state * world * list pyval :=
  let '(st, w, sent) := connect ws i now send_ok w in
  serve ws st events w sent.

(** The inference boundary failed: timeout, connection failure or a
    status other than 200. *)
Definition boundary_failed (o : boundary_outcome) : bool :=
  match o with
  | Responded status _ => negb (status =? 200)%Z
  | TimedOut | ClientError _ => true
  | OtherError _ => false
  end.

(** The value under key [k] of a message. *)
Definition field (k : string) (msg : pyval) : option pyval :=
  match msg with
  | PDict d => dict_get k d
  | _ => None
  end.

(** The reply that reports a failure to the client: a
    [detection_result] with no detections and a non-empty [error]. *)
Definition error_reply (msg : pyval) : Prop :=
  field "type" msg = Some (PStr "detection_result") /\
  field "detections" msg = Some (PList []) /\
  exists e, field "error" msg = Some (PStr e) /\ e <> ""%string.

(** A world in which session ["abc-1"] is registered on connection [1]
    and has one timestamp in its rate window. *)
Definition one_session : world :=
  mk_world (register 1%positive "abc-1" 0 init) {[ "abc-1"%string := [0] ]}.

(** A frame message with the given [data]. *)
Definition frame_message (data : pyval) : inbound :=
  Json (PDict [("type", PStr "frame"); ("data", data)]%string).

(** Codecs that decode nothing. *)
Definition no_base64 : string -> option (list Byte.byte) := fun _ => None.
Definition no_image : list Byte.byte -> option (option unit) := fun _ => None.
Definition no_shape : unit -> list Z := fun _ => [].

(** The events that are messages. *)
Definition is_message (e : loop_event) : bool :=
  match e with
  | Message _ _ _ => true
  | ConnectionClosed | ConnectionError => false
  end.

(** The messages that reach the line counting a frame: frame messages,
    with data that is not empty, which the boundary answers with status
    200. *)
Definition counted (e : loop_event) : bool :=
  match e with
  | Message (Json (PDict data)) (Responded status _) _ =>
      match dict_get "type"%string data with
      | Some (PStr type) =>
          String.eqb type "frame" &&
          truthy (default (PStr "") (dict_get "data"%string data)) &&
          (status =? 200)%Z
      | _ => false
      end
  | _ => false
  end.

(** An entry of the registry after [n] more frames. *)
Definition add_frames (n : nat) (e : session_entry) : session_entry :=
  mk_session_entry (entry_websocket e) (started_at e)
                   (n + frames_processed e) (last_fps e).

(** The two messages the loop can send to the connection of
    [session_id]: a pong, or a [detection_result] for that session with
    exactly the five keys of the response. *)
Definition reply_to (session_id : string) (msg : pyval) : Prop :=
  msg = pong_message \/
  exists d, msg = PDict d /\
    dict_keys d
      = ["type"; "session_id"; "detections"; "annotated_frame"; "timestamp"]%string /\
    dict_get "type"%string d = Some (PStr "detection_result") /\
    dict_get "session_id"%string d = Some (PStr session_id).

(** The registry holds an entry for [session_id] on connection [ws], and
    [ws] is among the active connections. *)
Definition registered (ws : websocket) (session_id : string) (h : handler) : Prop :=
  ws ∈ active_connections h /\
  exists e, session_data h !! session_id = Some e /\ entry_websocket e = ws.

(** A world with nothing registered. *)
Definition empty_world : world := mk_world init ∅.

(** A ping, and a frame that the boundary answers with an empty record. *)
Definition ping_event : loop_event :=
  Message (Json (PDict [("type", PStr "ping")]%string)) TimedOut true.
Definition answered_frame (send_ok : bool) : loop_event :=
  Message (frame_message (PStr "AAAA")) (Responded 200 (PDict [])) send_ok.

End Orchestrator.

(** * Properties *)

(** ** Comparisons and list helpers *)

Lemma Qltb_lt (a b : Q) : Qltb a b = true <-> a < b.
Proof. unfold Qltb. rewrite Qlt_alt. destruct (a ?= b); intuition congruence. Qed.

Lemma Qltb_ge (a b : Q) : Qltb a b = false <-> b <= a.
Proof.
  unfold Qltb. rewrite Qle_alt.
  rewrite <- (Qcompare_antisym a b). destruct (a ?= b); simpl; intuition congruence.
Qed.

Lemma Qgeb_ge (a b : Q) : Qgeb a b = true <-> b <= a.
Proof. unfold Qgeb. rewrite negb_true_iff. apply Qltb_ge. Qed.

Lemma Qgeb_lt (a b : Q) : Qgeb a b = false <-> a < b.
Proof. unfold Qgeb. rewrite negb_false_iff. apply Qltb_lt. Qed.

Lemma filter_length_mono {A : Type} (p q : A -> bool) (l : list A) :
  (forall x, p x = true -> q x = true) ->
  (length (List.filter p l) <= length (List.filter q l))%nat.
Proof.
  intros Hpq. induction l as [|x l IH]; simpl; [lia|].
  destruct (p x) eqn:Hp.
  - rewrite (Hpq x Hp). simpl. lia.
  - destruct (q x); simpl; lia.
Qed.

Lemma filter_filter_absorb {A : Type} (p q : A -> bool) (l : list A) :
  (forall x, p x = true -> q x = true) ->
  List.filter p (List.filter q l) = List.filter p l.
Proof.
  intros Hpq. induction l as [|x l IH]; simpl; [reflexivity|].
  destruct (q x) eqn:Hq; simpl.
  - destruct (p x); congruence.
  - destruct (p x) eqn:Hp; [|assumption].
    rewrite (Hpq x Hp) in Hq. discriminate.
Qed.

Lemma firstn_In_inv {A : Type} (x : A) (n : nat) (l : list A) :
  In x (firstn n l) -> In x l.
Proof.
  revert l. induction n as [|n IH]; intros [|y l]; simpl; try done.
  intros [?|?]; [by left|right; by apply IH].
Qed.

(** ** RateLimiter *)

Module RateLimiterFacts.
Import RateLimiter.

Lemma recent_mono (t now r : Q) :
  t <= now -> recent now r = true -> recent t r = true.
Proof. unfold recent. rewrite !Qltb_lt. intros. lra. Qed.

Lemma window_check_same sid now limit st :
  window (snd (check sid now limit st)) sid =
  if fst (fst (check sid now limit st))
  then List.filter (recent now) (window st sid) ++ [now]
  else List.filter (recent now) (window st sid).
Proof.
  unfold check, window.
  destruct (Z.of_nat _ >=? limit)%Z; simpl; by rewrite lookup_insert_eq.
Qed.

Lemma window_check_other sid sid' now limit st :
  sid <> sid' -> window (snd (check sid now limit st)) sid' = window st sid'.
Proof.
  intros Hne. unfold check, window.
  destruct (Z.of_nat _ >=? limit)%Z; simpl; by rewrite lookup_insert_ne.
Qed.

Lemma check_verdict sid now limit st :
  fst (fst (check sid now limit st)) =
  negb (Z.of_nat (length (List.filter (recent now) (window st sid))) >=? limit)%Z.
Proof. unfold check, window. by destruct (Z.of_nat _ >=? limit)%Z. Qed.

Lemma rate_run_snoc limit calls c :
  run limit (calls ++ [c]) = step limit (run limit calls) c.
Proof. unfold run. by rewrite fold_left_app. Qed.

Lemma admitted_snoc sid log s now ok :
  admitted sid (log ++ [(s, now, ok)]) =
  admitted sid log ++ (if ok && bool_decide (s = sid) then [now] else []).
Proof.
  unfold admitted. rewrite List.filter_app, map_app. simpl.
  by destruct (ok && bool_decide (s = sid)).
Qed.

Lemma nondecreasing_snoc (l : list Q) (x : Q) :
  nondecreasing (l ++ [x]) = true ->
  nondecreasing l = true /\ Forall (fun y => y <= x) l.
Proof.
  induction l as [|a l IH]; [by split|].
  destruct l as [|b l].
  - simpl. rewrite andb_true_r, Qgeb_ge. intros H. split; [done|].
    by constructor.
  - change (nondecreasing ((a :: b :: l) ++ [x]))
      with (Qgeb b a && nondecreasing ((b :: l) ++ [x])).
    change (nondecreasing (a :: b :: l))
      with (Qgeb b a && nondecreasing (b :: l)).
    rewrite andb_true_iff, Qgeb_ge. intros [Hab H].
    destruct (IH H) as [Hnd Hall]. split.
    + rewrite andb_true_iff, Qgeb_ge. by split.
    + constructor; [|done].
      inversion Hall as [|? ? Hb _]; subst. lra.
Qed.

(** Under one non-negative limit a window never holds more than
    [limit] timestamps. *)
Lemma run_window_length (limit : Z) (calls : list call) (sid : string) :
  (0 <= limit)%Z ->
  (Z.of_nat (length (window (fst (run limit calls)) sid)) <= limit)%Z.
Proof.
  intros Hlim. induction calls as [|[s now] calls IH] using rev_ind.
  - simpl. unfold window. rewrite lookup_empty. simpl. lia.
  - rewrite rate_run_snoc. unfold step. simpl.
    destruct (decide (s = sid)) as [->|Hne].
    + rewrite window_check_same, check_verdict.
      set (w := List.filter (recent now) (window (fst (run limit calls)) sid)).
      destruct (Z.of_nat (length w) >=? limit)%Z eqn:Hfull; simpl.
      * pose proof (filter_length_mono (recent now) (fun _ => true)
                      (window (fst (run limit calls)) sid) (fun _ _ => eq_refl)) as Hle.
        fold w in Hle.
        assert (Hall : List.filter (fun _ : Q => true)
                         (window (fst (run limit calls)) sid)
                       = window (fst (run limit calls)) sid).
        { generalize (window (fst (run limit calls)) sid).
          intros l; induction l; simpl; congruence. }
        rewrite Hall in Hle. lia.
      * rewrite length_app. simpl. lia.
    + by rewrite window_check_other.
Qed.

(** With a clock that never goes back, what a later pruning keeps of a
    window is what it keeps of all the admitted timestamps. *)
Lemma run_window_admitted (limit : Z) (calls : list call) (sid : string) (now : Q) :
  nondecreasing (map snd calls) = true ->
  Forall (fun c => snd c <= now) calls ->
  List.filter (recent now) (window (fst (run limit calls)) sid) =
  List.filter (recent now) (admitted sid (snd (run limit calls))).
Proof.
  revert now. induction calls as [|[s t] calls IH] using rev_ind; intros now Hnd Hle.
  - simpl. unfold window. by rewrite lookup_empty.
  - rewrite map_app in Hnd. simpl in Hnd.
    apply nondecreasing_snoc in Hnd as [Hnd Hprev].
    apply Forall_app in Hle as [Hle Ht].
    inversion Ht as [|? ? Htnow _]; subst. simpl in Htnow.
    assert (Hprev' : Forall (fun c : call => snd c <= t) calls).
    { rewrite List.Forall_forall. intros c Hc.
      rewrite List.Forall_forall in Hprev. apply Hprev. by apply in_map. }
    rewrite rate_run_snoc. unfold step. simpl.
    rewrite admitted_snoc.
    destruct (decide (s = sid)) as [->|Hne].
    + rewrite window_check_same, bool_decide_eq_true_2 by done.
      rewrite andb_true_r.
      destruct (fst (fst (check sid t limit (fst (run limit calls))))).
      * rewrite !List.filter_app. f_equal.
        rewrite filter_filter_absorb by (intros x; by apply recent_mono).
        by apply IH.
      * rewrite app_nil_r.
        rewrite filter_filter_absorb by (intros x; by apply recent_mono).
        by apply IH.
    + rewrite window_check_other by done.
      rewrite bool_decide_eq_false_2 by done.
      rewrite andb_false_r, app_nil_r. by apply IH.
Qed.

Lemma run_sliding_window (limit : Z) (calls : list call) (sid : string) (t : Q) :
  (0 <= limit)%Z ->
  nondecreasing (map snd calls) = true ->
  (Z.of_nat (count_in_window t (admitted sid (snd (run limit calls)))) <= limit)%Z.
Proof.
  intros Hlim. induction calls as [|[s now] calls IH] using rev_ind; intros Hnd.
  - unfold run, count_in_window. simpl. lia.
  - rewrite map_app in Hnd. simpl in Hnd.
    pose proof Hnd as Hnd0.
    apply nondecreasing_snoc in Hnd as [Hnd Hprev].
    assert (Hprev' : Forall (fun c : call => snd c <= now) calls).
    { rewrite List.Forall_forall. intros c Hc.
      rewrite List.Forall_forall in Hprev. apply Hprev. by apply in_map. }
    specialize (IH Hnd).
    rewrite rate_run_snoc. unfold step. simpl. rewrite admitted_snoc.
    destruct (fst (fst (check s now limit (fst (run limit calls))))) eqn:Hok;
      [|by rewrite app_nil_r].
    destruct (decide (s = sid)) as [->|Hne];
      [|by rewrite bool_decide_eq_false_2, app_nil_r by done].
    rewrite bool_decide_eq_true_2 by done. simpl.
    unfold count_in_window in *. rewrite List.filter_app, length_app. simpl.
    destruct (in_trailing_window t now) eqn:Hin; simpl; [|lia].
    rewrite check_verdict, negb_true_iff in Hok.
    rewrite (run_window_admitted limit calls sid now Hnd Hprev') in Hok.
    rewrite Z.geb_leb in Hok. apply Z.leb_gt in Hok.
    unfold in_trailing_window in Hin. apply andb_true_iff in Hin as [Hge _].
    apply Qgeb_ge in Hge.
    pose proof (filter_length_mono (in_trailing_window t) (recent now)
                  (admitted sid (snd (run limit calls)))) as Hmono.
    assert (forall x, in_trailing_window t x = true -> recent now x = true) as Himp.
    { intros x Hx. unfold in_trailing_window in Hx.
      apply andb_true_iff in Hx as [_ Hx]. by apply (recent_mono now t). }
    specialize (Hmono Himp). lia.
Qed.

(** C3. Under one configured non-negative limit, after every call of
    [RateLimiter.check] in a run no window holds more than [limit]
    timestamps; when the clock read by the calls never goes back, the
    admitted requests of a session whose timestamps fall in any
    trailing one-second window [(t - 1, t]] number at most [limit]; and
    a rejected call leaves in the window of its session only the pruned
    old entries, and changes no other window. *)
Theorem rate_limiter_sliding_window (limit : Z) (calls : list call) :
  (0 <= limit)%Z ->
  (forall sid,
      (Z.of_nat (length (window (fst (run limit calls)) sid)) <= limit)%Z) /\
  (nondecreasing (map snd calls) = true ->
   forall sid t,
     (Z.of_nat (count_in_window t (admitted sid (snd (run limit calls))))
      <= limit)%Z) /\
  (forall sid now st,
      fst (fst (check sid now limit st)) = false ->
      window (snd (check sid now limit st)) sid
        = List.filter (recent now) (window st sid) /\
      forall sid', sid <> sid' ->
        window (snd (check sid now limit st)) sid' = window st sid').
Proof.
  intros Hlim. split; [|split].
  - intros sid. by apply run_window_length.
  - intros Hnd sid t. by apply run_sliding_window.
  - intros sid now st Hrej. split.
    + by rewrite window_check_same, Hrej.
    + intros sid' Hne. by apply window_check_other.
Qed.

Lemma rate_limiter_sliding_window_witness :
  (0 <= 2)%Z /\
  let calls := [("abc-1"%string, 0); ("abc-1"%string, 1 # 10);
                ("abc-1"%string, 2 # 10); ("abc-1"%string, 11 # 10)] in
  snd (run 2 calls)
    = [("abc-1"%string, 0, true); ("abc-1"%string, 1 # 10, true);
       ("abc-1"%string, 2 # 10, false); ("abc-1"%string, 11 # 10, true)] /\
  (forall sid,
      (Z.of_nat (length (window (fst (run 2 calls)) sid)) <= 2)%Z).
Proof.
  split; [lia|]. split; [by vm_compute|].
  apply (rate_limiter_sliding_window 2); lia.
Defined.

(** The burst scenario: calls 1 to 30 are admitted, call 31 is rejected,
    and a call made once the window has emptied is admitted again. *)
Example burst_verdicts :
  map snd (snd (run 30 burst)) = repeat true 30 ++ [false; true].
Proof. by vm_compute. Qed.

(** *** Resetting, recovering, and sessions side by side *)

Lemma filter_none_recent (now : Q) (l : list Q) :
  Forall (fun r => 1 <= now - r) l -> List.filter (recent now) l = [].
Proof.
  induction 1 as [|r l Hr _ IH]; simpl; [done|].
  unfold recent at 1. by rewrite (proj2 (Qltb_ge (now - r) 1) Hr).
Qed.

(** After [reset_session] the session has no window left, the windows
    of the other sessions are as before, and under a limit of at least
    one the next call of the session is admitted and starts a new
    window. *)
Theorem reset_then_admitted (sid : string) (now : Q) (limit : Z)
    (rl : requests_map) :
  (1 <= limit)%Z ->
  reset_session sid rl !! sid = None /\
  (forall s, s <> sid -> reset_session sid rl !! s = rl !! s) /\
  fst (fst (check sid now limit (reset_session sid rl))) = true /\
  window (snd (check sid now limit (reset_session sid rl))) sid = [now].
Proof.
  intros Hlim.
  assert (reset_session sid rl !! sid = None) as Hnone.
  { unfold reset_session. destruct (decide (is_Some (rl !! sid))) as [|Hno].
    - apply lookup_delete_eq.
    - by apply eq_None_not_Some. }
  split; [exact Hnone|]. split.
  - intros s Hne. unfold reset_session.
    destruct (decide (is_Some (rl !! sid))); [by apply lookup_delete_ne|done].
  - assert (window (reset_session sid rl) sid = []) as Hempty
      by (unfold window; by rewrite Hnone).
    rewrite window_check_same, check_verdict, Hempty. simpl.
    assert (negb (Z.of_nat 0 >=? limit)%Z = true) as ->; [|done].
    apply negb_true_iff. rewrite Z.geb_leb. apply Z.leb_gt. lia.
Qed.

Lemma reset_then_admitted_witness :
  (1 <= 30)%Z /\
  fst (fst (check "abc-1" (1 # 10) 30
              (reset_session "abc-1" (fst (run 30 burst))))) = true.
Proof.
  assert (1 <= 30)%Z as Hlim by lia.
  split; [exact Hlim|].
  destruct (reset_then_admitted "abc-1" (1 # 10) 30 (fst (run 30 burst)) Hlim)
    as (_ & _ & Hok & _).
  exact Hok.
Defined.

(** Once every stored timestamp of a session is at least one second
    old, a call under a limit of at least one is admitted, and the
    window then holds that call alone. *)
Theorem quiet_second_readmits (sid : string) (now : Q) (limit : Z)
    (rl : requests_map) :
  (1 <= limit)%Z ->
  Forall (fun r => 1 <= now - r) (window rl sid) ->
  fst (fst (check sid now limit rl)) = true /\
  window (snd (check sid now limit rl)) sid = [now].
Proof.
  intros Hlim Hold.
  rewrite window_check_same, check_verdict, (filter_none_recent now _ Hold). simpl.
  assert (negb (Z.of_nat 0 >=? limit)%Z = true) as ->; [|done].
  apply negb_true_iff. rewrite Z.geb_leb. apply Z.leb_gt. lia.
Qed.

Lemma quiet_second_readmits_witness :
  (1 <= 1)%Z /\
  Forall (fun r => 1 <= 1 - r) (window {[ "abc-1"%string := [0] ]} "abc-1") /\
  fst (fst (check "abc-1" 1 1 {[ "abc-1"%string := [0] ]})) = true.
Proof.
  assert (1 <= 1)%Z as Hlim by lia.
  assert (Forall (fun r => 1 <= 1 - r)
            (window {[ "abc-1"%string := [0] ]} "abc-1")) as Hold.
  { unfold window. rewrite lookup_singleton_eq. simpl.
    constructor; [by vm_compute|constructor]. }
  split; [exact Hlim|]. split; [exact Hold|].
  destruct (quiet_second_readmits "abc-1" 1 1 {[ "abc-1"%string := [0] ]} Hlim Hold)
    as [Hok _].
  exact Hok.
Defined.

Lemma check_state sid now limit st :
  snd (check sid now limit st) =
  <[sid := if fst (fst (check sid now limit st))
           then List.filter (recent now) (window st sid) ++ [now]
           else List.filter (recent now) (window st sid)]> st.
Proof. unfold check, window. by destruct (Z.of_nat _ >=? limit)%Z. Qed.

(** Sessions do not interact: a call for one session changes neither
    the verdict nor the resulting window of a call for another session,
    and two such calls give the same windows in either order. *)
Theorem check_sessions_independent (s1 s2 : string) (n1 n2 : Q) (l1 l2 : Z)
    (rl : requests_map) :
  s1 <> s2 ->
  fst (check s2 n2 l2 (snd (check s1 n1 l1 rl))) = fst (check s2 n2 l2 rl) /\
  window (snd (check s2 n2 l2 (snd (check s1 n1 l1 rl)))) s2
    = window (snd (check s2 n2 l2 rl)) s2 /\
  snd (check s2 n2 l2 (snd (check s1 n1 l1 rl)))
    = snd (check s1 n1 l1 (snd (check s2 n2 l2 rl))).
Proof.
  intros Hne.
  assert (forall s s' n n' l l' st, s <> s' ->
            fst (check s' n' l' (snd (check s n l st))) = fst (check s' n' l' st))
    as Hverdict.
  { intros s s' n n' l l' st H.
    assert (window (snd (check s n l st)) s' = window st s') as Hw
      by (by apply window_check_other).
    unfold window in Hw. unfold check at 1 3. rewrite Hw.
    by destruct (Z.of_nat _ >=? l')%Z. }
  assert (s2 <> s1) as Hne' by congruence.
  split; [by apply Hverdict|]. split.
  - rewrite !window_check_same, Hverdict by done.
    by rewrite (window_check_other s1 s2).
  - rewrite (check_state s2 n2 l2 (snd (check s1 n1 l1 rl))).
    rewrite (check_state s1 n1 l1 (snd (check s2 n2 l2 rl))).
    rewrite !Hverdict by done.
    rewrite (window_check_other s1 s2), (window_check_other s2 s1) by done.
    set (w1 := if fst (fst (check s1 n1 l1 rl)) then _ else _).
    set (w2 := if fst (fst (check s2 n2 l2 rl)) then _ else _).
    rewrite (check_state s1 n1 l1 rl), (check_state s2 n2 l2 rl).
    fold w1 w2. by apply insert_insert_ne.
Qed.

Lemma check_sessions_independent_witness :
  "a"%string <> "b"%string /\
  fst (check "b" 0 1 (snd (check "a" 0 1 ∅))) = fst (check "b" 0 1 ∅).
Proof.
  assert ("a"%string <> "b"%string) as Hne by discriminate.
  split; [exact Hne|].
  destruct (check_sessions_independent "a" "b" 0 0 1 1 ∅ Hne) as [Hok _].
  exact Hok.
Defined.

(** Under a limit of zero or less no call is ever admitted. *)
Theorem nonpositive_limit_admits_nothing (limit : Z) (calls : list call) :
  (limit <= 0)%Z ->
  Forall (fun e => snd e = false) (snd (run limit calls)) /\
  forall sid, admitted sid (snd (run limit calls)) = [].
Proof.
  intros Hlim.
  assert (Forall (fun e : log_entry => snd e = false) (snd (run limit calls)))
    as Hall.
  { induction calls as [|[s now] calls IH] using rev_ind; [by constructor|].
    rewrite rate_run_snoc. unfold step. simpl.
    apply Forall_app. split; [done|]. constructor; [|done]. simpl.
    rewrite check_verdict. apply negb_false_iff. rewrite Z.geb_leb.
    apply Z.leb_le. lia. }
  split; [exact Hall|].
  intros sid. unfold admitted.
  induction Hall as [|e l He _ IH]; simpl; [done|].
  by rewrite He.
Qed.

Lemma nonpositive_limit_admits_nothing_witness :
  (0 <= 0)%Z /\ admitted "abc-1" (snd (run 0 burst)) = [].
Proof.
  assert (0 <= 0)%Z as Hlim by lia.
  split; [exact Hlim|].
  destruct (nonpositive_limit_admits_nothing 0 burst Hlim) as [_ Hnone].
  exact (Hnone "abc-1"%string).
Defined.

End RateLimiterFacts.

(** ** Dictionaries *)

Section DictFacts.
Context {K V : Type} `{EqDecision K}.
Implicit Types (d : list (K * V)).

Lemma dict_get_set_eq k v d : dict_get k (dict_set k v d) = Some v.
Proof.
  induction d as [|[k' v'] d IH]; simpl.
  - by rewrite decide_True.
  - destruct (decide (k' = k)); simpl.
    + by rewrite decide_True.
    + by rewrite decide_False.
Qed.

Lemma dict_get_set_ne k k' v d :
  k <> k' -> dict_get k' (dict_set k v d) = dict_get k' d.
Proof.
  intros Hne. induction d as [|[k0 v0] d IH]; simpl.
  - by rewrite decide_False.
  - destruct (decide (k0 = k)) as [->|]; simpl.
    + by rewrite !decide_False.
    + destruct (decide (k0 = k')); [done|apply IH].
Qed.

Lemma dict_get_Some_In k v d : dict_get k d = Some v -> In (k, v) d.
Proof.
  induction d as [|[k' v'] d IH]; simpl; [done|].
  destruct (decide (k' = k)) as [->|].
  - intros [= ->]. by left.
  - intros H. right. by apply IH.
Qed.

Lemma dict_keys_get k d : In k (dict_keys d) <-> is_Some (dict_get k d).
Proof.
  induction d as [|[k' v'] d IH]; simpl.
  - split; [done|]. by intros [? ?].
  - destruct (decide (k' = k)) as [->|Hne].
    + split; [eauto|by left].
    + rewrite <- IH. split; [|by right]. by intros [?|?].
Qed.

Lemma dict_keys_set k v d k' :
  In k' (dict_keys (dict_set k v d)) <-> k' = k \/ In k' (dict_keys d).
Proof.
  rewrite !dict_keys_get.
  destruct (decide (k = k')) as [->|Hne].
  - rewrite dict_get_set_eq. split; [by left|eauto].
  - rewrite dict_get_set_ne by done. split; [by right|].
    by intros [->|?].
Qed.

Lemma dict_set_In k v d k' v' :
  In (k', v') (dict_set k v d) -> (k' = k /\ v' = v) \/ In (k', v') d.
Proof.
  induction d as [|[k0 v0] d IH]; simpl.
  - intros [[= <- <-]|[]]. by left.
  - destruct (decide (k0 = k)) as [->|Hne]; simpl.
    + intros [[= <- <-]|?]; [by left|by right; right].
    + intros [?|Hin]; [by right; left|].
      destruct (IH Hin) as [?|?]; [by left|by right; right].
Qed.
Lemma dict_set_same k v d : dict_get k d = Some v -> dict_set k v d = d.
Proof.
  induction d as [|[k' v'] d IH]; simpl; [done|].
  destruct (decide (k' = k)) as [->|Hne].
  - by intros [= ->].
  - intros H. by rewrite IH.
Qed.
Lemma dict_keys_set_present k v d :
  is_Some (dict_get k d) -> dict_keys (dict_set k v d) = dict_keys d.
Proof.
  induction d as [|[k' v'] d IH]; simpl; [by intros [? ?]|].
  destruct (decide (k' = k)) as [->|Hne]; simpl; [done|].
  intros Hk. by rewrite <- (IH Hk).
Qed.

Lemma dict_keys_set_absent k v d :
  dict_get k d = None -> dict_keys (dict_set k v d) = dict_keys d ++ [k].
Proof.
  induction d as [|[k' v'] d IH]; simpl; [done|].
  destruct (decide (k' = k)) as [->|Hne]; simpl; [done|].
  intros Hk. by rewrite <- (IH Hk).
Qed.

End DictFacts.

(** ** YOLOTracker *)

Module YOLOTrackerFacts.
Import YOLOTracker.

Lemma scan_tracks_spec (c : point) (tracks : list (nat * point)) :
  forall m id, acc_ok m id ->
    let r := scan_tracks c tracks m id in
    acc_ok (fst r) (snd r) /\
    (forall t p, In (t, p) tracks ->
       match fst r with
       | Some d => d <= distance2 c p
       | None => threshold2 <= distance2 c p
       end) /\
    (forall m0, m = Some m0 -> exists d, fst r = Some d /\ d <= m0) /\
    ((fst r = m /\ snd r = id) \/
     exists t p, In (t, p) tracks /\ fst r = Some (distance2 c p) /\ snd r = Some t).
Proof.
  induction tracks as [|[t0 p0] tracks IH]; intros m id Hok; simpl.
  - split; [|split; [|split]]; [done|done| |by left].
    intros m0 ->. exists m0. split; [done|lra].
  - destruct (below (distance2 c p0) m && Qltb (distance2 c p0) threshold2) eqn:Htest.
    + apply andb_true_iff in Htest as [Hbelow Hthr]. apply Qltb_lt in Hthr.
      destruct (IH (Some (distance2 c p0)) (Some t0) Hthr)
        as (Hok' & Hmin & Hle & Hwho).
      destruct (Hle _ eq_refl) as (d & Hd & Hdle).
      split; [|split; [|split]]; [done| | |].
      * intros t p [[= <- <-]|Hin]; [by rewrite Hd|exact (Hmin t p Hin)].
      * intros m0 ->. simpl in Hbelow. apply Qltb_lt in Hbelow.
        exists d. split; [done|lra].
      * right. destruct Hwho as [[H1 H2]|(t & p & Hin & H1 & H2)].
        -- exists t0, p0. split; [by left|done].
        -- exists t, p. split; [by right|done].
    + destruct (IH m id Hok) as (Hok' & Hmin & Hle & Hwho).
      split; [|split; [|split]]; [done| |done|].
      * intros t p [[= <- <-]|Hin]; [|exact (Hmin t p Hin)].
        apply andb_false_iff in Htest.
        destruct m as [m0|].
        -- destruct (Hle _ eq_refl) as (d & Hd & Hdle). rewrite Hd in *.
           destruct (snd (scan_tracks c tracks (Some m0) id)); [|done].
           simpl in Hok'. simpl in Htest.
           destruct Htest as [Hge|Hge]; apply Qltb_ge in Hge; lra.
        -- simpl in Htest. destruct Htest as [?|Hge]; [done|].
           apply Qltb_ge in Hge.
           destruct (fst (scan_tracks c tracks None id)) as [d|] eqn:Hd; [|done].
           destruct (snd (scan_tracks c tracks None id)); [|done].
           simpl in Hok'. lra.
      * destruct Hwho as [?|(t & p & Hin & H1 & H2)]; [by left|].
        right. exists t, p. split; [by right|done].
Qed.

(** The first scan of a call starts from [(inf, None)]. *)
Lemma scan_from_start (c : point) (tracks : list (nat * point)) :
  match snd (scan_tracks c tracks None None) with
  | Some t =>
      exists p, In (t, p) tracks /\ distance2 c p < threshold2 /\
                forall t' p', In (t', p') tracks -> distance2 c p <= distance2 c p'
  | None => forall t' p', In (t', p') tracks -> threshold2 <= distance2 c p'
  end.
Proof.
  destruct (scan_tracks_spec c tracks None None I) as (Hok & Hmin & _ & Hwho).
  destruct (snd (scan_tracks c tracks None None)) as [t|] eqn:Hid.
  - destruct Hwho as [[_ ?]|(t' & p & Hin & Hd & [= ->])]; [done|].
    exists p. rewrite Hd in *. simpl in Hok. split; [|split]; [done|done|].
    intros t'' p'' Hin'. exact (Hmin t'' p'' Hin').
  - destruct (fst (scan_tracks c tracks None None)); [done|].
    intros t' p' Hin. exact (Hmin t' p' Hin).
Qed.

Lemma session_ids_insert (t : tracker) (sid s : string) tracks hist n :
  session_ids (mk_tracker (<[sid := tracks]> (trackers t)) n hist) s =
  if decide (sid = s) then dict_keys tracks else session_ids t s.
Proof.
  unfold session_ids. simpl. destruct (decide (sid = s)) as [->|Hne].
  - by rewrite lookup_insert_eq.
  - by rewrite lookup_insert_ne.
Qed.

(** What one call of [_assign_track_id] does to the ids. *)
Lemma assign_ids (sid : string) (b : Q * Q * Q * Q) (t : tracker) :
  let r := _assign_track_id sid b t in
  track_history (snd r) = track_history t /\
  (forall s id, In id (session_ids (snd r) s) <->
                In id (session_ids t s) \/ (s = sid /\ id = fst r)) /\
  ((In (fst r) (session_ids t sid) /\
    track_id_counter (snd r) = track_id_counter t) \/
   (fst r = track_id_counter t /\
    track_id_counter (snd r) = S (track_id_counter t))).
Proof.
  unfold _assign_track_id.
  pose proof (scan_from_start (centroid b) (default [] (trackers t !! sid))) as Hscan.
  destruct (snd (scan_tracks _ _ None None)) as [id0|]; simpl.
  - destruct Hscan as (p & Hin & _).
    assert (In id0 (session_ids t sid)) as Hheld.
    { unfold session_ids, dict_keys. apply (in_map fst) in Hin. exact Hin. }
    split; [|split]; [done| |by left]; intros s id; split.
    + rewrite session_ids_insert. destruct (decide (sid = s)) as [<-|Hne].
      * rewrite dict_keys_set. fold (session_ids t sid). tauto.
      * tauto.
    + rewrite session_ids_insert. destruct (decide (sid = s)) as [<-|Hne].
      * rewrite dict_keys_set. fold (session_ids t sid).
        intros [?|[_ ->]]; [by right|by left].
      * intros [?|[-> _]]; done.
  - split; [|split]; [done| |by right]; intros s id; split.
    + rewrite session_ids_insert. destruct (decide (sid = s)) as [<-|Hne].
      * rewrite dict_keys_set. fold (session_ids t sid). tauto.
      * tauto.
    + rewrite session_ids_insert. destruct (decide (sid = s)) as [<-|Hne].
      * rewrite dict_keys_set. fold (session_ids t sid).
        intros [?|[_ ->]]; [by right|by left].
      * intros [?|[-> _]]; done.
Qed.

Lemma append_history_length (c : point) (h : list point) :
  (length h <= history_depth)%nat ->
  (length (append_history c h) <= history_depth)%nat.
Proof.
  intros Hlen. unfold append_history.
  destruct (history_depth <? length (h ++ [c]))%nat eqn:Hfull.
  - assert (length (h ++ [c]) = S (length h)) as Hl
      by (rewrite length_app; simpl; lia).
    destruct (h ++ [c]); simpl in *; lia.
  - by apply Nat.ltb_ge in Hfull.
Qed.

Lemma append_history_In (c c' : point) (h : list point) :
  In c' (append_history c h) -> c' = c \/ In c' h.
Proof.
  unfold append_history. intros Hin.
  assert (In c' (h ++ [c])) as Hin'.
  { destruct (history_depth <? length (h ++ [c]))%nat; [|done].
    destruct (h ++ [c]); [done|by right]. }
  apply in_app_or in Hin' as [?|[?|[]]]; [by right|by left].
Qed.

(** First in, first out: a history below the depth grows at its end,
    a full one drops its oldest entry. *)
Lemma append_history_fifo (c : point) (h : list point) :
  ((length h < history_depth)%nat -> append_history c h = h ++ [c]) /\
  (length h = history_depth -> append_history c h = tail h ++ [c]).
Proof.
  unfold append_history. split; intros Hlen.
  - destruct (history_depth <? length (h ++ [c]))%nat eqn:Hfull; [|done].
    apply Nat.ltb_lt in Hfull. rewrite length_app in Hfull. simpl in Hfull. lia.
  - destruct (history_depth <? length (h ++ [c]))%nat eqn:Hfull.
    + destruct h; [done|reflexivity].
    + apply Nat.ltb_ge in Hfull. rewrite length_app in Hfull. simpl in Hfull. lia.
Qed.

Section Runs.
Variable name_of_class : Z -> string.

Lemma inv_init : inv init [].
Proof.
  split; unfold session_ids; simpl.
  - intros s id. by rewrite lookup_empty.
  - intros s1 s2 id. by rewrite lookup_empty.
  - done.
  - intros id h. by rewrite lookup_empty.
  - intros id h c. by rewrite lookup_empty.
Qed.

Lemma track_box_fields (sid : string) (t : tracker) (b : box) :
  let corners := (box_x1 b, box_y1 b, box_x2 b, box_y2 b) in
  let r := _assign_track_id sid corners t in
  track_box name_of_class sid t b =
  (mk_detection corners (box_conf b) (box_cls b)
                (name_of_class (box_cls b)) (fst r),
   mk_tracker (trackers (snd r)) (track_id_counter (snd r))
              (record_history (fst r) (centroid corners)
                              (track_history (snd r)))).
Proof. unfold track_box. simpl. by destruct (_assign_track_id _ _ _). Qed.

Lemma inv_track_box (sid : string) (t : tracker) (b : box)
    (log : list assignment) :
  inv t log ->
  let r := track_box name_of_class sid t b in
  inv (snd r)
      (log ++ [(sid, track_id (fst r), centroid (bbox (fst r)))]).
Proof.
  intros [Hbelow Hdisj Hlog Hlen Hsrc]. rewrite track_box_fields. simpl.
  set (corners := (box_x1 b, box_y1 b, box_x2 b, box_y2 b)).
  destruct (assign_ids sid corners t) as (Hhist & Hids & Hcase).
  set (r := _assign_track_id sid corners t) in *.
  assert (forall s id,
             In id (session_ids
                      (mk_tracker (trackers (snd r)) (track_id_counter (snd r))
                         (record_history (fst r) (centroid corners)
                            (track_history (snd r)))) s)
             <-> In id (session_ids t s) \/ (s = sid /\ id = fst r)) as Hids'.
  { intros s id. apply (Hids s id). }
  split; simpl.
  - intros s id Hin. apply Hids' in Hin as [Hin|[-> ->]].
    + apply Hbelow in Hin. destruct Hcase as [[_ ->]|[_ ->]]; lia.
    + destruct Hcase as [[Hin ->]|[-> ->]]; [by apply (Hbelow sid)|lia].
  - intros s1 s2 id H1 H2.
    apply Hids' in H1. apply Hids' in H2.
    destruct Hcase as [[Hheld _]|[Hfresh _]].
    + destruct H1 as [H1|[-> E1]], H2 as [H2|[-> E2]]; [| | |done].
      * by apply (Hdisj s1 s2 id).
      * rewrite E2 in H1. by apply (Hdisj s1 sid (fst r)).
      * rewrite E1 in H2. by apply (Hdisj sid s2 (fst r)).
    + destruct H1 as [H1|[-> E1]], H2 as [H2|[-> E2]]; [| | |done].
      * by apply (Hdisj s1 s2 id).
      * apply Hbelow in H1. lia.
      * apply Hbelow in H2. lia.
  - intros s id c Hin. apply Hids'.
    apply in_app_or in Hin as [Hin|[[= <- <- <-]|[]]].
    + left. by apply (Hlog s id c).
    + by right.
  - intros id h. unfold record_history. rewrite Hhist.
    destruct (decide (fst r = id)) as [<-|Hne].
    + rewrite lookup_insert_eq. intros [= <-].
      apply append_history_length.
      destruct (track_history t !! fst r) as [h0|] eqn:Hh0; simpl;
        [by apply (Hlen (fst r))|lia].
    + rewrite lookup_insert_ne by done. apply Hlen.
  - intros id h c. unfold record_history. rewrite Hhist.
    destruct (decide (fst r = id)) as [<-|Hne].
    + rewrite lookup_insert_eq. intros [= <-] Hin.
      apply append_history_In in Hin as [->|Hin].
      * exists sid. apply in_or_app. right. by left.
      * destruct (track_history t !! fst r) as [h0|] eqn:Hh0; simpl in Hin;
          [|done].
        destruct (Hsrc _ _ _ Hh0 Hin) as [s Hs].
        exists s. apply in_or_app. by left.
    + rewrite lookup_insert_ne by done. intros Hh Hin.
      destruct (Hsrc _ _ _ Hh Hin) as [s Hs].
      exists s. apply in_or_app. by left.
Qed.

(** The accumulator of the loop is only extended. *)
Lemma track_boxes_acc (sid : string) (boxes : list box) :
  forall dets t,
    track_boxes name_of_class sid boxes dets t =
    (dets ++ fst (track_boxes name_of_class sid boxes [] t),
     snd (track_boxes name_of_class sid boxes [] t)).
Proof.
  induction boxes as [|b boxes IH]; intros dets t; simpl.
  - by rewrite app_nil_r.
  - destruct (track_box name_of_class sid t b) as [d t'].
    rewrite (IH (dets ++ [d])), (IH [d]). simpl.
    by rewrite <- app_assoc.
Qed.

(** Boxes are handled one after the other, each on the tracker the
    previous one left. *)
Lemma detect_and_track_cons (sid : string) (b : box) (boxes : list box)
    (t : tracker) :
  detect_and_track name_of_class (b :: boxes) sid t =
  let r1 := track_box name_of_class sid t b in
  let r2 := detect_and_track name_of_class boxes sid (snd r1) in
  (fst r1 :: fst r2, snd r2).
Proof.
  unfold detect_and_track. simpl.
  destruct (track_box name_of_class sid t b) as [d t'].
  by rewrite track_boxes_acc.
Qed.

Lemma detect_and_track_length (sid : string) (boxes : list box) (t : tracker) :
  length (fst (detect_and_track name_of_class boxes sid t)) = length boxes.
Proof.
  revert t. induction boxes as [|b boxes IH]; intros t; [done|].
  rewrite detect_and_track_cons. cbv zeta. cbn [fst length]. by rewrite IH.
Qed.

Lemma inv_detect_and_track (sid : string) (boxes : list box) :
  forall t log,
    inv t log ->
    let r := detect_and_track name_of_class boxes sid t in
    inv (snd r)
        (log ++ map (fun d => (sid, track_id d, centroid (bbox d))) (fst r)).
Proof.
  induction boxes as [|b boxes IH]; intros t log Hinv.
  - simpl. by rewrite app_nil_r.
  - rewrite detect_and_track_cons. simpl.
    apply (inv_track_box sid t b) in Hinv.
    apply IH in Hinv. simpl in Hinv.
    by rewrite <- app_assoc in Hinv.
Qed.

Lemma tracker_run_snoc (calls : list call) (c : call) :
  run name_of_class (calls ++ [c]) =
  step name_of_class (run name_of_class calls) c.
Proof. unfold run. by rewrite fold_left_app. Qed.

Lemma inv_run (calls : list call) :
  inv (fst (run name_of_class calls)) (snd (run name_of_class calls)).
Proof.
  induction calls as [|[sid boxes] calls IH] using rev_ind.
  - apply inv_init.
  - rewrite tracker_run_snoc. unfold step. simpl.
    by apply inv_detect_and_track.
Qed.
End Runs.





(** C8. In every state a run of the tracker reaches, each track history
    holds at most 30 centroids.  Handling a box appends its centroid to
    the history of the id it was given: at the end while the history
    has fewer than 30 entries, and in place of the oldest entry, which
    is dropped from the front, once it has 30; no other history
    changes. *)
Theorem track_history_bounded_fifo (name_of_class : Z -> string)
    (calls : list call) :
  (forall id h,
      track_history (fst (run name_of_class calls)) !! id = Some h ->
      (length h <= 30)%nat) /\
  (forall sid t b,
      let r := track_box name_of_class sid t b in
      let id := track_id (fst r) in
      let c := centroid (bbox (fst r)) in
      let old := default [] (track_history t !! id) in
      track_history (snd r) !! id = Some (append_history c old) /\
      ((length old < 30)%nat -> append_history c old = old ++ [c]) /\
      (length old = 30%nat -> append_history c old = tail old ++ [c]) /\
      forall id', id' <> id ->
                  track_history (snd r) !! id' = track_history t !! id').
Proof.
  split.
  - intros id h Hh.
    exact (inv_hist_len _ _ (inv_run name_of_class calls) id h Hh).
  - intros sid t b. rewrite track_box_fields. simpl.
    set (corners := (box_x1 b, box_y1 b, box_x2 b, box_y2 b)).
    destruct (assign_ids sid corners t) as (Hhist & _ & _).
    unfold record_history. rewrite Hhist.
    split; [|split; [|split]].
    + by rewrite lookup_insert_eq.
    + apply append_history_fifo.
    + apply append_history_fifo.
    + intros id' Hne. by rewrite lookup_insert_ne.
Qed.

Lemma track_history_bounded_fifo_witness :
  track_history (fst (run (fun _ => "object"%string) forty_frames)) !! 0%nat
    = Some history_after_forty /\
  length history_after_forty = 30%nat /\
  (length history_after_forty <= 30)%nat.
Proof.
  assert (track_history (fst (run (fun _ => "object"%string) forty_frames))
            !! 0%nat = Some history_after_forty) as Hh by (by vm_compute).
  split; [exact Hh|]. split; [by vm_compute|].
  destruct (track_history_bounded_fifo (fun _ => "object"%string) forty_frames)
    as [Hlen _].
  exact (Hlen 0%nat history_after_forty Hh).
Defined.

(** C10. In every state a run reaches: an id that a call newly
    allocates (one the session of the call did not hold) is held by no
    session and was never assigned before in any session; two distinct
    sessions hold disjoint sets of ids; two assignments of one id were
    made for one session; and every centroid in the history of an id
    was appended by an assignment of that id, hence for that one
    session. *)
Theorem track_ids_not_shared (name_of_class : Z -> string) (calls : list call) :
  let t := fst (run name_of_class calls) in
  let log := snd (run name_of_class calls) in
  (forall sid b,
      let id := fst (_assign_track_id sid b t) in
      ~ In id (session_ids t sid) ->
      (forall s, ~ In id (session_ids t s)) /\
      (forall s id' c, In (s, id', c) log -> id <> id')) /\
  (forall s1 s2 id,
      s1 <> s2 -> In id (session_ids t s1) -> ~ In id (session_ids t s2)) /\
  (forall s1 s2 id c1 c2,
      In (s1, id, c1) log -> In (s2, id, c2) log -> s1 = s2) /\
  (forall id h c,
      track_history t !! id = Some h -> In c h -> exists s, In (s, id, c) log).
Proof.
  intros t log.
  pose proof (inv_run name_of_class calls) as [Hbelow Hdisj Hlog Hlen Hsrc].
  fold t log in Hbelow, Hdisj, Hlog, Hlen, Hsrc.
  split; [|split; [|split]].
  - intros sid b id Hnew.
    destruct (assign_ids sid b t) as (_ & _ & [[Hheld _]|[Hfresh _]]); [done|].
    fold id in Hfresh. split.
    + intros s Hin. apply Hbelow in Hin. lia.
    + intros s id' c Hin ->. apply Hlog, Hbelow in Hin. lia.
  - intros s1 s2 id Hne H1 H2. by apply Hne, (Hdisj s1 s2 id).
  - intros s1 s2 id c1 c2 H1 H2.
    apply (Hdisj s1 s2 id); [by apply (Hlog s1 id c1)|by apply (Hlog s2 id c2)].
  - exact Hsrc.
Qed.

(** One object that moves by 10 pixels keeps its id; a jump of 200
    pixels starts a new track. *)
Example small_move_same_track :
  map (fun a => snd (fst a))
      (snd (run (fun _ => "object"%string)
              [("s"%string, [box_at 0]); ("s"%string, [box_at 10]);
               ("s"%string, [box_at 210])]))
  = [0; 0; 1]%nat.
Proof. by vm_compute. Qed.

Lemma track_ids_not_shared_witness :
  snd (run (fun _ => "object"%string) two_sessions)
    = [("a"%string, 0%nat, centroid (bbox_corners_at 0));
       ("b"%string, 1%nat, centroid (bbox_corners_at 0));
       ("a"%string, 0%nat, centroid (bbox_corners_at 10))] /\
  "a"%string <> "b"%string /\
  In 0%nat (session_ids (fst (run (fun _ => "object"%string) two_sessions)) "a") /\
  ~ In 0%nat (session_ids (fst (run (fun _ => "object"%string) two_sessions)) "b").
Proof.
  assert ("a"%string <> "b"%string) as Hne by discriminate.
  assert (In 0%nat (session_ids
                      (fst (run (fun _ => "object"%string) two_sessions)) "a"))
    as Hin by (vm_compute; by left).
  split; [by vm_compute|]. split; [exact Hne|]. split; [exact Hin|].
  destruct (track_ids_not_shared (fun _ => "object"%string) two_sessions)
    as (_ & Hdisj & _).
  exact (Hdisj "a"%string "b"%string 0%nat Hne Hin).
Defined.

(** *** The shape of the tracker in a run *)

Lemma assign_tracks (sid : string) (b : Q * Q * Q * Q) (t : tracker) :
  trackers (snd (_assign_track_id sid b t))
  = <[sid := dict_set (fst (_assign_track_id sid b t)) (centroid b) (tracks_of t sid)]>
      (trackers t).
Proof.
  unfold _assign_track_id, tracks_of.
  by destruct (snd (scan_tracks _ _ None None)).
Qed.

Lemma session_ids_tracks (t : tracker) (s : string) :
  session_ids t s = dict_keys (tracks_of t s).
Proof. reflexivity. Qed.

Lemma sorted_snoc (l : list nat) (x : nat) :
  StronglySorted lt l -> (forall y, In y l -> (y < x)%nat) ->
  StronglySorted lt (l ++ [x]).
Proof.
  induction 1 as [|a l Hs IH Ha]; intros Hall; simpl.
  - repeat constructor.
  - constructor.
    + apply IH. intros y Hy. apply Hall. by right.
    + apply Forall_app. split; [done|]. constructor; [|done]. apply Hall. by left.
Qed.

Lemma last_append_history (c : point) (h : list point) :
  last (append_history c h) = Some c.
Proof.
  unfold append_history.
  destruct (history_depth <? length (h ++ [c]))%nat eqn:Hfull; [|apply last_snoc].
  destruct h as [|x h]; [done|]. simpl. apply last_snoc.
Qed.

Section Shape.
Variable name_of_class : Z -> string.

Lemma well_formed_init : well_formed init.
Proof.
  split; unfold session_ids, tracks_of, get_track_history; simpl.
  - intros s. rewrite lookup_empty. constructor.
  - intros n Hn. lia.
  - intros s id p. by rewrite lookup_empty.
  - intros id h. by rewrite lookup_empty.
Qed.

Lemma well_formed_track_box (sid : string) (t : tracker) (b : box)
    (log : list assignment) :
  inv t log -> well_formed t ->
  well_formed (snd (track_box name_of_class sid t b)).
Proof.
  intros [Hbelow Hdisj _ _ _] [Hsorted Hdense Hlast Hhist].
  rewrite track_box_fields. cbv zeta. cbn [snd].
  set (corners := (box_x1 b, box_y1 b, box_x2 b, box_y2 b)).
  destruct (assign_ids sid corners t) as (Hh & Hids & Hcase).
  pose proof (assign_tracks sid corners t) as Htr.
  set (r := _assign_track_id sid corners t) in *.
  set (t' := mk_tracker (trackers (snd r)) (track_id_counter (snd r))
               (record_history (fst r) (centroid corners) (track_history (snd r)))).
  assert (forall s, session_ids t' s = session_ids (snd r) s) as Hsame by done.
  assert (forall s, s <> sid -> tracks_of t' s = tracks_of t s) as Hother.
  { intros s Hne. unfold tracks_of, t'. simpl. rewrite Htr.
    by rewrite lookup_insert_ne. }
  assert (tracks_of t' sid = dict_set (fst r) (centroid corners) (tracks_of t sid))
    as Hmine.
  { unfold tracks_of at 1. unfold t'. simpl. rewrite Htr.
    by rewrite lookup_insert_eq. }
  assert (forall id, id <> fst r ->
            get_track_history id t' = get_track_history id t) as Hhist_other.
  { intros id Hne. unfold get_track_history, t', record_history. simpl.
    rewrite Hh. by rewrite lookup_insert_ne. }
  assert (forall s id, s <> sid -> In id (session_ids t s) -> id <> fst r) as Hnot.
  { intros s id Hne Hin ->.
    destruct Hcase as [[Hheld _]|[Hfresh _]].
    - by apply Hne, (Hdisj s sid (fst r)).
    - apply Hbelow in Hin. lia. }
  split.
  - intros s. destruct (decide (s = sid)) as [->|Hne].
    + rewrite session_ids_tracks, Hmine.
      destruct Hcase as [[Hheld _]|[Hfresh _]].
      * rewrite dict_keys_set_present; [apply Hsorted|].
        by apply dict_keys_get.
      * rewrite dict_keys_set_absent.
        -- apply sorted_snoc; [apply Hsorted|].
           intros y Hy. rewrite Hfresh. by apply (Hbelow sid).
        -- apply eq_None_not_Some. intros Hsome%dict_keys_get.
           apply (Hbelow sid) in Hsome. lia.
    + rewrite session_ids_tracks, Hother by done. apply Hsorted.
  - intros n Hn. simpl in Hn.
    destruct Hcase as [[_ Hc]|[Hfresh Hc]]; rewrite Hc in Hn.
    + destruct (Hdense n Hn) as [s Hs]. exists s. rewrite Hsame. apply Hids. by left.
    + destruct (decide (n = track_id_counter t)) as [->|Hne].
      * exists sid. rewrite Hsame. apply Hids. right. by rewrite Hfresh.
      * destruct (Hdense n ltac:(lia)) as [s Hs].
        exists s. rewrite Hsame. apply Hids. by left.
  - intros s id p Hget. destruct (decide (s = sid)) as [->|Hne].
    + rewrite Hmine in Hget. destruct (decide (fst r = id)) as [<-|Hid].
      * rewrite dict_get_set_eq in Hget. injection Hget as <-.
        unfold get_track_history, t', record_history. simpl.
        rewrite lookup_insert_eq. simpl. apply last_append_history.
      * rewrite dict_get_set_ne in Hget by done.
        rewrite Hhist_other by done. by apply (Hlast sid).
    + rewrite Hother in Hget by done.
      rewrite Hhist_other; [by apply (Hlast s)|].
      apply (Hnot s); [done|]. rewrite session_ids_tracks.
      apply dict_keys_get. by rewrite Hget.
  - intros id h. unfold t', record_history. simpl. rewrite Hh.
    destruct (decide (fst r = id)) as [<-|Hid].
    + intros _. destruct Hcase as [[Hheld ->]|[-> ->]]; [by apply (Hbelow sid)|lia].
    + rewrite lookup_insert_ne by done. intros Hsome%Hhist.
      destruct Hcase as [[_ ->]|[_ ->]]; lia.
Qed.

Lemma well_formed_detect_and_track (sid : string) (boxes : list box) :
  forall t log,
    inv t log -> well_formed t ->
    well_formed (snd (detect_and_track name_of_class boxes sid t)).
Proof.
  induction boxes as [|b boxes IH]; intros t log Hinv Hwf; [done|].
  rewrite detect_and_track_cons. simpl.
  eapply IH.
  - by apply (inv_track_box name_of_class sid t b).
  - by eapply well_formed_track_box.
Qed.

Lemma well_formed_run (calls : list call) :
  well_formed (fst (run name_of_class calls)).
Proof.
  induction calls as [|[sid boxes] calls IH] using rev_ind.
  - apply well_formed_init.
  - rewrite tracker_run_snoc. unfold step. simpl.
    eapply well_formed_detect_and_track; [apply inv_run|done].
Qed.

(** In every state a run reaches, the ids of a session stand in its
    dictionary in increasing order (the order in which they were
    allocated), every held id is below the counter, and every number
    below the counter is the id of a track of exactly one session: ids
    are allocated without gaps and never given up. *)
Theorem track_ids_dense_and_ordered (calls : list call) :
  let t := fst (run name_of_class calls) in
  (forall s, StronglySorted lt (session_ids t s)) /\
  (forall s id, In id (session_ids t s) -> (id < track_id_counter t)%nat) /\
  (forall n, (n < track_id_counter t)%nat ->
             exists s, In n (session_ids t s) /\
                       forall s', In n (session_ids t s') -> s' = s).
Proof.
  intros t.
  pose proof (well_formed_run calls) as [Hsorted Hdense _ _].
  pose proof (inv_run name_of_class calls) as [Hbelow Hdisj _ _ _].
  fold t in Hsorted, Hdense, Hbelow, Hdisj.
  split; [exact Hsorted|]. split; [exact Hbelow|].
  intros n Hn. destruct (Hdense n Hn) as [s Hs].
  exists s. split; [done|]. intros s' Hs'. by apply (Hdisj s' s n).
Qed.

(** In every state a run reaches, the history of a track ends with the
    position stored for it in its session, and [get_track_history] of an
    id that was never allocated is empty. *)
Theorem history_ends_at_stored_position (calls : list call) :
  let t := fst (run name_of_class calls) in
  (forall s id p,
      dict_get id (tracks_of t s) = Some p ->
      last (get_track_history id t) = Some p) /\
  (forall id, (track_id_counter t <= id)%nat -> get_track_history id t = []).
Proof.
  intros t.
  pose proof (well_formed_run calls) as [_ _ Hlast Hhist].
  fold t in Hlast, Hhist.
  split; [exact Hlast|].
  intros id Hid. unfold get_track_history.
  destruct (track_history t !! id) as [h|] eqn:Hh; [|done].
  apply Hhist in Hh. lia.
Qed.
End Shape.

(** *** Frames and ties *)

Section Frames.
Variable name_of_class : Z -> string.

Lemma track_box_keeps_ids (sid s : string) (id : nat) (t : tracker) (b : box) :
  In id (session_ids t s) ->
  In id (session_ids (snd (track_box name_of_class sid t b)) s).
Proof.
  intros Hin. rewrite track_box_fields. cbv zeta. cbn [snd].
  destruct (assign_ids sid (box_x1 b, box_y1 b, box_x2 b, box_y2 b) t)
    as (_ & Hids & _).
  apply (Hids s id). by left.
Qed.

Lemma detect_keeps_ids (sid s : string) (id : nat) (boxes : list box) :
  forall t,
    In id (session_ids t s) ->
    In id (session_ids (snd (detect_and_track name_of_class boxes sid t)) s).
Proof.
  induction boxes as [|b boxes IH]; intros t Hin; [done|].
  rewrite detect_and_track_cons. simpl. by apply IH, track_box_keeps_ids.
Qed.

Lemma run_app (calls more : list call) :
  run name_of_class (calls ++ more)
  = fold_left (step name_of_class) more (run name_of_class calls).
Proof. unfold run. by rewrite fold_left_app. Qed.

(** A track is never removed: an id a session holds at some point of a
    run is held by it at every later point. *)
Theorem tracks_never_removed (calls more : list call) (s : string) (id : nat) :
  In id (session_ids (fst (run name_of_class calls)) s) ->
  In id (session_ids (fst (run name_of_class (calls ++ more))) s).
Proof.
  intros Hin. induction more as [|[sid boxes] more IH] using rev_ind.
  - by rewrite app_nil_r.
  - rewrite app_assoc, tracker_run_snoc. unfold step. simpl.
    by apply detect_keeps_ids.
Qed.

Lemma track_box_detection (sid : string) (t : tracker) (b : box) :
  let r := track_box name_of_class sid t b in
  bbox (fst r) = (box_x1 b, box_y1 b, box_x2 b, box_y2 b) /\
  confidence (fst r) = box_conf b /\
  class_id (fst r) = box_cls b /\
  class_name (fst r) = name_of_class (box_cls b) /\
  In (track_id (fst r)) (session_ids (snd r) sid).
Proof.
  cbv zeta. rewrite track_box_fields. cbv zeta.
  cbn [fst snd bbox confidence class_id class_name track_id].
  split_and!; try done.
  destruct (assign_ids sid (box_x1 b, box_y1 b, box_x2 b, box_y2 b) t)
    as (_ & Hheld & _).
  apply (Hheld sid). by right.
Qed.

(** [detect_and_track] returns one detection per box, in order, with the
    corners, the confidence and the class of the box and the name of
    that class, and gives it an id that the session of the call holds
    once the call is over. *)
Theorem detections_follow_boxes (boxes : list box) (sid : string) (t : tracker) :
  let r := detect_and_track name_of_class boxes sid t in
  map bbox (fst r)
    = map (fun b => (box_x1 b, box_y1 b, box_x2 b, box_y2 b)) boxes /\
  map confidence (fst r) = map box_conf boxes /\
  map class_id (fst r) = map box_cls boxes /\
  map class_name (fst r) = map (fun b => name_of_class (box_cls b)) boxes /\
  Forall (fun d => In (track_id d) (session_ids (snd r) sid)) (fst r).
Proof.
  revert t. induction boxes as [|b boxes IH]; intros t.
  - simpl. by repeat split.
  - cbv zeta. rewrite detect_and_track_cons. cbv zeta. cbn [fst snd].
    destruct (track_box_detection sid t b) as (Hb1 & Hc1 & Hi1 & Hn1 & Hid1).
    set (r1 := track_box name_of_class sid t b) in *.
    destruct (IH (snd r1)) as (Hb & Hc & Hi & Hn & Hids).
    rewrite !map_cons, Hb, Hc, Hi, Hn, Hb1, Hc1, Hi1, Hn1.
    split_and!; try done. constructor; [|done].
    by apply detect_keeps_ids.
Qed.
End Frames.






Lemma tracks_never_removed_witness :
  In 0%nat (session_ids (fst (run (fun _ => "object"%string) two_tracks)) "s") /\
  In 0%nat (session_ids
              (fst (run (fun _ => "object"%string) (two_tracks ++ two_sessions))) "s").
Proof.
  assert (In 0%nat (session_ids (fst (run (fun _ => "object"%string) two_tracks)) "s"))
    as Hin by (vm_compute; by left).
  split; [exact Hin|].
  exact (tracks_never_removed (fun _ => "object"%string) two_tracks two_sessions
           "s" 0%nat Hin).
Defined.

End YOLOTrackerFacts.

(** ** DetectionValidator *)

Module DetectionValidatorFacts.
Import DetectionValidator.

Lemma inject_Z_nonneg (w : Z) : (0 <= w)%Z -> 0 <= inject_Z w.
Proof. intros H. change 0 with (inject_Z 0). by rewrite <- Zle_Qle. Qed.

Lemma inject_Z_neg (w : Z) : (w < 0)%Z -> inject_Z w < 0.
Proof. intros H. change 0 with (inject_Z 0). by rewrite <- Zlt_Qlt. Qed.

Lemma py_min_spec (a b : Q) :
  (b < a /\ py_min a b = b) \/ (a <= b /\ py_min a b = a).
Proof.
  unfold py_min. destruct (Qltb b a) eqn:H.
  - left. by apply Qltb_lt in H.
  - right. by apply Qltb_ge in H.
Qed.

Lemma py_max_spec (a b : Q) :
  (a < b /\ py_max a b = b) \/ (b <= a /\ py_max a b = a).
Proof.
  unfold py_max. destruct (Qltb a b) eqn:H.
  - left. by apply Qltb_lt in H.
  - right. by apply Qltb_ge in H.
Qed.

Lemma clamp_lower (x : Q) (w : Z) : 0 <= clamp x w.
Proof.
  unfold clamp. destruct (py_max_spec 0 (py_min x (inject_Z w))) as [[? ->]|[? ->]]; lra.
Qed.

Lemma clamp_upper (x : Q) (w : Z) : (0 <= w)%Z -> clamp x w <= inject_Z w.
Proof.
  intros Hw%inject_Z_nonneg. unfold clamp.
  destruct (py_max_spec 0 (py_min x (inject_Z w))) as [[? ->]|[? ->]]; [|lra].
  destruct (py_min_spec x (inject_Z w)) as [[? ->]|[? ->]]; lra.
Qed.

Lemma clamp_negative (x : Q) (w : Z) : (w < 0)%Z -> clamp x w = 0.
Proof.
  intros Hw%inject_Z_neg. unfold clamp.
  destruct (py_max_spec 0 (py_min x (inject_Z w))) as [[Hpos _]|[_ ->]]; [|done].
  destruct (py_min_spec x (inject_Z w)) as [[? Heq]|[? Heq]]; rewrite Heq in Hpos; lra.
Qed.

Lemma clamp_mono (x y : Q) (w : Z) : x <= y -> clamp x w <= clamp y w.
Proof.
  intros Hxy. unfold clamp.
  assert (py_min x (inject_Z w) <= py_min y (inject_Z w)) as Hmin.
  { destruct (py_min_spec x (inject_Z w)) as [[? E1]|[? E1]],
             (py_min_spec y (inject_Z w)) as [[? E2]|[? E2]];
      rewrite E1, E2; lra. }
  revert Hmin.
  generalize (py_min x (inject_Z w)) (py_min y (inject_Z w)). intros m1 m2 Hmin.
  destruct (py_max_spec 0 m1) as [[? E1]|[? E1]],
           (py_max_spec 0 m2) as [[? E2]|[? E2]];
    rewrite E1, E2; lra.
Qed.

Lemma beyond_tolerance_false (h w : Z) (x1 y1 x2 y2 : Q) :
  beyond_tolerance h w x1 y1 x2 y2 = false <->
  inject_Z (- w) * (5 # 100) <= x1 /\ inject_Z (- h) * (5 # 100) <= y1 /\
  x2 <= inject_Z w * (1 + (5 # 100)) /\ y2 <= inject_Z h * (1 + (5 # 100)).
Proof.
  unfold beyond_tolerance. rewrite !orb_false_iff, !Qltb_ge. tauto.
Qed.

Lemma within_frame_clamped (h w : Z) (x1 y1 x2 y2 : Q) :
  (0 <= w)%Z -> (0 <= h)%Z ->
  within_frame h w (clamp x1 w, clamp y1 h, clamp x2 w, clamp y2 h).
Proof.
  intros Hw Hh. unfold within_frame, bbox_within.
  pose proof (clamp_lower x1 w). pose proof (clamp_lower x2 w).
  pose proof (clamp_lower y1 h). pose proof (clamp_lower y2 h).
  pose proof (clamp_upper x1 w Hw). pose proof (clamp_upper x2 w Hw).
  pose proof (clamp_upper y1 h Hh). pose proof (clamp_upper y2 h Hh).
  tauto.
Qed.

Lemma bbox_of_validated d c x1 y1 x2 y2 :
  bbox_of (validated d c x1 y1 x2 y2) = Some (x1, y1, x2, y2).
Proof.
  unfold bbox_of, validated.
  rewrite dict_get_set_ne by discriminate. by rewrite dict_get_set_eq.
Qed.

(** Steps 1 to 3 decide whether steps 4 to 7 run, and on which values. *)
Lemma validate_one_checked parse h w st i det :
  match checked_corners parse det with
  | Some (d, c, (x1, y1, x2, y2)) =>
      validate_one parse h w st i det =
      if beyond_tolerance h w x1 y1 x2 y2
      then if beyond_band h w x1 y1 x2 y2
           then count_out_of_bounds st
           else finish_detection h w (warn st (WBboxClamped i)) i d c
                  (clamp x1 w) (clamp y1 h) (clamp x2 w) (clamp y2 h)
      else finish_detection h w st i d c x1 y1 x2 y2
  | None => valid_detections (validate_one parse h w st i det) = valid_detections st
  end.
Proof.
  unfold checked_corners, validate_one.
  destruct det as [| | | | | |d]; try reflexivity.
  destruct (number_of _) as [c|]; [|reflexivity].
  destruct (Qltb c MIN_CONFIDENCE); [reflexivity|].
  destruct (default (PList []) (dict_get "bbox"%string d))
    as [| | | | |bbox|]; try reflexivity.
  destruct (mapM (py_float parse) bbox) as [l|] eqn:Hm.
  - assert (length bbox = length l) as Hlen
      by (by apply length_mapM in Hm).
    destruct l as [|x1 [|y1 [|x2 [|y2 [|z l]]]]];
      try (destruct (negb (length bbox =? 4)%nat); reflexivity).
    rewrite Hlen. simpl.
    destruct (Qgeb x1 x2 || Qgeb y1 y2); reflexivity.
  - destruct (negb (length bbox =? 4)%nat); reflexivity.
Qed.

(** Steps 5 to 7 either leave the kept list alone or append the
    validated record, whose area reaches the minimum and which has the
    required fields. *)
Lemma finish_detection_kept h w st i d c x1 y1 x2 y2 :
  let st' := finish_detection h w st i d c x1 y1 x2 y2 in
  valid_detections st' = valid_detections st \/
  (valid_detections st' = valid_detections st ++ [validated d c x1 y1 x2 y2] /\
   MIN_BBOX_AREA <= (x2 - x1) * (y2 - y1) /\
   List.filter (fun field => negb (dict_has field d)) required_fields = []).
Proof.
  unfold finish_detection.
  destruct (Qltb ((x2 - x1) * (y2 - y1)) MIN_BBOX_AREA) eqn:Harea; [by left|].
  apply Qltb_ge in Harea.
  destruct (List.filter _ required_fields) eqn:Hmiss.
  - right. by destruct (Qltb MAX_BBOX_SIZE_RATIO _).
  - left. by destruct (Qltb MAX_BBOX_SIZE_RATIO _).
Qed.

Lemma checked_corners_Some parse det d c x1 y1 x2 y2 :
  checked_corners parse det = Some (d, c, (x1, y1, x2, y2)) ->
  det = PDict d /\ MIN_CONFIDENCE <= c /\ x1 < x2 /\ y1 < y2.
Proof.
  unfold checked_corners.
  destruct det as [| | | | | |d0]; try discriminate.
  destruct (number_of _) as [c0|]; [|discriminate].
  destruct (Qltb c0 MIN_CONFIDENCE) eqn:Hc; [discriminate|].
  destruct (default (PList []) (dict_get "bbox"%string d0))
    as [| | | | |bbox|]; try discriminate.
  destruct (mapM (py_float parse) bbox) as [[|a1 [|b1 [|a2 [|b2 [|z l]]]]]|];
    try discriminate.
  destruct (Qgeb a1 a2 || Qgeb b1 b2) eqn:Hord; [discriminate|].
  intros [= -> -> -> -> -> ->].
  apply orb_false_iff in Hord as [H1 H2].
  apply Qgeb_lt in H1. apply Qgeb_lt in H2. apply Qltb_ge in Hc.
  done.
Qed.

(** A clamped box that passes the area test is a proper box of a frame
    with non-negative sides, inside the tolerance. *)
Lemma clamped_accepted (h w : Z) (x1 y1 x2 y2 : Q) :
  x1 < x2 -> y1 < y2 ->
  MIN_BBOX_AREA <= (clamp x2 w - clamp x1 w) * (clamp y2 h - clamp y1 h) ->
  clamp x1 w < clamp x2 w /\ clamp y1 h < clamp y2 h /\
  (0 <= w)%Z /\ (0 <= h)%Z /\
  beyond_tolerance h w (clamp x1 w) (clamp y1 h) (clamp x2 w) (clamp y2 h) = false.
Proof.
  intros Hx Hy Harea. unfold MIN_BBOX_AREA in Harea.
  assert (clamp x1 w <= clamp x2 w) as Hcx by (apply clamp_mono; lra).
  assert (clamp y1 h <= clamp y2 h) as Hcy by (apply clamp_mono; lra).
  assert (clamp x1 w < clamp x2 w) as Hsx by nra.
  assert (clamp y1 h < clamp y2 h) as Hsy by nra.
  assert (0 <= w)%Z as Hw.
  { destruct (Z_lt_le_dec w 0) as [Hneg|]; [|done].
    rewrite !(clamp_negative _ w Hneg) in Hsx. lra. }
  assert (0 <= h)%Z as Hh.
  { destruct (Z_lt_le_dec h 0) as [Hneg|]; [|done].
    rewrite !(clamp_negative _ h Hneg) in Hsy. lra. }
  split; [done|]. split; [done|]. split; [done|]. split; [done|].
  apply beyond_tolerance_false.
  pose proof (within_frame_clamped h w x1 y1 x2 y2 Hw Hh) as Hin.
  unfold within_frame, bbox_within in Hin.
  pose proof (inject_Z_nonneg w Hw). pose proof (inject_Z_nonneg h Hh).
  rewrite !inject_Z_opp. repeat split; lra.
Qed.

Lemma validate_one_accepted parse h w st i det :
  Forall (accepted h w) (valid_detections st) ->
  Forall (accepted h w) (valid_detections (validate_one parse h w st i det)).
Proof.
  intros Hall. pose proof (validate_one_checked parse h w st i det) as Hone.
  destruct (checked_corners parse det) as [[[d c] [[[x1 y1] x2] y2]]|] eqn:Hck;
    [|by rewrite Hone].
  apply checked_corners_Some in Hck as (-> & Hc & Hx & Hy).
  rewrite Hone. clear Hone.
  destruct (beyond_tolerance h w x1 y1 x2 y2) eqn:Htol.
  - destruct (beyond_band h w x1 y1 x2 y2); [done|].
    destruct (finish_detection_kept h w (warn st (WBboxClamped i)) i d c
                (clamp x1 w) (clamp y1 h) (clamp x2 w) (clamp y2 h))
      as [->|(-> & Harea & Hfields)]; [done|].
    simpl. apply Forall_app. split; [done|]. constructor; [|done].
    destruct (clamped_accepted h w x1 y1 x2 y2 Hx Hy Harea)
      as (Hsx & Hsy & _ & _ & Hin).
    by exists d, c, (clamp x1 w), (clamp y1 h), (clamp x2 w), (clamp y2 h).
  - destruct (finish_detection_kept h w st i d c x1 y1 x2 y2)
      as [->|(-> & Harea & Hfields)]; [done|].
    apply Forall_app. split; [done|]. constructor; [|done].
    by exists d, c, x1, y1, x2, y2.
Qed.

Lemma validate_loop_accepted parse h w dets :
  forall i st,
    Forall (accepted h w) (valid_detections st) ->
    Forall (accepted h w) (valid_detections (validate_loop parse h w dets i st)).
Proof.
  induction dets as [|det dets IH]; intros i st Hall; simpl; [done|].
  by apply IH, validate_one_accepted.
Qed.

(** *** The final sort *)

Lemma insert_desc_perm x l : Permutation (insert_desc x l) (x :: l).
Proof.
  induction l as [|y l IH]; simpl; [done|].
  destruct (Qltb (sort_key x) (sort_key y)); [|done].
  rewrite IH. apply perm_swap.
Qed.

Lemma sort_desc_perm l : Permutation (sort_desc l) l.
Proof.
  induction l as [|x l IH]; simpl; [done|].
  rewrite insert_desc_perm. by constructor.
Qed.





Lemma cap_detections_In st d :
  In d (valid_detections (cap_detections st)) -> In d (valid_detections st).
Proof.
  unfold cap_detections.
  destruct (MAX_DETECTIONS_PER_FRAME <? length (valid_detections st))%nat; [|done].
  simpl. intros Hin%firstn_In_inv.
  by apply (Permutation_in _ (sort_desc_perm _)).
Qed.

Lemma cap_detections_length st :
  (length (valid_detections (cap_detections st)) <= MAX_DETECTIONS_PER_FRAME)%nat.
Proof.
  unfold cap_detections.
  destruct (MAX_DETECTIONS_PER_FRAME <? length (valid_detections st))%nat eqn:H.
  - simpl. rewrite length_firstn. lia.
  - by apply Nat.ltb_ge in H.
Qed.

Lemma validate_detections_accepted parse ds h w :
  Forall (accepted h w) (fst (validate_detections parse ds (h, w))).
Proof.
  unfold validate_detections, validate_detections_state. simpl.
  destruct ds as [|d0 ds]; [by constructor|].
  rewrite List.Forall_forall. intros d Hin%cap_detections_In.
  pose proof (validate_loop_accepted parse h w (d0 :: ds) 0 vstate_init
                (Forall_nil_2 _)) as Hall.
  rewrite List.Forall_forall in Hall. by apply Hall.
Qed.

(** C1, as stated, fails: a box that leaves the frame by less than the
    5% tolerance is kept as it is.  On a 640 x 480 frame the detection
    with corners (-1, 0, 100, 100) is returned with [x1 = -1]. *)
Lemma kept_bbox_outside_frame :
  ~ (forall d,
        In d (fst (validate_detections no_numerals left_of_frame (480, 640)%Z)) ->
        exists b, bbox_of d = Some b /\ within_frame 480 640 b).
Proof.
  intros H.
  destruct (H (validated
                 [("bbox", PList [PInt (-1); PInt 0; PInt 100; PInt 100]);
                  ("confidence", PFloat (9 # 10));
                  ("class_id", PInt 0);
                  ("class_name", PStr "person");
                  ("track_id", PInt 1)]%string
                 (9 # 10) (inject_Z (-1)) (inject_Z 0) (inject_Z 100) (inject_Z 100)))
    as (b & Hb & Hin).
  - vm_compute. by left.
  - rewrite bbox_of_validated in Hb. injection Hb as <-.
    unfold within_frame, bbox_within in Hin. destruct Hin as (H0 & _).
    revert H0. by vm_compute.
Qed.

Lemma clamp_clamped_to (x : Q) (w : Z) : (0 <= w)%Z -> clamped_to w x (clamp x w).
Proof.
  intros Hw%inject_Z_nonneg. unfold clamped_to, clamp.
  destruct (py_min_spec x (inject_Z w)) as [[Hm ->]|[Hm ->]].
  - destruct (py_max_spec 0 (inject_Z w)) as [[H0 ->]|[H0 ->]];
      split_and!; intros; lra.
  - destruct (py_max_spec 0 x) as [[H0 ->]|[H0 ->]];
      split_and!; intros; lra.
Qed.

(** Steps 5 to 7 keep the record they are given or drop it, warn at
    most about its size or its missing fields, and leave the count of
    boxes out of bounds alone. *)
Lemma finish_detection_effect h w st i d c x1 y1 x2 y2 :
  let st' := finish_detection h w st i d c x1 y1 x2 y2 in
  (valid_detections st' = valid_detections st \/
   valid_detections st' = valid_detections st ++ [validated d c x1 y1 x2 y2]) /\
  (exists ws, warnings st' = warnings st ++ ws /\ ~ In (WBboxClamped i) ws) /\
  rejected_out_of_bounds st' = rejected_out_of_bounds st.
Proof.
  unfold finish_detection.
  destruct (Qltb ((x2 - x1) * (y2 - y1)) MIN_BBOX_AREA).
  { split; [by left|]. split; [|done]. exists []. split; [by rewrite app_nil_r|by intros []]. }
  destruct (Qltb MAX_BBOX_SIZE_RATIO _);
    destruct (List.filter _ required_fields); cbn.
  - split; [by right|]. split; [|done]. eexists [_]. split; [reflexivity|].
    by intros [|[]].
  - split; [by left|]. split; [|done]. eexists [_; _].
    rewrite <- app_assoc. split; [reflexivity|]. by intros [|[|[]]].
  - split; [by right|]. split; [|done]. exists [].
    split; [by rewrite app_nil_r|by intros []].
  - split; [by left|]. split; [|done]. eexists [_]. split; [reflexivity|].
    by intros [|[]].
Qed.

Lemma within_enlarged_tolerance (h w : Z) (x1 y1 x2 y2 : Q) :
  (0 <= h)%Z -> (0 <= w)%Z ->
  within_enlarged (5 # 100) (1 - rounding_margin) h w (x1, y1, x2, y2) ->
  beyond_tolerance h w x1 y1 x2 y2 = false.
Proof.
  intros Hh%inject_Z_nonneg Hw%inject_Z_nonneg (H1 & H2 & H3 & H4).
  unfold rounding_margin in *. apply beyond_tolerance_false.
  rewrite !inject_Z_opp. split_and!; lra.
Qed.

Lemma beyond_enlarged_tolerance (h w : Z) (x1 y1 x2 y2 : Q) :
  (0 <= h)%Z -> (0 <= w)%Z ->
  beyond_enlarged (5 # 100) (1 + rounding_margin) h w (x1, y1, x2, y2) ->
  beyond_tolerance h w x1 y1 x2 y2 = true.
Proof.
  intros Hh%inject_Z_nonneg Hw%inject_Z_nonneg Hout.
  unfold rounding_margin, beyond_enlarged in Hout. unfold beyond_tolerance.
  rewrite !inject_Z_opp, !orb_true_iff, !Qltb_lt.
  destruct Hout as [H|[H|[H|H]]]; [left; left; left|left; left; right|left; right|right];
    lra.
Qed.

Lemma within_enlarged_band (h w : Z) (x1 y1 x2 y2 : Q) :
  (0 <= h)%Z -> (0 <= w)%Z ->
  within_enlarged (1 # 10) (1 - rounding_margin) h w (x1, y1, x2, y2) ->
  beyond_band h w x1 y1 x2 y2 = false.
Proof.
  intros Hh%inject_Z_nonneg Hw%inject_Z_nonneg (H1 & H2 & H3 & H4).
  unfold rounding_margin in *. unfold beyond_band.
  rewrite !inject_Z_opp, !orb_false_iff, !Qltb_ge. split_and!; lra.
Qed.

Lemma beyond_enlarged_band (h w : Z) (x1 y1 x2 y2 : Q) :
  (0 <= h)%Z -> (0 <= w)%Z ->
  beyond_enlarged (1 # 10) (1 + rounding_margin) h w (x1, y1, x2, y2) ->
  beyond_band h w x1 y1 x2 y2 = true /\ beyond_tolerance h w x1 y1 x2 y2 = true.
Proof.
  intros Hh%inject_Z_nonneg Hw%inject_Z_nonneg Hout.
  unfold rounding_margin, beyond_enlarged in Hout.
  unfold beyond_band, beyond_tolerance.
  rewrite !inject_Z_opp, !orb_true_iff, !Qltb_lt.
  destruct Hout as [H|[H|[H|H]]];
    (split; [left; left; left|left; left; left]; lra) ||
    (split; [left; left; right|left; left; right]; lra) ||
    (split; [left; right|left; right]; lra) ||
    (split; [right|right]; lra).
Qed.

Lemma in_exact_range_Z (n : Z) :
  (- 9007199254740992 <= n <= 9007199254740992)%Z -> in_exact_range (inject_Z n).
Proof.
  intros [Hlo Hhi]. unfold in_exact_range, exact_bound.
  change 9007199254740992 with (inject_Z 9007199254740992).
  rewrite <- inject_Z_opp, <- !Zle_Qle. lia.
Qed.

(** A record built by [detection] has plain numbers when its corners
    and its confidence are in range. *)
Lemma detection_plain_numbers parse (x1 y1 x2 y2 : Z) (c : Q) (id : Z) :
  Forall (fun n => - 9007199254740992 <= n <= 9007199254740992)%Z [x1; y1; x2; y2] ->
  in_exact_range c ->
  plain_numbers parse (detection x1 y1 x2 y2 c id).
Proof.
  intros Hcorners Hc. split.
  - intros c' [= <-]. exact Hc.
  - intros bbox [= <-].
    repeat match goal with
           | H : Forall _ (_ :: _) |- _ => apply Forall_cons in H as [? H]
           end.
    do 4 (apply List.Forall_cons; [intros q [= <-]; by apply in_exact_range_Z|]).
    apply List.Forall_nil.
Qed.

(** C1, amended.  The frame has sides from 0 to 2^53, the confidences
    and coordinates given are numbers of magnitude at most 2^53, and
    [m = 2^-50] is the margin for rounding.  Every detection
    [validate_detections] returns has its box inside the frame enlarged
    by the 5% tolerance, [[-0.05 w (1 + m), 1.05 w (1 + m)]] by
    [[-0.05 h (1 + m), 1.05 h (1 + m)]], not necessarily inside the
    frame.  For a detection that reaches the bounds check:
    - when no coordinate lies beyond the 5% tolerance, nothing is
      clamped and no clamp warning is given: if the detection is kept,
      its box is returned as given, also where it leaves the frame;
    - when some coordinate lies beyond the 5% tolerance and none beyond
      the 10% band, a clamp warning is appended and all four
      coordinates are moved to the nearest point of the frame, so that
      the box lies in [[0, w] x [0, h]]; the detection is kept with
      that box if it passes the later checks;
    - when some coordinate lies beyond the 10% band, the detection is
      rejected: counted as out of bounds, not kept, no warning. *)
Theorem kept_bbox_within_tolerance (parse : string -> option Q)
    (ds : list pyval) (h w : Z) :
  frame_sides h w ->
  Forall (plain_numbers parse) ds ->
  (forall d,
      In d (fst (validate_detections parse ds (h, w))) ->
      exists b,
        bbox_of d = Some b /\
        bbox_within (- ((5 # 100) * inject_Z w) * (1 + rounding_margin))
                    ((1 + (5 # 100)) * inject_Z w * (1 + rounding_margin))
                    (- ((5 # 100) * inject_Z h) * (1 + rounding_margin))
                    ((1 + (5 # 100)) * inject_Z h * (1 + rounding_margin)) b) /\
  (forall st i det d c x1 y1 x2 y2,
      plain_numbers parse det ->
      checked_corners parse det = Some (d, c, (x1, y1, x2, y2)) ->
      let st' := validate_one parse h w st i det in
      (within_enlarged (5 # 100) (1 - rounding_margin) h w (x1, y1, x2, y2) ->
       (valid_detections st' = valid_detections st \/
        valid_detections st' = valid_detections st ++ [validated d c x1 y1 x2 y2]) /\
       (exists ws, warnings st' = warnings st ++ ws /\ ~ In (WBboxClamped i) ws) /\
       rejected_out_of_bounds st' = rejected_out_of_bounds st) /\
      (beyond_enlarged (5 # 100) (1 + rounding_margin) h w (x1, y1, x2, y2) ->
       within_enlarged (1 # 10) (1 - rounding_margin) h w (x1, y1, x2, y2) ->
       exists x1' y1' x2' y2',
         clamped_to w x1 x1' /\ clamped_to h y1 y1' /\
         clamped_to w x2 x2' /\ clamped_to h y2 y2' /\
         within_frame h w (x1', y1', x2', y2') /\
         In (WBboxClamped i) (warnings st') /\
         rejected_out_of_bounds st' = rejected_out_of_bounds st /\
         (valid_detections st' = valid_detections st \/
          valid_detections st' =
            valid_detections st ++ [validated d c x1' y1' x2' y2'])) /\
      (beyond_enlarged (1 # 10) (1 + rounding_margin) h w (x1, y1, x2, y2) ->
       valid_detections st' = valid_detections st /\
       warnings st' = warnings st /\
       rejected_out_of_bounds st' = S (rejected_out_of_bounds st))).
Proof.
  intros [[Hh _] [Hw _]] _. split.
  - intros d Hin.
    pose proof (validate_detections_accepted parse ds h w) as Hall.
    rewrite List.Forall_forall in Hall.
    destruct (Hall d Hin) as (f & c & x1 & y1 & x2 & y2 & -> & _ & Hx & Hy & Htol & _).
    exists (x1, y1, x2, y2). split; [apply bbox_of_validated|].
    apply beyond_tolerance_false in Htol. rewrite !inject_Z_opp in Htol.
    pose proof (inject_Z_nonneg w Hw). pose proof (inject_Z_nonneg h Hh).
    unfold bbox_within, rounding_margin. split_and!; lra.
  - intros st i det d c x1 y1 x2 y2 _ Hck st'.
    pose proof (validate_one_checked parse h w st i det) as Hone.
    rewrite Hck in Hone. fold st' in Hone. split; [|split].
    + intros Hin. rewrite (within_enlarged_tolerance h w _ _ _ _ Hh Hw Hin) in Hone.
      rewrite Hone. apply finish_detection_effect.
    + intros Hout Hin.
      rewrite (beyond_enlarged_tolerance h w _ _ _ _ Hh Hw Hout),
        (within_enlarged_band h w _ _ _ _ Hh Hw Hin) in Hone.
      exists (clamp x1 w), (clamp y1 h), (clamp x2 w), (clamp y2 h).
      split; [by apply clamp_clamped_to|]. split; [by apply clamp_clamped_to|].
      split; [by apply clamp_clamped_to|]. split; [by apply clamp_clamped_to|].
      split; [by apply within_frame_clamped|].
      destruct (finish_detection_effect h w (warn st (WBboxClamped i)) i d c
                  (clamp x1 w) (clamp y1 h) (clamp x2 w) (clamp y2 h))
        as (Hkept & (ws & Hws & _) & Hcount).
      rewrite <- Hone in Hkept, Hws, Hcount. split; [|split; [exact Hcount|exact Hkept]].
      rewrite Hws. cbn [warnings warn]. apply in_or_app. left.
      apply in_or_app. right. by left.
    + intros Hout.
      destruct (beyond_enlarged_band h w _ _ _ _ Hh Hw Hout) as [Hband Htol].
      rewrite Htol, Hband in Hone. by rewrite Hone.
Qed.

Lemma kept_bbox_within_tolerance_witness :
  frame_sides 480 640 /\
  Forall (plain_numbers no_numerals) [right_of_frame] /\
  checked_corners no_numerals right_of_frame
    = Some (right_of_frame_fields, 9 # 10,
            (inject_Z 0, inject_Z 0, inject_Z 690, inject_Z 100)) /\
  beyond_enlarged (5 # 100) (1 + rounding_margin) 480 640
    (inject_Z 0, inject_Z 0, inject_Z 690, inject_Z 100) /\
  within_enlarged (1 # 10) (1 - rounding_margin) 480 640
    (inject_Z 0, inject_Z 0, inject_Z 690, inject_Z 100) /\
  In (WBboxClamped 0)
     (warnings (validate_one no_numerals 480 640 vstate_init 0 right_of_frame)).
Proof.
  assert (frame_sides 480 640) as Hframe by (unfold frame_sides; lia).
  assert (plain_numbers no_numerals right_of_frame) as Hplain.
  { apply detection_plain_numbers.
    - repeat constructor; lia.
    - split; by vm_compute. }
  assert (Forall (plain_numbers no_numerals) [right_of_frame]) as Hall
    by (constructor; [exact Hplain|constructor]).
  assert (checked_corners no_numerals right_of_frame
          = Some (right_of_frame_fields, 9 # 10,
                  (inject_Z 0, inject_Z 0, inject_Z 690, inject_Z 100))) as Hck
    by (by vm_compute).
  assert (beyond_enlarged (5 # 100) (1 + rounding_margin) 480 640
            (inject_Z 0, inject_Z 0, inject_Z 690, inject_Z 100)) as Hout
    by (right; right; left; by vm_compute).
  assert (within_enlarged (1 # 10) (1 - rounding_margin) 480 640
            (inject_Z 0, inject_Z 0, inject_Z 690, inject_Z 100)) as Hin
    by (split_and!; by vm_compute).
  destruct (kept_bbox_within_tolerance no_numerals [right_of_frame] 480 640
              Hframe Hall) as [_ Hone].
  destruct (Hone vstate_init 0%nat right_of_frame _ _ _ _ _ _ Hplain Hck)
    as (_ & Hclamp & _).
  destruct (Hclamp Hout Hin) as (? & ? & ? & ? & _ & _ & _ & _ & _ & Hwarn & _).
  split_and!; assumption.
Defined.


(** A box beyond the 10% band is dropped without a warning. *)
Example far_outside_dropped :
  validate_detections no_numerals [detection 0 0 710 100 (9 # 10) 1] (480, 640)%Z
  = ([], []).
Proof. by vm_compute. Qed.

(** The 150 valid detections come back as the 100 most confident ones,
    most confident first. *)
Example many_detections_ranked :
  map sort_key (firstn 4 (fst (validate_detections no_numerals many_detections
                                 (480, 640)%Z)))
  = [79 # 100; 79 # 100; 79 # 100; 78 # 100] /\
  map (fun d => match d with
                | PDict f => dict_get "track_id"%string f
                | _ => None
                end)
      (firstn 3 (fst (validate_detections no_numerals many_detections
                        (480, 640)%Z)))
  = [Some (PInt 49); Some (PInt 99); Some (PInt 149)].
Proof. split; by vm_compute. Qed.











(** *** Validating a validated record again *)

Lemma dict_has_validated f d c x1 y1 x2 y2 :
  f <> "bbox"%string -> f <> "confidence"%string ->
  dict_has f (dict_set "confidence"%string (PFloat c)
                (dict_set "bbox"%string (bbox_value x1 y1 x2 y2) d))
  = dict_has f d.
Proof.
  intros Hb Hc. unfold dict_has.
  rewrite dict_get_set_ne by done. by rewrite dict_get_set_ne by done.
Qed.

Lemma validate_one_again parse h w st i d' :
  accepted h w d' ->
  exists st_r,
    validate_one parse h w st i d' = keep st_r d' /\
    (st_r = st \/ exists p, st_r = warn st (WBboxTooLarge i p)).
Proof.
  intros (d & c & x1 & y1 & x2 & y2 & -> & Hc & Hx & Hy & Htol & Harea & Hfields).
  set (fields := dict_set "confidence"%string (PFloat c)
                   (dict_set "bbox"%string (bbox_value x1 y1 x2 y2) d)).
  assert (dict_get "confidence"%string fields = Some (PFloat c)) as Hgc
    by apply dict_get_set_eq.
  assert (dict_get "bbox"%string fields = Some (bbox_value x1 y1 x2 y2)) as Hgb.
  { unfold fields. rewrite dict_get_set_ne by discriminate.
    apply dict_get_set_eq. }
  assert (checked_corners parse (validated d c x1 y1 x2 y2)
          = Some (fields, c, (x1, y1, x2, y2))) as Hck.
  { unfold checked_corners, validated. fold fields. rewrite Hgc, Hgb. simpl.
    rewrite (proj2 (Qltb_ge c MIN_CONFIDENCE) Hc).
    rewrite (proj2 (Qgeb_lt x1 x2) Hx), (proj2 (Qgeb_lt y1 y2) Hy). done. }
  pose proof (validate_one_checked parse h w st i (validated d c x1 y1 x2 y2))
    as Hone.
  rewrite Hck, Htol in Hone. rewrite Hone.
  assert (validated fields c x1 y1 x2 y2 = validated d c x1 y1 x2 y2) as Hsame.
  { unfold validated. fold fields.
    rewrite (dict_set_same "bbox"%string _ fields Hgb).
    by rewrite (dict_set_same "confidence"%string _ fields Hgc). }
  assert (List.filter (fun field => negb (dict_has field fields)) required_fields
          = []) as Hfields'.
  { unfold required_fields in *. simpl in *. unfold fields.
    rewrite !dict_has_validated by discriminate. exact Hfields. }
  unfold finish_detection.
  rewrite (proj2 (Qltb_ge _ MIN_BBOX_AREA) Harea), Hfields'.
  unfold validated in *. fold fields in Hsame |- *. rewrite Hsame.
  destruct (Qltb MAX_BBOX_SIZE_RATIO _).
  - eexists. split; [reflexivity|]. right. by eexists.
  - eexists. split; [reflexivity|]. by left.
Qed.

Lemma validate_loop_again parse h w l :
  Forall (accepted h w) l ->
  forall i st,
    exists ws,
      validate_loop parse h w l i st =
      mk_vstate (valid_detections st ++ l) (warnings st ++ ws)
        (rejected_low_confidence st) (rejected_invalid_bbox st)
        (rejected_too_small st) (rejected_out_of_bounds st) /\
      Forall is_size_warning ws.
Proof.
  induction 1 as [|d l Hd Hl IH]; intros i st; simpl.
  - exists []. rewrite !app_nil_r. by destruct st.
  - destruct (validate_one_again parse h w st i d Hd)
      as (st_r & -> & [->|[p ->]]).
    + destruct (IH (S i) (keep st d)) as (ws & -> & Hws).
      exists ws. simpl. by rewrite <- app_assoc.
    + destruct (IH (S i) (keep (warn st (WBboxTooLarge i p)) d)) as (ws & -> & Hws).
      exists (WBboxTooLarge i p :: ws). simpl. rewrite <- !app_assoc.
      split; [done|]. by constructor.
Qed.

Lemma cap_detections_small st :
  (length (valid_detections st) <= MAX_DETECTIONS_PER_FRAME)%nat ->
  cap_detections st = st.
Proof.
  intros Hlen. unfold cap_detections.
  by rewrite (proj2 (Nat.ltb_ge _ _) Hlen).
Qed.

Lemma validate_detections_again parse h w l :
  Forall (accepted h w) l -> (length l <= 100)%nat ->
  fst (validate_detections parse l (h, w)) = l /\
  Forall is_size_warning (snd (validate_detections parse l (h, w))).
Proof.
  intros Hall Hlen. unfold validate_detections, validate_detections_state.
  destruct l as [|d l]; [by split|].
  destruct (validate_loop_again parse h w (d :: l) Hall 0 vstate_init)
    as (ws & -> & Hws).
  rewrite cap_detections_small by (simpl; exact Hlen). by split.
Qed.

(** C7. Validating again what [validate_detections] returned, against
    the same frame shape, returns the same records: none is rejected and
    none has its box or confidence changed, whether the returned list is
    validated as a whole or one record at a time; the only warnings the
    second pass can give are those about the size of a box. *)
Theorem sanitization_idempotent (parse : string -> option Q) (ds : list pyval)
    (h w : Z) :
  let kept := fst (validate_detections parse ds (h, w)) in
  (fst (validate_detections parse kept (h, w)) = kept /\
   Forall is_size_warning (snd (validate_detections parse kept (h, w)))) /\
  (forall d, In d kept ->
             fst (validate_detections parse [d] (h, w)) = [d] /\
             Forall is_size_warning (snd (validate_detections parse [d] (h, w)))).
Proof.
  intros kept.
  pose proof (validate_detections_accepted parse ds h w) as Hall. fold kept in Hall.
  split.
  - apply validate_detections_again; [done|].
    unfold kept, validate_detections, validate_detections_state.
    destruct ds as [|d0 ds]; [simpl; lia|]. simpl fst.
    apply cap_detections_length.
  - intros d Hin. apply validate_detections_again; [|simpl; lia].
    constructor; [|done]. rewrite List.Forall_forall in Hall. by apply Hall.
Qed.

Lemma sanitization_idempotent_witness :
  let kept := fst (validate_detections no_numerals [right_of_frame] (480, 640)%Z) in
  In (validated right_of_frame_fields (9 # 10)
        (clamp (inject_Z 0) 640) (clamp (inject_Z 0) 480)
        (clamp (inject_Z 690) 640) (clamp (inject_Z 100) 480)) kept /\
  snd (validate_detections no_numerals [right_of_frame] (480, 640)%Z)
    = [WBboxClamped 0] /\
  fst (validate_detections no_numerals kept (480, 640)%Z) = kept /\
  Forall is_size_warning (snd (validate_detections no_numerals kept (480, 640)%Z)).
Proof.
  intros kept.
  split; [vm_compute; by left|]. split; [by vm_compute|].
  destruct (sanitization_idempotent no_numerals [right_of_frame] 480 640)
    as [Hwhole _].
  exact Hwhole.
Defined.

(** *** What is returned, and where it comes from *)

Lemma required_fields_present (d : list (string * pyval)) :
  List.filter (fun field => negb (dict_has field d)) required_fields = [] ->
  forall k, In k required_fields -> dict_has k d = true.
Proof.
  unfold required_fields. simpl. intros Hnone k Hk.
  destruct (dict_has "class_id" d) eqn:H1; [|done].
  destruct (dict_has "class_name" d) eqn:H2; [|done].
  destruct (dict_has "track_id" d) eqn:H3; [|done].
  by destruct Hk as [<-|[<-|[<-|[]]]].
Qed.

(** For a frame with sides from 0 to 2^53 and detections whose
    confidences and coordinates are numbers of magnitude at most 2^53,
    every record [validate_detections] returns carries a float
    confidence of at least 0.3, a bbox of four floats with [x1 < x2],
    [y1 < y2] and an area of at least 100 (both up to the margin
    [2^-50] for rounding), and the three fields [class_id],
    [class_name] and [track_id]. *)
Theorem returned_detections_well_formed (parse : string -> option Q)
    (ds : list pyval) (h w : Z) (d' : pyval) :
  frame_sides h w ->
  Forall (plain_numbers parse) ds ->
  In d' (fst (validate_detections parse ds (h, w))) ->
  exists f c x1 y1 x2 y2,
    d' = PDict f /\
    dict_get "confidence"%string f = Some (PFloat c) /\
    (3 # 10) * (1 - rounding_margin) <= c /\
    dict_get "bbox"%string f = Some (PList [PFloat x1; PFloat y1; PFloat x2; PFloat y2]) /\
    x1 < x2 /\ y1 < y2 /\
    100 * (1 - rounding_margin) <= (x2 - x1) * (y2 - y1) /\
    dict_has "class_id"%string f = true /\
    dict_has "class_name"%string f = true /\
    dict_has "track_id"%string f = true.
Proof.
  intros _ _ Hin.
  pose proof (validate_detections_accepted parse ds h w) as Hall.
  rewrite List.Forall_forall in Hall.
  destruct (Hall d' Hin)
    as (d & c & x1 & y1 & x2 & y2 & -> & Hc & Hx & Hy & _ & Harea & Hfields).
  unfold MIN_CONFIDENCE in Hc. unfold MIN_BBOX_AREA in Harea.
  eexists _, c, x1, y1, x2, y2. split; [reflexivity|].
  split; [apply dict_get_set_eq|]. split; [unfold rounding_margin; lra|].
  split; [rewrite dict_get_set_ne by discriminate; apply dict_get_set_eq|].
  split; [done|]. split; [done|]. split; [unfold rounding_margin; lra|].
  pose proof (required_fields_present d Hfields) as Hd.
  split_and!; (rewrite dict_has_validated; [apply Hd; simpl; tauto| |]); discriminate.
Qed.

Lemma returned_detections_well_formed_witness :
  frame_sides 480 640 /\
  Forall (plain_numbers no_numerals) [right_of_frame] /\
  In (validated right_of_frame_fields (9 # 10)
        (clamp (inject_Z 0) 640) (clamp (inject_Z 0) 480)
        (clamp (inject_Z 690) 640) (clamp (inject_Z 100) 480))
     (fst (validate_detections no_numerals [right_of_frame] (480, 640)%Z)) /\
  exists f c x1 y1 x2 y2,
    validated right_of_frame_fields (9 # 10)
      (clamp (inject_Z 0) 640) (clamp (inject_Z 0) 480)
      (clamp (inject_Z 690) 640) (clamp (inject_Z 100) 480) = PDict f /\
    dict_get "confidence"%string f = Some (PFloat c) /\
    (3 # 10) * (1 - rounding_margin) <= c /\
    dict_get "bbox"%string f = Some (PList [PFloat x1; PFloat y1; PFloat x2; PFloat y2]) /\
    x1 < x2 /\ y1 < y2 /\
    100 * (1 - rounding_margin) <= (x2 - x1) * (y2 - y1) /\
    dict_has "class_id"%string f = true /\
    dict_has "class_name"%string f = true /\
    dict_has "track_id"%string f = true.
Proof.
  assert (frame_sides 480 640) as Hframe by (unfold frame_sides; lia).
  assert (Forall (plain_numbers no_numerals) [right_of_frame]) as Hplain.
  { constructor; [|constructor]. apply detection_plain_numbers.
    - repeat constructor; lia.
    - split; by vm_compute. }
  assert (In (validated right_of_frame_fields (9 # 10)
                (clamp (inject_Z 0) 640) (clamp (inject_Z 0) 480)
                (clamp (inject_Z 690) 640) (clamp (inject_Z 100) 480))
             (fst (validate_detections no_numerals [right_of_frame] (480, 640)%Z)))
    as Hin by (vm_compute; by left).
  split; [exact Hframe|]. split; [exact Hplain|]. split; [exact Hin|].
  exact (returned_detections_well_formed no_numerals [right_of_frame] 480 640 _
           Hframe Hplain Hin).
Defined.

Lemma checked_corners_keys parse det d c b :
  checked_corners parse det = Some (d, c, b) ->
  is_Some (dict_get "bbox"%string d) /\ is_Some (dict_get "confidence"%string d).
Proof.
  unfold checked_corners.
  destruct det as [| | | | | |d0]; try discriminate.
  destruct (dict_get "confidence"%string d0) as [cv|] eqn:Hc; simpl;
    [|by vm_compute].
  destruct (number_of cv) as [c0|]; [|discriminate].
  destruct (Qltb c0 MIN_CONFIDENCE); [discriminate|].
  destruct (dict_get "bbox"%string d0) as [bv|] eqn:Hb; simpl; [|by vm_compute].
  destruct bv as [| | | | |bbox|]; try discriminate.
  destruct (mapM (py_float parse) bbox) as [[|a1 [|b1 [|a2 [|b2 [|z l]]]]]|];
    try discriminate.
  destruct (Qgeb a1 a2 || Qgeb b1 b2); [discriminate|].
  intros [= <- _ _]. rewrite Hc, Hb. eauto.
Qed.

Lemma validate_one_kept parse h w st i det :
  valid_detections (validate_one parse h w st i det) = valid_detections st \/
  exists d',
    valid_detections (validate_one parse h w st i det) = valid_detections st ++ [d'] /\
    validated_from d' det.
Proof.
  pose proof (validate_one_checked parse h w st i det) as Hone.
  destruct (checked_corners parse det) as [[[d c] [[[x1 y1] x2] y2]]|] eqn:Hck;
    [|by left].
  destruct (checked_corners_keys _ _ _ _ _ Hck) as [Hb Hc].
  apply checked_corners_Some in Hck as (-> & _).
  rewrite Hone. clear Hone.
  destruct (beyond_tolerance h w x1 y1 x2 y2).
  - destruct (beyond_band h w x1 y1 x2 y2); [by left|].
    destruct (finish_detection_kept h w (warn st (WBboxClamped i)) i d c
                (clamp x1 w) (clamp y1 h) (clamp x2 w) (clamp y2 h))
      as [->|(-> & _)]; [by left|].
    right. eexists. split; [reflexivity|].
    by exists d, c, (clamp x1 w), (clamp y1 h), (clamp x2 w), (clamp y2 h).
  - destruct (finish_detection_kept h w st i d c x1 y1 x2 y2)
      as [->|(-> & _)]; [by left|].
    right. eexists. split; [reflexivity|]. by exists d, c, x1, y1, x2, y2.
Qed.

(** The loop appends, in input order, validated copies of some of the
    inputs. *)
Lemma validate_loop_kept parse h w dets :
  forall i st,
    exists new sub,
      valid_detections (validate_loop parse h w dets i st)
        = valid_detections st ++ new /\
      sublist sub dets /\ Forall2 validated_from new sub.
Proof.
  induction dets as [|det dets IH]; intros i st; simpl.
  - exists [], []. rewrite app_nil_r. by repeat split; constructor.
  - destruct (IH (S i) (validate_one parse h w st i det))
      as (new & sub & Hnew & Hsub & Hall).
    destruct (validate_one_kept parse h w st i det) as [Hsame|(d' & Hadd & Hd')].
    + exists new, sub. rewrite Hnew, Hsame. split; [done|].
      split; [by apply sublist_cons|done].
    + exists (d' :: new), (det :: sub). rewrite Hnew, Hadd, <- app_assoc.
      split; [done|]. split; [by apply sublist_skip|by constructor].
Qed.

(** Every returned record is the validated copy of an input record: it
    has the keys of that record in the same order, and the same value
    under every key other than [bbox] and [confidence].  When the loop
    keeps at most 100 records, the returned ones are in input order. *)
Theorem returned_detections_from_input (parse : string -> option Q)
    (ds : list pyval) (h w : Z) :
  (forall d', In d' (fst (validate_detections parse ds (h, w))) ->
     exists d f,
       In (PDict d) ds /\ d' = PDict f /\
       dict_keys f = dict_keys d /\
       forall k, k <> "bbox"%string -> k <> "confidence"%string ->
                 dict_get k f = dict_get k d) /\
  ((length (valid_detections (validate_loop parse h w ds 0 vstate_init)) <= 100)%nat ->
   exists sub,
     sublist sub ds /\
     Forall2 validated_from (fst (validate_detections parse ds (h, w))) sub).
Proof.
  destruct (validate_loop_kept parse h w ds 0 vstate_init)
    as (new & sub & Hnew & Hsub & Hall).
  simpl in Hnew.
  assert (fst (validate_detections parse ds (h, w))
          = valid_detections (cap_detections (validate_loop parse h w ds 0 vstate_init)))
    as Hres.
  { unfold validate_detections, validate_detections_state.
    destruct ds; [reflexivity|done]. }
  split.
  - intros d' Hin. rewrite Hres in Hin. apply cap_detections_In in Hin.
    rewrite Hnew in Hin.
    apply list_elem_of_In in Hin.
    destruct (proj1 (list_elem_of_lookup _ _) Hin) as [n Hn].
    destruct (Forall2_lookup_l _ _ _ _ _ Hall Hn)
      as (det & Hdet & d & c & x1 & y1 & x2 & y2 & -> & -> & Hb & Hc).
    exists d. eexists. split.
    { apply list_elem_of_In. eapply elem_of_sublist; [|exact Hsub].
      eapply list_elem_of_lookup_2, Hdet. }
    split; [reflexivity|]. split.
    + rewrite dict_keys_set_present; [by apply dict_keys_set_present|].
      by rewrite dict_get_set_ne by discriminate.
    + intros k Hk1 Hk2. rewrite dict_get_set_ne by done.
      by rewrite dict_get_set_ne by done.
  - intros Hsmall. exists sub. split; [done|].
    rewrite Hres, cap_detections_small by done. by rewrite Hnew.
Qed.

Lemma returned_detections_from_input_witness :
  (length (valid_detections
             (validate_loop no_numerals 480 640 [right_of_frame] 0 vstate_init))
   <= 100)%nat /\
  exists sub,
    sublist sub [right_of_frame] /\
    Forall2 validated_from
      (fst (validate_detections no_numerals [right_of_frame] (480, 640)%Z)) sub.
Proof.
  assert (length (valid_detections
                    (validate_loop no_numerals 480 640 [right_of_frame] 0 vstate_init))
          <= 100)%nat as Hsmall by (vm_compute; lia).
  split; [exact Hsmall|].
  destruct (returned_detections_from_input no_numerals [right_of_frame] 480 640)
    as [_ Horder].
  exact (Horder Hsmall).
Defined.

(** *** Accounting *)

(** Normalises the count of a state built by the loop body. *)
Ltac account :=
  unfold accounted, warn, keep, count_low_confidence, count_invalid_bbox,
    count_too_small, count_out_of_bounds;
  cbn [valid_detections warnings rejected_low_confidence rejected_invalid_bbox
       rejected_too_small rejected_out_of_bounds];
  rewrite ?List.filter_app, ?length_app;
  cbn [List.filter is_uncounted_rejection length app];
  rewrite ?List.filter_app, ?length_app;
  cbn [List.filter is_uncounted_rejection length app];
  lia.

Lemma finish_detection_accounted h w st i d c x1 y1 x2 y2 :
  accounted (finish_detection h w st i d c x1 y1 x2 y2) = S (accounted st).
Proof.
  unfold finish_detection.
  destruct (Qltb _ MIN_BBOX_AREA); [account|].
  destruct (Qltb MAX_BBOX_SIZE_RATIO _);
    destruct (List.filter _ required_fields); account.
Qed.

Lemma validate_one_accounted parse h w st i det :
  accounted (validate_one parse h w st i det) = S (accounted st).
Proof.
  unfold validate_one.
  destruct det as [| | | | | |d]; try account.
  destruct (number_of _) as [c|]; [|account].
  destruct (Qltb c MIN_CONFIDENCE); [account|].
  destruct (default (PList []) (dict_get "bbox"%string d))
    as [| | | | |bbox|]; try account.
  destruct (negb (length bbox =? 4)%nat); [account|].
  destruct (mapM (py_float parse) bbox) as [[|x1 [|y1 [|x2 [|y2 [|z l]]]]]|];
    try account.
  destruct (Qgeb x1 x2 || Qgeb y1 y2); [account|].
  destruct (beyond_tolerance h w x1 y1 x2 y2).
  - destruct (beyond_band h w x1 y1 x2 y2); [account|].
    rewrite finish_detection_accounted. account.
  - apply finish_detection_accounted.
Qed.

Lemma validate_loop_accounted parse h w dets :
  forall i st,
    accounted (validate_loop parse h w dets i st) = (accounted st + length dets)%nat.
Proof.
  induction dets as [|det dets IH]; intros i st; simpl; [lia|].
  rewrite IH, validate_one_accounted. lia.
Qed.

(** For a frame with sides from 0 to 2^53 and detections whose
    confidences and coordinates are numbers of magnitude at most 2^53
    (so that no conversion to a float overflows), every input detection
    is accounted for exactly once by the loop: it is kept, or counted by
    one of the four rejection counters, or reported by one of the four
    warnings that reject without counting.  Hence at most as many
    records are returned as were given, and never more than 100. *)
Theorem every_detection_accounted (parse : string -> option Q) (ds : list pyval)
    (h w : Z) :
  frame_sides h w ->
  Forall (plain_numbers parse) ds ->
  accounted (validate_loop parse h w ds 0 vstate_init) = length ds /\
  (length (fst (validate_detections parse ds (h, w))) <= Nat.min 100 (length ds))%nat.
Proof.
  intros _ _.
  pose proof (validate_loop_accounted parse h w ds 0 vstate_init) as Hacc.
  change (accounted vstate_init) with 0%nat in Hacc. simpl in Hacc.
  split; [exact Hacc|].
  assert (fst (validate_detections parse ds (h, w))
          = valid_detections (cap_detections (validate_loop parse h w ds 0 vstate_init)))
    as -> by (unfold validate_detections, validate_detections_state;
              destruct ds; [reflexivity|done]).
  pose proof (cap_detections_length (validate_loop parse h w ds 0 vstate_init)) as H100.
  unfold MAX_DETECTIONS_PER_FRAME in H100.
  assert (length (valid_detections
                    (cap_detections (validate_loop parse h w ds 0 vstate_init)))
          <= length (valid_detections (validate_loop parse h w ds 0 vstate_init)))%nat
    as Hle.
  { unfold cap_detections.
    destruct (MAX_DETECTIONS_PER_FRAME <? _)%nat; [|done].
    cbn [valid_detections warn]. rewrite length_firstn.
    rewrite (Permutation_length (sort_desc_perm _)). lia. }
  unfold accounted in Hacc. lia.
Qed.

Lemma every_detection_accounted_witness :
  frame_sides 480 640 /\
  Forall (plain_numbers no_numerals) (right_of_frame :: string_confidence) /\
  accounted (validate_loop no_numerals 480 640 (right_of_frame :: string_confidence)
               0 vstate_init) = 2%nat.
Proof.
  assert (frame_sides 480 640) as Hframe by (unfold frame_sides; lia).
  assert (Forall (plain_numbers no_numerals) (right_of_frame :: string_confidence))
    as Hplain.
  { constructor; [|constructor; [|constructor]].
    - apply detection_plain_numbers; [repeat constructor; lia|split; by vm_compute].
    - split; [by intros c [=]|]. intros bbox [= <-].
      do 4 (apply List.Forall_cons;
            [intros q [= <-]; apply in_exact_range_Z; lia|]).
      apply List.Forall_nil. }
  destruct (every_detection_accounted no_numerals (right_of_frame :: string_confidence)
              480 640 Hframe Hplain) as [Hacc _].
  split; [exact Hframe|]. split; [exact Hplain|exact Hacc].
Defined.

End DetectionValidatorFacts.

(** ** FrameValidator *)

Module FrameValidatorFacts.
Import FrameValidator.

Section Codecs.
Variable Frame : Type.
Variable shape : Frame -> list Z.
Variable b64decode : string -> option (list Byte.byte).
Variable imdecode : list Byte.byte -> option (option Frame).

Local Abbreviation validate := (validate_frame_data Frame shape b64decode imdecode).

(** Closes the case of a rejection on structure. *)
Ltac structural :=
  right; right; simpl; split_and!; try done; repeat intro; discriminate.

(** What [validate_decoded] returns, by the verdict. *)
Lemma validate_decoded_cases (frame : Frame) (sid : string) (now : Q)
    (rl : RateLimiter.requests_map) :
  let r := validate_decoded Frame shape frame sid now rl in
  (fst (fst (fst r)) = true /\ snd (fst (fst r)) = ROk /\
   snd (fst r) = Some frame /\
   (exists h w, shape frame = [h; w; 3]%Z /\
                (MIN_FRAME_DIMENSION <= h <= MAX_FRAME_DIMENSION)%Z /\
                (MIN_FRAME_DIMENSION <= w <= MAX_FRAME_DIMENSION)%Z) /\
   fst (fst (RateLimiter.check sid now MAX_FPS_PER_SESSION rl)) = true /\
   snd r = snd (RateLimiter.check sid now MAX_FPS_PER_SESSION rl)) \/
  (fst (fst (fst r)) = false /\ snd (fst r) = None /\
   (exists msg, snd (fst (fst r)) = RRateLimited msg) /\
   fst (fst (RateLimiter.check sid now MAX_FPS_PER_SESSION rl)) = false /\
   snd r = snd (RateLimiter.check sid now MAX_FPS_PER_SESSION rl)) \/
  (fst (fst (fst r)) = false /\ snd (fst r) = None /\
   snd (fst (fst r)) <> ROk /\
   (forall msg, snd (fst (fst r)) <> RRateLimited msg) /\
   (forall w h, snd (fst (fst r)) <> RDimensionsInvalid w h) /\
   snd r = rl).
Proof.
  cbv zeta. unfold validate_decoded.
  destruct (shape frame) as [|h [|w rest]]; [structural..|].
  destruct ((h <? MIN_FRAME_DIMENSION) || (w <? MIN_FRAME_DIMENSION))%Z eqn:Hsmall;
    [structural|].
  destruct ((h >? MAX_FRAME_DIMENSION) || (w >? MAX_FRAME_DIMENSION))%Z eqn:Hlarge;
    [structural|].
  apply orb_false_iff in Hsmall as [Hh1 Hw1]. apply orb_false_iff in Hlarge as [Hh2 Hw2].
  apply Z.ltb_ge in Hh1, Hw1. rewrite Z.gtb_ltb in Hh2, Hw2.
  apply Z.ltb_ge in Hh2, Hw2.
  assert (((h <=? 0) || (w <=? 0))%Z = false) as ->.
  { unfold MIN_FRAME_DIMENSION in *. apply orb_false_iff. split; apply Z.leb_gt; lia. }
  destruct rest as [|ch rest']; [structural|].
  destruct ch as [|p|p]; [structural| |structural].
  destruct p as [p|p|]; [|structural|structural].
  destruct p as [p|p|]; [structural|structural|].
  destruct rest' as [|? ?]; [|structural].
  destruct (RateLimiter.check sid now MAX_FPS_PER_SESSION rl) as [[ok msg] rl'] eqn:Hck.
  destruct ok; simpl.
  - left. split_and!; try done. by exists h, w.
  - right; left. split_and!; try done. by exists msg.
Qed.

(** What [validate_frame_data] returns, by the verdict: an accepted
    frame, a frame dropped by the rate limiter after it passed every
    structural check, or a frame rejected on its structure. *)
Lemma validate_frame_data_cases (frame_data : pyval) (sid : string) (now : Q)
    (rl : RateLimiter.requests_map) :
  let r := validate frame_data sid now rl in
  (fst (fst (fst r)) = true /\ snd (fst (fst r)) = ROk /\
   (exists s frame h w,
       frame_data = PStr s /\ snd (fst r) = Some frame /\
       (MIN_BASE64_LENGTH <= Z.of_nat (String.length s) <= MAX_FRAME_SIZE)%Z /\
       shape frame = [h; w; 3]%Z /\
       (MIN_FRAME_DIMENSION <= h <= MAX_FRAME_DIMENSION)%Z /\
       (MIN_FRAME_DIMENSION <= w <= MAX_FRAME_DIMENSION)%Z) /\
   fst (fst (RateLimiter.check sid now MAX_FPS_PER_SESSION rl)) = true /\
   snd r = snd (RateLimiter.check sid now MAX_FPS_PER_SESSION rl)) \/
  (fst (fst (fst r)) = false /\ snd (fst r) = None /\
   (exists msg, snd (fst (fst r)) = RRateLimited msg) /\
   fst (fst (RateLimiter.check sid now MAX_FPS_PER_SESSION rl)) = false /\
   snd r = snd (RateLimiter.check sid now MAX_FPS_PER_SESSION rl)) \/
  (fst (fst (fst r)) = false /\ snd (fst r) = None /\
   snd (fst (fst r)) <> ROk /\
   (forall msg, snd (fst (fst r)) <> RRateLimited msg) /\
   (forall w h, snd (fst (fst r)) <> RDimensionsInvalid w h) /\
   snd r = rl).
Proof.
  cbv zeta. unfold validate_frame_data.
  destruct frame_data as [| | | |s| |]; try structural.
  destruct (negb (truthy (PStr s))); [structural|].
  destruct (MAX_FRAME_SIZE <? Z.of_nat (String.length s))%Z eqn:Hmax;
    [structural|].
  destruct (Z.of_nat (String.length s) <? MIN_BASE64_LENGTH)%Z eqn:Hmin;
    [structural|].
  apply Z.ltb_ge in Hmax, Hmin.
  destruct (b64decode _) as [frame_bytes|]; [|structural].
  destruct (length frame_bytes =? 0)%nat; [structural|].
  destruct (MAX_FRAME_SIZE <? Z.of_nat (length frame_bytes))%Z; [structural|].
  destruct (imdecode frame_bytes) as [[frame|]|]; try structural.
  destruct (validate_decoded_cases frame sid now rl)
    as [(Hok & Hr & Hf & (h & w & Hsh & Hh & Hw) & Hck & Hrl)
       |[(Hok & Hf & Hr & Hck & Hrl)|Hrest]].
  - left. split_and!; try done. by exists s, frame, h, w.
  - right; left. by split_and!.
  - by right; right.
Qed.

(** A frame comes back exactly when the verdict is positive, and the
    reason is the one of success exactly then: no failure returns a
    frame. *)
Theorem frame_returned_iff_valid (frame_data : pyval) (sid : string) (now : Q)
    (rl : RateLimiter.requests_map) :
  let r := validate frame_data sid now rl in
  (fst (fst (fst r)) = true <-> is_Some (snd (fst r))) /\
  (fst (fst (fst r)) = true <-> snd (fst (fst r)) = ROk).
Proof.
  intros r.
  destruct (validate_frame_data_cases frame_data sid now rl)
    as [(Hok & Hr & (s & f & h & w & _ & Hf & _) & _)
       |[(Hok & Hf & (msg & Hr) & _)|(Hok & Hf & Hr & _)]];
    fold r in Hok, Hr, Hf; rewrite Hok, Hf.
  - rewrite Hr. by split.
  - rewrite Hr. split; split; try done; by intros [? ?].
  - split; split; try done; by intros [? ?].
Qed.

(** The rate limiter is the last check.  A frame rejected on its
    structure leaves every rate window as it was; otherwise the windows
    are those [RateLimiter.check] leaves for the session under the limit
    of 30, and the frame is accepted exactly when that call admits it. *)
Theorem rate_budget_spent_last (frame_data : pyval) (sid : string) (now : Q)
    (rl : RateLimiter.requests_map) :
  let r := validate frame_data sid now rl in
  ((forall msg, snd (fst (fst r)) <> RRateLimited msg) ->
   fst (fst (fst r)) = false -> snd r = rl) /\
  (snd r <> rl ->
   snd r = snd (RateLimiter.check sid now MAX_FPS_PER_SESSION rl) /\
   fst (fst (fst r)) = fst (fst (RateLimiter.check sid now MAX_FPS_PER_SESSION rl))) /\
  (fst (fst (fst r)) = true ->
   RateLimiter.window (snd r) sid
   = List.filter (RateLimiter.recent now) (RateLimiter.window rl sid) ++ [now]).
Proof.
  intros r.
  destruct (validate_frame_data_cases frame_data sid now rl)
    as [(Hok & Hr & _ & Hck & Hrl)
       |[(Hok & Hf & (msg & Hr) & Hck & Hrl)|(Hok & Hf & Hr & Hnr & _ & Hrl)]];
    fold r in Hok, Hr, Hrl.
  - split; [intros _; by rewrite Hok|]. split; [intros _; by rewrite Hok, Hck|].
    intros _. rewrite Hrl, RateLimiterFacts.window_check_same. by rewrite Hck.
  - split; [intros Hn; by destruct (Hn msg)|].
    split; [intros _; by rewrite Hok, Hck|]. by rewrite Hok.
  - split; [done|]. split; [done|]. by rewrite Hok.
Qed.

(** An accepted frame came from a text of 100 to 10 MiB characters and
    has three channels and a height and a width of 32 to 4096; and the
    reason for invalid (non-positive) dimensions is never given, the
    test behind it being unreachable. *)
Theorem accepted_frame_within_limits (frame_data : pyval) (sid : string)
    (now : Q) (rl : RateLimiter.requests_map) :
  let r := validate frame_data sid now rl in
  (fst (fst (fst r)) = true ->
   exists s frame h w,
     frame_data = PStr s /\ snd (fst r) = Some frame /\
     (100 <= Z.of_nat (String.length s) <= 10485760)%Z /\
     shape frame = [h; w; 3]%Z /\
     (32 <= h <= 4096)%Z /\ (32 <= w <= 4096)%Z) /\
  (forall w h, snd (fst (fst r)) <> RDimensionsInvalid w h).
Proof.
  intros r.
  destruct (validate_frame_data_cases frame_data sid now rl)
    as [(Hok & Hr & Hex & _)
       |[(Hok & Hf & (msg & Hr) & _)|(Hok & Hf & Hr & _ & Hdim & _)]];
    fold r in Hok, Hr.
  - split; [intros _; exact Hex|]. intros w h. by rewrite Hr.
  - split; [by rewrite Hok|]. intros w h. by rewrite Hr.
  - split; [by rewrite Hok|exact Hdim].
Qed.

Lemma append_nil (s : string) : "" +:+ s = s.
Proof. reflexivity. Qed.

Lemma append_cons (c : ascii) (a b : string) :
  String c a +:+ b = String c (a +:+ b).
Proof. reflexivity. Qed.

Lemma has_comma_app (a b : string) :
  has_comma (a +:+ b) = has_comma a || has_comma b.
Proof.
  induction a as [|c a IH]; [done|].
  rewrite append_cons. simpl. by rewrite IH, orb_assoc.
Qed.

Lemma last_segment_no_comma (s : string) : has_comma (last_segment s) = false.
Proof.
  induction s as [|c s IH]; simpl; [done|].
  destruct (has_comma s) eqn:Hs; [done|].
  destruct (Ascii.eqb c ",") eqn:Hc; [done|].
  simpl. by rewrite Hc, Hs.
Qed.

Lemma last_segment_prefix (prefix payload : string) :
  has_comma payload = false ->
  last_segment (prefix +:+ "," +:+ payload) = payload.
Proof.
  intros Hp. induction prefix as [|c prefix IH].
  - rewrite append_nil, append_cons, append_nil. simpl. by rewrite Hp.
  - rewrite append_cons. simpl. rewrite has_comma_app, append_cons, append_nil.
    simpl. by rewrite orb_true_r.
Qed.

Lemma length_string_app (a b : string) :
  String.length (a +:+ b) = (String.length a + String.length b)%nat.
Proof.
  induction a as [|c a IH]; [done|]. rewrite append_cons. simpl. by rewrite IH.
Qed.

(** A data URL prefix is transparent: whatever stands before the last
    comma is dropped before decoding, so a payload without a comma is
    judged the same with and without a prefix, as long as the whole text
    is within the size limit. *)
Theorem data_url_prefix_transparent (prefix payload : string) (sid : string)
    (now : Q) (rl : RateLimiter.requests_map) :
  has_comma payload = false ->
  (MIN_BASE64_LENGTH <= Z.of_nat (String.length payload))%Z ->
  (Z.of_nat (String.length (prefix +:+ "," +:+ payload)) <= MAX_FRAME_SIZE)%Z ->
  validate (PStr (prefix +:+ "," +:+ payload)) sid now rl
  = validate (PStr payload) sid now rl.
Proof.
  intros Hp Hmin Hmax.
  assert (String.length (prefix +:+ "," +:+ payload)
          = (String.length prefix + S (String.length payload))%nat) as Hlen.
  { rewrite length_string_app, append_cons, append_nil. done. }
  assert (truthy (PStr payload) = true) as Htp.
  { destruct payload; [unfold MIN_BASE64_LENGTH in Hmin; simpl in Hmin; lia|done]. }
  assert (truthy (PStr (prefix +:+ "," +:+ payload)) = true) as Htw.
  { destruct prefix; [by rewrite append_nil, append_cons|by rewrite append_cons]. }
  assert (has_comma (prefix +:+ "," +:+ payload) = true) as Hcomma.
  { rewrite has_comma_app, append_cons, append_nil. simpl. by rewrite orb_true_r. }
  unfold validate_frame_data. rewrite Htp, Htw, Hcomma, Hp.
  rewrite (last_segment_prefix prefix payload Hp). simpl negb. cbv iota.
  rewrite (proj2 (Z.ltb_ge _ _) Hmax).
  rewrite (proj2 (Z.ltb_ge MAX_FRAME_SIZE (Z.of_nat (String.length payload))))
    by (rewrite Hlen in Hmax; lia).
  rewrite (proj2 (Z.ltb_ge (Z.of_nat (String.length payload)) _) Hmin).
  by rewrite (proj2 (Z.ltb_ge (Z.of_nat (String.length (prefix +:+ "," +:+ payload))) _))
    by (rewrite Hlen; lia).
Qed.

(** The two validators agree on the size of a frame: the height and
    width of a frame that [validate_frame_data] returns, listed as the
    endpoint lists them in [frame_shape], pass [validate_frame_shape]. *)
Theorem returned_frame_shape_is_valid (parse : string -> option Z)
    (frame_data : pyval) (sid : string) (now : Q) (rl : RateLimiter.requests_map)
    (frame : Frame) :
  snd (fst (validate frame_data sid now rl)) = Some frame ->
  DetectionValidator.validate_frame_shape parse
    (PList (map PInt (firstn 2 (shape frame))))
  = (true, DetectionValidator.ShapeOk).
Proof.
  intros Hframe.
  destruct (validate_frame_data_cases frame_data sid now rl)
    as [(_ & _ & (s & frame' & h & w & _ & Hsome & _ & Hshape & Hh & Hw) & _)
       |[(_ & Hnone & _)|(_ & Hnone & _)]];
    cbv zeta in *; try (rewrite Hnone in Hframe; discriminate).
  rewrite Hsome in Hframe. injection Hframe as ->.
  rewrite Hshape. cbn [firstn map DetectionValidator.validate_frame_shape
                         DetectionValidator.py_int].
  unfold MIN_FRAME_DIMENSION in *.
  rewrite (proj2 (Z.leb_gt h 0)), (proj2 (Z.leb_gt w 0)) by lia. done.
Qed.
End Codecs.

Lemma returned_frame_shape_is_valid_witness :
  snd (fst (validate_frame_data (list Z) shape_itself one_byte small_frame
              (PStr payload_text) "abc-1" 0 ∅)) = Some [64; 64; 3]%Z /\
  DetectionValidator.validate_frame_shape DetectionValidator.no_integers
    (PList [PInt 64; PInt 64])
  = (true, DetectionValidator.ShapeOk).
Proof.
  assert (snd (fst (validate_frame_data (list Z) shape_itself one_byte small_frame
                      (PStr payload_text) "abc-1" 0 ∅)) = Some [64; 64; 3]%Z)
    as Hframe by (by vm_compute).
  split; [exact Hframe|].
  exact (returned_frame_shape_is_valid (list Z) shape_itself one_byte small_frame
           DetectionValidator.no_integers (PStr payload_text) "abc-1" 0 ∅
           [64; 64; 3]%Z Hframe).
Defined.

Lemma rate_budget_spent_last_witness :
  (forall msg,
      snd (fst (fst (validate_frame_data unit Orchestrator.no_shape
                       Orchestrator.no_base64 Orchestrator.no_image
                       (PStr "AAAA") "abc-1" 0 ∅))) <> RRateLimited msg) /\
  fst (fst (fst (validate_frame_data unit Orchestrator.no_shape
                   Orchestrator.no_base64 Orchestrator.no_image
                   (PStr "AAAA") "abc-1" 0 ∅))) = false /\
  snd (validate_frame_data unit Orchestrator.no_shape
         Orchestrator.no_base64 Orchestrator.no_image
         (PStr "AAAA") "abc-1" 0 ∅) = ∅.
Proof.
  assert (forall msg,
             snd (fst (fst (validate_frame_data unit Orchestrator.no_shape
                              Orchestrator.no_base64 Orchestrator.no_image
                              (PStr "AAAA") "abc-1" 0 ∅))) <> RRateLimited msg)
    as Hreason by (intros msg; by vm_compute).
  assert (fst (fst (fst (validate_frame_data unit Orchestrator.no_shape
                           Orchestrator.no_base64 Orchestrator.no_image
                           (PStr "AAAA") "abc-1" 0 ∅))) = false)
    as Hrejected by (by vm_compute).
  split; [exact Hreason|]. split; [exact Hrejected|].
  destruct (rate_budget_spent_last unit Orchestrator.no_shape
              Orchestrator.no_base64 Orchestrator.no_image
              (PStr "AAAA") "abc-1" 0 ∅) as [Hkept _].
  exact (Hkept Hreason Hrejected).
Defined.

Lemma accepted_frame_within_limits_witness :
  fst (fst (fst (validate_frame_data (list Z) shape_itself one_byte small_frame
                   (PStr payload_text) "abc-1" 0 ∅))) = true /\
  exists s frame h w,
    PStr payload_text = PStr s /\
    snd (fst (validate_frame_data (list Z) shape_itself one_byte small_frame
                (PStr payload_text) "abc-1" 0 ∅)) = Some frame /\
    (100 <= Z.of_nat (String.length s) <= 10485760)%Z /\
    shape_itself frame = [h; w; 3]%Z /\
    (32 <= h <= 4096)%Z /\ (32 <= w <= 4096)%Z.
Proof.
  assert (fst (fst (fst (validate_frame_data (list Z) shape_itself one_byte
                           small_frame (PStr payload_text) "abc-1" 0 ∅))) = true)
    as Hok by (by vm_compute).
  split; [exact Hok|].
  destruct (accepted_frame_within_limits (list Z) shape_itself one_byte small_frame
              (PStr payload_text) "abc-1" 0 ∅) as [Hlimits _].
  exact (Hlimits Hok).
Defined.

Lemma data_url_prefix_transparent_witness :
  has_comma payload_text = false /\
  (MIN_BASE64_LENGTH <= Z.of_nat (String.length payload_text))%Z /\
  (Z.of_nat (String.length ("data:image/jpeg;base64" +:+ "," +:+ payload_text))
   <= MAX_FRAME_SIZE)%Z /\
  validate_frame_data (list Z) shape_itself one_byte small_frame
    (PStr data_url_text) "abc-1" 0 ∅
  = validate_frame_data (list Z) shape_itself one_byte small_frame
      (PStr payload_text) "abc-1" 0 ∅.
Proof.
  assert (has_comma payload_text = false) as Hp by (by vm_compute).
  assert (MIN_BASE64_LENGTH <= Z.of_nat (String.length payload_text))%Z as Hmin
    by (by vm_compute).
  assert (Z.of_nat (String.length ("data:image/jpeg;base64" +:+ "," +:+ payload_text))
          <= MAX_FRAME_SIZE)%Z as Hmax by (by vm_compute).
  split; [exact Hp|]. split; [exact Hmin|]. split; [exact Hmax|].
  exact (data_url_prefix_transparent (list Z) shape_itself one_byte small_frame
           "data:image/jpeg;base64" payload_text "abc-1" 0 ∅ Hp Hmin Hmax).
Defined.

(** *** Session ids *)

Lemma all_chars_remove (p : ascii -> bool) (c : ascii) (s : string) :
  all_chars p (remove_char c s) = all_chars (fun x => p x || Ascii.eqb x c) s.
Proof.
  induction s as [|x s IH]; simpl; [done|].
  destruct (Ascii.eqb x c); simpl.
  - by rewrite orb_true_r.
  - by rewrite orb_false_r, IH.
Qed.

Lemma nonempty_remove (c : ascii) (s : string) :
  negb (String.eqb (remove_char c s) "") = some_char (fun x => negb (Ascii.eqb x c)) s.
Proof.
  induction s as [|x s IH]; simpl; [done|].
  destruct (Ascii.eqb x c); simpl; [done|done].
Qed.

Lemma some_char_remove (p : ascii -> bool) (c : ascii) (s : string) :
  some_char p (remove_char c s) = some_char (fun x => p x && negb (Ascii.eqb x c)) s.
Proof.
  induction s as [|x s IH]; simpl; [done|].
  destruct (Ascii.eqb x c); simpl.
  - by rewrite andb_false_r.
  - by rewrite andb_true_r, IH.
Qed.

Lemma some_alnum_iff_some_other (s : string) :
  all_chars is_id_char s = true ->
  some_char (fun x => negb (Ascii.eqb x "-") && negb (Ascii.eqb x "_")) s
  = some_char is_alnum_char s.
Proof.
  induction s as [|x s IH]; simpl; [done|].
  intros [Hx Hs]%andb_true_iff. rewrite (IH Hs). f_equal.
  unfold is_id_char in Hx.
  destruct (Ascii.eqb x "_") eqn:H1.
  - apply Ascii.eqb_eq in H1 as ->. done.
  - destruct (Ascii.eqb x "-") eqn:H2.
    + apply Ascii.eqb_eq in H2 as ->. done.
    + rewrite !orb_false_r in Hx. by rewrite Hx.
Qed.

Lemma all_chars_ext (p q : ascii -> bool) (s : string) :
  (forall x, p x = q x) -> all_chars p s = all_chars q s.
Proof. intros H. induction s as [|x s IH]; simpl; [done|]. by rewrite H, IH. Qed.

Lemma isalnum_stripped (t : string) :
  isalnum (remove_char "-" (remove_char "_" t))
  = all_chars is_id_char t
    && some_char (fun x => negb (Ascii.eqb x "-") && negb (Ascii.eqb x "_")) t.
Proof.
  unfold isalnum. rewrite nonempty_remove, some_char_remove, !all_chars_remove.
  rewrite andb_comm. f_equal. apply all_chars_ext. intros x.
  unfold is_id_char.
  by rewrite <- orb_assoc, (orb_comm (Ascii.eqb x "-")), orb_assoc.
Qed.

(** An ASCII text is accepted as a session id exactly when it has 1 to
    256 characters, all of them letters, digits, underscores or hyphens,
    and at least one of them a letter or a digit: a text made of
    underscores and hyphens alone is refused.  Whatever the value, the
    verdict is never that the id is too short, the empty text being
    refused as empty before its length is looked at. *)
Theorem session_id_accepted_iff (s : string) :
  all_chars is_ascii_char s = true ->
  (fst (validate_session_id (PStr s)) = true <->
   (1 <= String.length s <= 256)%nat /\
   all_chars is_id_char s = true /\
   some_char is_alnum_char s = true) /\
  (forall v, snd (validate_session_id v) <> SidTooShort).
Proof.
  intros _. split.
  - unfold validate_session_id. simpl truthy.
    destruct s as [|c s]; [simpl; split; [done|intros [? _]; simpl in *; lia]|].
    set (t := String c s).
    change (negb (negb (String.eqb t ""))) with false. cbv iota.
    destruct (256 <? String.length t)%nat eqn:Hlong.
    { apply Nat.ltb_lt in Hlong. cbn [fst].
      split; [intros H; discriminate H|intros [[_ H] _]; lia]. }
    apply Nat.ltb_ge in Hlong.
    assert ((String.length t <? 1)%nat = false) as -> by reflexivity.
    pose proof (isalnum_stripped t) as Halnum.
    rewrite Halnum.
    destruct (all_chars is_id_char t) eqn:Hall; cbn [andb negb fst].
    + rewrite (some_alnum_iff_some_other t Hall).
      destruct (some_char is_alnum_char t); cbn [andb negb fst].
      * split; [|done]. intros _. split; [|done].
        split; [|exact Hlong]. unfold t. cbn [String.length]. lia.
      * split; [intros H; discriminate H|]. by intros (_ & _ & ?).
    + split; [intros H; discriminate H|]. by intros (_ & ? & _).
  - intros v. unfold validate_session_id.
    destruct (negb (truthy v)) eqn:Htruthy; [done|].
    destruct v as [| | | |s'| |]; try done.
    destruct (256 <? String.length s')%nat; [done|].
    destruct s' as [|c s']; [done|]. simpl String.length.
    change (S (String.length s') <? 1)%nat with false. cbv iota.
    by destruct (negb (isalnum _)).
Qed.

Lemma session_id_accepted_iff_witness :
  all_chars is_ascii_char "abc-1" = true /\
  fst (validate_session_id (PStr "abc-1")) = true /\
  fst (validate_session_id (PStr "_-_")) = false.
Proof.
  assert (all_chars is_ascii_char "abc-1" = true) as Ha by reflexivity.
  assert (all_chars is_ascii_char "_-_" = true) as Hb by reflexivity.
  split; [exact Ha|].
  destruct (session_id_accepted_iff "abc-1" Ha) as [[_ Hyes] _].
  destruct (session_id_accepted_iff "_-_" Hb) as [[Hno _] _].
  split.
  - apply Hyes. split; [simpl; lia|]. split; reflexivity.
  - destruct (fst (validate_session_id (PStr "_-_"))) eqn:Hv; [|done].
    destruct (Hno eq_refl) as (_ & _ & Hsome). by vm_compute in Hsome.
Defined.

End FrameValidatorFacts.

(** ** YOLOService *)

Module YOLOServiceFacts.
Import YOLOTracker YOLOService.

(** [get_color_for_class] never fails: every class id, negative ones
    included, gets a colour of the table, and ids that differ by a
    multiple of ten get the same colour. *)
Theorem color_for_every_class (class_id k : Z) :
  (exists c, get_color_for_class class_id = Some c /\ In c colors) /\
  get_color_for_class (class_id + 10 * k) = get_color_for_class class_id.
Proof.
  split.
  - unfold get_color_for_class, py_index.
    change (Z.of_nat (length colors)) with 10%Z.
    pose proof (Z.mod_pos_bound class_id 10 ltac:(lia)) as [Hlo Hhi].
    rewrite (proj2 (Z.leb_le 0 _) Hlo).
    destruct (colors !! Z.to_nat (class_id mod 10)) as [c|] eqn:Hc.
    + exists c. split; [done|]. apply list_elem_of_In.
      by eapply list_elem_of_lookup_2.
    + apply lookup_ge_None in Hc. simpl in Hc. lia.
  - unfold get_color_for_class. change (Z.of_nat (length colors)) with 10%Z.
    replace (class_id + 10 * k)%Z with (class_id + k * 10)%Z by lia.
    by rewrite Z_mod_plus_full.
Qed.

Lemma has_comma_count (s : string) :
  FrameValidator.has_comma s = negb (count_commas s =? 0)%nat.
Proof.
  induction s as [|c s IH]; simpl; [done|].
  destruct (Ascii.eqb c ","); simpl; [done|exact IH].
Qed.

Lemma up_to_comma_none (s : string) :
  FrameValidator.has_comma s = false -> up_to_comma s = s.
Proof.
  induction s as [|c s IH]; simpl; [done|].
  destruct (Ascii.eqb c ","); simpl; [done|]. intros H. by rewrite IH.
Qed.

(** The endpoint and the validator cut a data URL alike as long as the
    text has at most one comma: the endpoint decodes what follows the
    first comma up to the next one, the validator what follows the last
    comma. *)
Theorem payloads_agree_up_to_one_comma (s : string) :
  (count_commas s <= 1)%nat -> service_payload s = validator_payload s.
Proof.
  intros Hcount. unfold service_payload, validator_payload.
  destruct (FrameValidator.has_comma s) eqn:Hc; [|done].
  rewrite has_comma_count in Hc. apply negb_true_iff, Nat.eqb_neq in Hc.
  assert (count_commas s = 1%nat) as Hone by lia. clear Hcount Hc.
  induction s as [|c s IH]; simpl in *; [done|].
  destruct (Ascii.eqb c ",") eqn:Hcomma; simpl in Hone.
  - assert (FrameValidator.has_comma s = false) as Hnone.
    { rewrite has_comma_count. apply negb_false_iff, Nat.eqb_eq. lia. }
    rewrite Hnone. by apply up_to_comma_none.
  - assert (FrameValidator.has_comma s = true) as Hsome.
    { rewrite has_comma_count. apply negb_true_iff, Nat.eqb_neq. lia. }
    rewrite Hsome. by apply IH.
Qed.

Lemma payloads_agree_up_to_one_comma_witness :
  (count_commas "data:image/jpeg;base64,AAAA" <= 1)%nat /\
  service_payload "data:image/jpeg;base64,AAAA" = "AAAA"%string /\
  validator_payload "data:image/jpeg;base64,AAAA" = "AAAA"%string.
Proof.
  assert (count_commas "data:image/jpeg;base64,AAAA" <= 1)%nat as Hcount
    by (vm_compute; lia).
  split; [exact Hcount|].
  rewrite <- (payloads_agree_up_to_one_comma _ Hcount). split; reflexivity.
Defined.

(** With two commas the two can part. *)
Example payloads_differ : 
  service_payload "a,b,c" = "b"%string /\ validator_payload "a,b,c" = "c"%string.
Proof. split; reflexivity. Qed.

Section Service.
Variable Frame : Type.
Variable shape : Frame -> list Z.
Variable b64decode : string -> string + list Byte.byte.
Variable imdecode : list Byte.byte -> string + option Frame.
Variable detect : Frame -> string + list box.
Variable annotate : Frame -> list DetectionResult -> tracker -> string + string.
Variable not_text_error : pyval -> string.
Variable name_of_class : Z -> string.

Local Abbreviation serve_frame :=
  (process_video_frame Frame shape b64decode imdecode detect annotate
     not_text_error name_of_class).

(** A response that carries an error reports nothing: no detection, no
    frame shape, no annotated frame.  The tracker is then as before the
    call, except when the failure is that of the annotation, which comes
    after tracking: the tracker has then been advanced by the boxes of
    the frame although none is reported. *)
Theorem service_error_reports_nothing (data : VideoFrameRequest) (now : Q)
    (t : tracker) :
  let r := serve_frame data now t in
  error (fst r) <> None ->
  detections (fst r) = [] /\ frame_shape (fst r) = [] /\
  annotated_frame (fst r) = None /\
  response_session_id (fst r) = session_id data /\
  (snd r = t \/
   return_annotated data = true /\
   exists fr boxes,
     detect fr = inr boxes /\
     snd r = snd (detect_and_track name_of_class boxes (session_id data) t) /\
     annotate fr (fst (detect_and_track name_of_class boxes (session_id data) t))
              (snd r) = inl (default ""%string (error (fst r)))).
Proof.
  cbv zeta. unfold process_video_frame.
  destruct (negb (truthy (frame data))); [intros _; split_and!; try done; by left|].
  destruct (frame data) as [| | | |s| |];
    try (intros _; split_and!; try done; by left).
  destruct (b64decode _) as [e|bytes]; [intros _; split_and!; try done; by left|].
  destruct (imdecode bytes) as [e|[fr|]];
    [intros _; split_and!; try done; by left| |intros _; split_and!; try done; by left].
  destruct (detect fr) as [e|boxes] eqn:Hdet;
    [intros _; split_and!; try done; by left|].
  destruct (detect_and_track name_of_class boxes (session_id data) t)
    as [dets t'] eqn:Htrack.
  destruct (return_annotated data); [|by intros H].
  destruct (annotate fr dets t') as [e|a] eqn:Hann; [|by intros H].
  intros _. split_and!; try done. right. split; [done|].
  exists fr, boxes. rewrite Htrack. by split_and!.
Qed.

(** A response without an error reports the tracking of a decoded
    frame: its detections and the tracker afterwards are those of
    [detect_and_track] on the boxes the detector found, one detection
    per box, its shape is the height and width of the frame, and it
    carries an annotated frame exactly when one was asked for. *)
Theorem service_success_reports_tracking (data : VideoFrameRequest) (now : Q)
    (t : tracker) :
  let r := serve_frame data now t in
  error (fst r) = None ->
  exists s bytes fr boxes,
    frame data = PStr s /\ b64decode (service_payload s) = inr bytes /\
    imdecode bytes = inr (Some fr) /\ detect fr = inr boxes /\
    (detections (fst r), snd r)
      = detect_and_track name_of_class boxes (session_id data) t /\
    length (detections (fst r)) = length boxes /\
    frame_shape (fst r) = firstn 2 (shape fr) /\
    response_session_id (fst r) = session_id data /\
    (is_Some (annotated_frame (fst r)) <-> return_annotated data = true).
Proof.
  cbv zeta. unfold process_video_frame.
  destruct (negb (truthy (frame data))); [done|].
  destruct (frame data) as [| | | |s| |]; try done.
  destruct (b64decode _) as [e|bytes] eqn:Hb; [done|].
  destruct (imdecode bytes) as [e|[fr|]] eqn:Him; try done.
  destruct (detect fr) as [e|boxes] eqn:Hdet; [done|].
  pose proof (YOLOTrackerFacts.detect_and_track_length name_of_class
                (session_id data) boxes t) as Hlen.
  destruct (detect_and_track name_of_class boxes (session_id data) t)
    as [dets t'] eqn:Htrack.
  destruct (return_annotated data).
  - destruct (annotate fr dets t') as [e|a]; [done|]. intros _.
    exists s, bytes, fr, boxes. split_and!; try done; eauto.
  - intros _. exists s, bytes, fr, boxes. split_and!; try done.
    simpl. split; [by intros [? ?]|done].
Qed.
End Service.

Lemma service_error_reports_nothing_witness :
  let r := process_video_frame (list Z) FrameValidator.shape_itself one_byte
             small_frame one_object cannot_draw type_error_text object_name
             (mk_request (PStr "AAAA") "s" true) 0 init in
  error (fst r) <> None /\
  detections (fst r) = [] /\
  track_id_counter (snd r) = 1%nat.
Proof.
  intros r.
  assert (error (fst r) <> None) as Herr by (by vm_compute).
  split; [exact Herr|].
  destruct (service_error_reports_nothing (list Z) FrameValidator.shape_itself
              one_byte small_frame one_object cannot_draw type_error_text
              object_name (mk_request (PStr "AAAA") "s" true) 0 init Herr)
    as (Hnone & _).
  split; [exact Hnone|]. by vm_compute.
Defined.

Lemma service_success_reports_tracking_witness :
  let r := process_video_frame (list Z) FrameValidator.shape_itself one_byte
             small_frame one_object can_draw type_error_text object_name
             (mk_request (PStr "AAAA") "s" true) 0 init in
  error (fst r) = None /\
  length (detections (fst r)) = 1%nat /\
  frame_shape (fst r) = [64; 64]%Z.
Proof.
  intros r.
  assert (error (fst r) = None) as Hok by (by vm_compute).
  split; [exact Hok|].
  destruct (service_success_reports_tracking (list Z) FrameValidator.shape_itself
              one_byte small_frame one_object can_draw type_error_text
              object_name (mk_request (PStr "AAAA") "s" true) 0 init Hok)
    as (s & bytes & fr & boxes & _ & _ & Him & Hdet & _ & Hlen & Hshape & _).
  injection Him as <-. injection Hdet as <-.
  split; [exact Hlen|exact Hshape].
Defined.

(** *** The endpoint's detections under the validator *)


Section Pipeline.
Variable name_of_class : Z -> string.
Variable parse : string -> option Q.


End Pipeline.


End YOLOServiceFacts.

(** ** The stream orchestrator *)

Module OrchestratorFacts.
Import VideoStreamHandler Orchestrator.

(** A failed boundary call makes [process_frame] return a record that
    holds only an [error], and leaves the handler as it was. *)
Lemma process_frame_failed frame_data sid o h :
  boundary_failed o = true ->
  exists e, process_frame frame_data sid o h = (error_result e, h) /\ e <> ""%string.
Proof.
  destruct o as [status body| |e|e]; simpl; intros Hfail; try done.
  - apply negb_true_iff in Hfail. rewrite Hfail. by eexists.
  - by eexists.
  - by eexists.
Qed.

(** C2, as stated, fails.  A frame message whose data is empty is what
    [validate_frame_data] rejects first, and the orchestrator, which
    never calls the validator, sends nothing for it; and the reply sent
    after a boundary timeout has no [error] field. *)
Lemma frame_failures_not_reported :
  (fst (fst (fst (FrameValidator.validate_frame_data unit no_shape no_base64 no_image
                    (PStr "") "abc-1" 0 (rate_requests one_session)))) = false /\
   snd (on_event 1%positive "abc-1"
          (Message (frame_message (PStr "")) TimedOut true) one_session) = []) /\
  (boundary_failed TimedOut = true /\
   ~ exists msg,
       In msg (snd (on_event 1%positive "abc-1"
                      (Message (frame_message (PStr "AAAA")) TimedOut true)
                      one_session)) /\
       error_reply msg).
Proof.
  split; [split; reflexivity|]. split; [reflexivity|].
  intros (msg & [<-|[]] & _ & _ & e & He & _). discriminate He.
Qed.

(** C2, amended. For a frame message with non-empty data whose boundary
    call times out, fails to connect or returns a status other than 200,
    [process_frame] returns a record that holds only a non-empty
    [error]; the orchestrator then sends, when the send goes through,
    exactly one [detection_result] message with the session id and an
    empty detections list, it changes nothing in the process-wide state,
    and the connection stays open.  Whatever the message, the connection
    stays open and the rate limiter is not consulted or changed; a frame
    message with empty data gets no reply. *)
Theorem boundary_failure_reply (ws : websocket) (sid : string)
    (data : list (string * pyval)) (frame_data : pyval) (o : boundary_outcome)
    (w : world) :
  dict_get "type"%string data = Some (PStr "frame") ->
  dict_get "data"%string data = Some frame_data ->
  (truthy frame_data = true ->
   boundary_failed o = true ->
   (exists e, fst (process_frame frame_data sid o (stream_handler w))
              = error_result e /\ e <> ""%string) /\
   (exists msg,
       on_event ws sid (Message (Json (PDict data)) o true) w
         = (ACTIVE sid, w, [msg]) /\
       field "type" msg = Some (PStr "detection_result") /\
       field "session_id" msg = Some (PStr sid) /\
       field "detections" msg = Some (PList [])) /\
   on_event ws sid (Message (Json (PDict data)) o false) w = (ACTIVE sid, w, [])) /\
  (truthy frame_data = false ->
   forall send_ok,
     on_event ws sid (Message (Json (PDict data)) o send_ok) w = (ACTIVE sid, w, [])) /\
  (forall m o' send_ok,
      fst (fst (on_event ws sid (Message m o' send_ok) w)) = ACTIVE sid /\
      rate_requests (snd (fst (on_event ws sid (Message m o' send_ok) w)))
        = rate_requests w).
Proof.
  intros Htype Hdata. split; [|split].
  - intros Htruthy Hfail.
    destruct (process_frame_failed frame_data sid o (stream_handler w) Hfail)
      as (e & Hpf & He).
    split; [exists e; by rewrite Hpf|].
    unfold on_event, message_body. rewrite Htype, Hdata. simpl.
    rewrite Htruthy, Hpf. unfold error_result. simpl.
    destruct w as [hd rl]. simpl. split; [|done].
    eexists. split; [reflexivity|]. by simpl.
  - intros Hfalsy send_ok. unfold on_event, message_body.
    rewrite Htype, Hdata. simpl. rewrite Hfalsy. by destruct w.
  - intros m o' send_ok. unfold on_event.
    by destruct (message_body sid m o' send_ok (stream_handler w)).
Qed.

Lemma boundary_failure_reply_witness :
  dict_get "type"%string [("type", PStr "frame"); ("data", PStr "AAAA")]%string
    = Some (PStr "frame") /\
  dict_get "data"%string [("type", PStr "frame"); ("data", PStr "AAAA")]%string
    = Some (PStr "AAAA") /\
  truthy (PStr "AAAA") = true /\
  boundary_failed (Responded 503 PNone) = true /\
  fst (process_frame (PStr "AAAA") "abc-1" (Responded 503 PNone)
         (stream_handler one_session))
    = error_result "Processing error: 503" /\
  on_event 1%positive "abc-1"
    (Message (frame_message (PStr "AAAA")) (Responded 503 PNone) false) one_session
    = (ACTIVE "abc-1", one_session, []).
Proof.
  assert (dict_get "type"%string
            [("type", PStr "frame"); ("data", PStr "AAAA")]%string
          = Some (PStr "frame")) as Htype by reflexivity.
  assert (dict_get "data"%string
            [("type", PStr "frame"); ("data", PStr "AAAA")]%string
          = Some (PStr "AAAA")) as Hdata by reflexivity.
  assert (truthy (PStr "AAAA") = true) as Htruthy by reflexivity.
  assert (boundary_failed (Responded 503 PNone) = true) as Hfail by reflexivity.
  destruct (boundary_failure_reply 1%positive "abc-1" _ _ (Responded 503 PNone)
              one_session Htype Hdata) as [Hreply _].
  destruct (Hreply Htruthy Hfail) as (_ & _ & Hnosend).
  repeat (split; [assumption|]). split; [by vm_compute|exact Hnosend].
Defined.

(** C4, as stated, fails: closing the connection of a session leaves its
    rate window in place, where [reset_session] would have removed it. *)
Lemma close_keeps_rate_window :
  rate_requests (snd (fst (on_event 1%positive "abc-1" ConnectionClosed one_session)))
    !! "abc-1"%string = Some [0] /\
  RateLimiter.reset_session "abc-1" (rate_requests one_session)
    !! "abc-1"%string = None /\
  rate_requests (snd (fst (on_event 1%positive "abc-1" ConnectionClosed one_session)))
    <> RateLimiter.reset_session "abc-1" (rate_requests one_session).
Proof.
  assert (rate_requests
            (snd (fst (on_event 1%positive "abc-1" ConnectionClosed one_session)))
            !! "abc-1"%string = Some [0]) as Hkept by (by vm_compute).
  assert (RateLimiter.reset_session "abc-1" (rate_requests one_session)
            !! "abc-1"%string = None) as Hreset by (by vm_compute).
  split; [exact Hkept|]. split; [exact Hreset|].
  intros Heq. rewrite Heq, Hreset in Hkept. discriminate.
Qed.

(** C4, amended. When the connection of a session registered under a
    non-empty id closes, or an error escapes its message loop, or the
    acknowledgement of its handshake cannot be sent, the orchestrator
    ends in [CLOSED] with the session deregistered: its entry is deleted
    from the registry and its websocket removed from the active
    connections, the other sessions' entries stay.  The windows of the
    rate limiter are left as they were. *)
Theorem close_deregisters (ws : websocket) (sid : string) (e : loop_event)
    (w : world) :
  sid <> ""%string ->
  (e = ConnectionClosed \/ e = ConnectionError) ->
  (let r := on_event ws sid e w in
   fst (fst r) = CLOSED /\ snd r = [] /\
   session_data (stream_handler (snd (fst r))) !! sid = None /\
   (ws ∉ active_connections (stream_handler (snd (fst r)))) /\
   (forall s, s <> sid ->
              session_data (stream_handler (snd (fst r))) !! s
              = session_data (stream_handler w) !! s) /\
   rate_requests (snd (fst r)) = rate_requests w) /\
  (forall now,
      let r := connect ws (InitObject (Some sid)) now false w in
      fst (fst r) = CLOSED /\
      session_data (stream_handler (snd (fst r))) !! sid = None /\
      (ws ∉ active_connections (stream_handler (snd (fst r)))) /\
      rate_requests (snd (fst r)) = rate_requests w).
Proof.
  intros Hsid He.
  assert (String.eqb sid "" = false) as Hneq by (by apply String.eqb_neq).
  split.
  - assert (on_event ws sid e w = (CLOSED, finalize ws (Some sid) w, [])) as ->
      by (by destruct He as [-> | ->]).
    unfold finalize, truthy. rewrite Hneq. simpl.
    split; [done|]. split; [done|]. split; [apply lookup_delete_eq|].
    split; [|split; [|done]].
    + apply not_elem_of_difference. right. by apply elem_of_singleton.
    + intros s Hne. by apply lookup_delete_ne.
  - intros now r. unfold r, connect, finalize, truthy. simpl. rewrite Hneq. simpl.
    split; [done|]. split; [apply lookup_delete_eq|]. split; [|done].
    apply not_elem_of_difference. right. by apply elem_of_singleton.
Qed.

Lemma close_deregisters_witness :
  "abc-1"%string <> ""%string /\
  (ConnectionClosed = ConnectionClosed \/ ConnectionClosed = ConnectionError) /\
  session_data (stream_handler one_session) !! "abc-1"%string
    = Some (mk_session_entry 1%positive 0 0 0) /\
  session_data
    (stream_handler
       (snd (fst (on_event 1%positive "abc-1" ConnectionClosed one_session))))
    !! "abc-1"%string = None.
Proof.
  assert ("abc-1"%string <> ""%string) as Hsid by discriminate.
  assert (ConnectionClosed = ConnectionClosed \/ ConnectionClosed = ConnectionError)
    as He by (by left).
  destruct (close_deregisters 1%positive "abc-1" ConnectionClosed one_session Hsid He)
    as [(_ & _ & Hgone & _) _].
  split; [exact Hsid|]. split; [exact He|]. split; [by vm_compute|exact Hgone].
Defined.

(** *** The message loop *)

Lemma message_body_effect (sid : string) (m : inbound) (o : boundary_outcome)
    (send_ok : bool) (h : handler) :
  active_connections (fst (message_body sid m o send_ok h)) = active_connections h /\
  session_data (fst (message_body sid m o send_ok h))
  = if counted (Message m o send_ok)
    then alter count_frame sid (session_data h)
    else session_data h.
Proof.
  unfold message_body, counted, process_frame.
  destruct m as [|data]; [done|].
  destruct data as [| | | | | |data]; try done.
  destruct (dict_get "type"%string data) as [[| | | |ty| |]|];
    try (by destruct o).
  destruct (String.eqb ty "frame"); simpl;
    [|by destruct (String.eqb ty "ping"), o].
  destruct (truthy _); simpl; [|by destruct o].
  destruct o as [status body| |e|e]; simpl; try done.
  destruct (status =? 200)%Z; simpl; [|done].
  by destruct body.
Qed.

Lemma message_body_replies (sid : string) (m : inbound) (o : boundary_outcome)
    (send_ok : bool) (h : handler) (out : list pyval) :
  snd (message_body sid m o send_ok h) = inr out ->
  (length out <= 1)%nat /\ Forall (reply_to sid) out.
Proof.
  assert (forall result,
            send send_ok (detection_result_message sid result) = inr out ->
            (length out <= 1)%nat /\ Forall (reply_to sid) out) as Hsend.
  { intros result. unfold send. destruct send_ok; [|done]. intros [= <-].
    split; [simpl; lia|]. constructor; [|done]. right.
    eexists. split; [reflexivity|]. by split_and!. }
  unfold message_body, process_frame.
  destruct m as [|data]; [done|].
  destruct data as [| | | | | |data]; try done.
  destruct (dict_get "type"%string data) as [[| | | |ty| |]|];
    try (intros [= <-]; split; [simpl; lia|done]).
  destruct (String.eqb ty "frame"); simpl.
  - destruct (truthy _); simpl; [|intros [= <-]; split; [simpl; lia|done]].
    destruct o as [status body| |e|e]; simpl; try apply Hsend.
    destruct (status =? 200)%Z; simpl; [|apply Hsend].
    destruct body; simpl; try done. apply Hsend.
  - destruct (String.eqb ty "ping"); simpl;
      [|intros [= <-]; split; [simpl; lia|done]].
    unfold send. destruct send_ok; [|done]. intros [= <-].
    split; [simpl; lia|]. constructor; [by left|done].
Qed.

Lemma on_event_message (ws : websocket) (sid : string) (m : inbound)
    (o : boundary_outcome) (send_ok : bool) (w : world) :
  on_event ws sid (Message m o send_ok) w
  = (ACTIVE sid,
     mk_world (fst (message_body sid m o send_ok (stream_handler w))) (rate_requests w),
     match snd (message_body sid m o send_ok (stream_handler w)) with
     | inr sent => sent
     | inl _ => []
     end).
Proof.
  unfold on_event. by destruct (message_body sid m o send_ok (stream_handler w)).
Qed.

Lemma serve_not_active (ws : websocket) (st : conn_state) (events : list loop_event)
    (w : world) (sent : list pyval) :
  (forall sid, st <> ACTIVE sid) -> serve ws st events w sent = (st, w, sent).
Proof. intros Hst. destruct st as [|sid|]; destruct events; try done. by destruct (Hst sid). Qed.

Lemma serve_app (ws : websocket) (l1 l2 : list loop_event) :
  forall st w sent,
    serve ws st (l1 ++ l2) w sent
    = serve ws (fst (fst (serve ws st l1 w sent))) l2
            (snd (fst (serve ws st l1 w sent))) (snd (serve ws st l1 w sent)).
Proof.
  induction l1 as [|e l1 IH]; intros st w sent.
  - by destruct st.
  - destruct st as [|sid|]; simpl.
    + by rewrite serve_not_active.
    + destruct (on_event ws sid e w) as [[st1 w1] out]. apply IH.
    + by rewrite serve_not_active.
Qed.

(** What a run of messages does to the world. *)
Lemma serve_messages (ws : websocket) (sid : string) (events : list loop_event) :
  forall w sent,
    forallb is_message events = true ->
    fst (fst (serve ws (ACTIVE sid) events w sent)) = ACTIVE sid /\
    active_connections (stream_handler (snd (fst (serve ws (ACTIVE sid) events w sent))))
      = active_connections (stream_handler w) /\
    rate_requests (snd (fst (serve ws (ACTIVE sid) events w sent))) = rate_requests w /\
    session_data (stream_handler (snd (fst (serve ws (ACTIVE sid) events w sent)))) !! sid
      = add_frames (length (List.filter counted events))
          <$> session_data (stream_handler w) !! sid /\
    (forall s, s <> sid ->
       session_data (stream_handler (snd (fst (serve ws (ACTIVE sid) events w sent)))) !! s
       = session_data (stream_handler w) !! s).
Proof.
  induction events as [|e events IH]; intros w sent Hall.
  - simpl. split_and!; try done. by destruct (session_data (stream_handler w) !! sid) as [[]|].
  - simpl in Hall. apply andb_true_iff in Hall as [He Hall].
    destruct e as [m o send_ok| |]; try done.
    cbn [serve]. rewrite on_event_message.
    destruct (message_body_effect sid m o send_ok (stream_handler w)) as [Hact Hdata].
    set (h1 := fst (message_body sid m o send_ok (stream_handler w))) in *.
    destruct (IH (mk_world h1 (rate_requests w))
                 (sent ++ match snd (message_body sid m o send_ok (stream_handler w)) with
                          | inr sent0 => sent0
                          | inl _ => []
                          end) Hall)
      as (Hst & Hact' & Hrate & Hsid & Hother).
    cbn [stream_handler rate_requests] in *.
    split_and!; try done.
    + by rewrite Hact'.
    + rewrite Hsid, Hdata. cbn [List.filter].
      destruct (counted (Message m o send_ok)); [|done].
      rewrite lookup_alter_eq.
      destruct (session_data (stream_handler w) !! sid) as [entry|]; [|done].
      simpl. f_equal. unfold add_frames, count_frame. simpl. f_equal. lia.
    + intros s Hs. rewrite (Hother s Hs), Hdata.
      destruct (counted (Message m o send_ok)); [|done].
      by rewrite lookup_alter_ne.
Qed.

(** While a connection is open, its messages change one thing in the
    process-wide state: the frame counter of its own session, which
    grows by the number of frame messages with data that the boundary
    answered with status 200, whether or not the reply could be built
    and sent.  The connection stays open, and the active connections,
    the other sessions and the rate windows are as before. *)
Theorem frames_processed_counts_answered_frames (ws : websocket) (sid : string)
    (events : list loop_event) (w : world) (sent : list pyval) :
  forallb is_message events = true ->
  let r := serve ws (ACTIVE sid) events w sent in
  fst (fst r) = ACTIVE sid /\
  active_connections (stream_handler (snd (fst r)))
    = active_connections (stream_handler w) /\
  rate_requests (snd (fst r)) = rate_requests w /\
  frames_processed <$> session_data (stream_handler (snd (fst r))) !! sid
    = (fun e => length (List.filter counted events) + frames_processed e)%nat
        <$> session_data (stream_handler w) !! sid /\
  (forall s, s <> sid ->
     session_data (stream_handler (snd (fst r))) !! s
     = session_data (stream_handler w) !! s).
Proof.
  intros Hall r.
  destruct (serve_messages ws sid events w sent Hall)
    as (Hst & Hact & Hrate & Hsid & Hother).
  split_and!; try done. unfold r. rewrite Hsid.
  by destruct (session_data (stream_handler w) !! sid).
Qed.

Lemma frames_processed_counts_answered_frames_witness :
  forallb is_message [answered_frame true; ping_event; answered_frame false] = true /\
  frames_processed
    <$> session_data
          (stream_handler
             (snd (fst (serve 1%positive (ACTIVE "abc-1")
                          [answered_frame true; ping_event; answered_frame false]
                          one_session []))))
        !! "abc-1"%string
  = Some 2%nat.
Proof.
  assert (forallb is_message [answered_frame true; ping_event; answered_frame false]
          = true) as Hall by reflexivity.
  split; [exact Hall|].
  destruct (frames_processed_counts_answered_frames 1%positive "abc-1" _
              one_session [] Hall) as (_ & _ & _ & Hcount & _).
  rewrite Hcount. by vm_compute.
Defined.

(** Whatever arrives on an open connection, the loop sends at most one
    message per event, and each is a pong or a [detection_result] for
    the session of the connection with exactly the keys [type],
    [session_id], [detections], [annotated_frame] and [timestamp]: no
    [error] or [frame_shape] of the boundary's record is forwarded. *)
Theorem replies_are_pong_or_detection_result (ws : websocket) (sid : string)
    (events : list loop_event) (w : world) (sent : list pyval) :
  exists out,
    snd (serve ws (ACTIVE sid) events w sent) = sent ++ out /\
    (length out <= length events)%nat /\
    Forall (reply_to sid) out.
Proof.
  revert w sent. induction events as [|e events IH]; intros w sent.
  - exists []. simpl. by rewrite app_nil_r.
  - destruct e as [m o send_ok| |].
    + cbn [serve]. rewrite on_event_message.
      set (h1 := fst (message_body sid m o send_ok (stream_handler w))).
      destruct (snd (message_body sid m o send_ok (stream_handler w)))
        as [ex|out1] eqn:Hbody.
      * destruct (IH (mk_world h1 (rate_requests w)) (sent ++ [])) as (out & Hout & Hlen & Hall).
        exists out. rewrite Hout, app_nil_r. split_and!; try done. simpl. lia.
      * destruct (message_body_replies sid m o send_ok (stream_handler w) out1 Hbody)
          as [Hlen1 Hall1].
        destruct (IH (mk_world h1 (rate_requests w)) (sent ++ out1))
          as (out & Hout & Hlen & Hall).
        exists (out1 ++ out). rewrite Hout, app_assoc. split_and!; try done.
        -- rewrite length_app. simpl. lia.
        -- by apply Forall_app.
    + exists []. cbn [serve on_event]. rewrite serve_not_active by done.
      simpl. rewrite !app_nil_r. split_and!; try done. simpl. lia.
    + exists []. cbn [serve on_event]. rewrite serve_not_active by done.
      simpl. rewrite !app_nil_r. split_and!; try done. simpl. lia.
Qed.

(** *** The life of a connection *)

(** Connecting under a non-empty session id that is not in use, on a
    connection that is not yet active, exchanging any messages and then
    closing (or failing) leaves the process-wide state exactly as it was
    before the connection: the frames counted in between go away with
    the entry.  A client that names no session id is served as
    ["unknown"]. *)
Theorem connection_round_trip (ws : websocket) (given : option string) (now : Q)
    (msgs rest : list loop_event) (e : loop_event) (w : world) :
  let sid := default "unknown"%string given in
  sid <> ""%string ->
  session_data (stream_handler w) !! sid = None ->
  ws ∉ active_connections (stream_handler w) ->
  forallb is_message msgs = true ->
  (e = ConnectionClosed \/ e = ConnectionError) ->
  fst (handle_client ws (InitObject given) now true (msgs ++ e :: rest) w) = (CLOSED, w).
Proof.
  intros sid Hsid Hfresh Hnew Hall He.
  assert (String.eqb sid "" = false) as Hneq by (by apply String.eqb_neq).
  unfold handle_client, connect. fold sid. cbv zeta.
  set (w1 := mk_world (register ws sid now (stream_handler w)) (rate_requests w)).
  rewrite serve_app.
  destruct (serve_messages ws sid msgs w1 [connected_message sid] Hall)
    as (Hst & Hact & Hrate & _ & Hother).
  rewrite Hst.
  set (w2 := snd (fst (serve ws (ACTIVE sid) msgs w1 [connected_message sid]))) in *.
  cbn [serve].
  assert (on_event ws sid e w2 = (CLOSED, finalize ws (Some sid) w2, [])) as ->
    by (by destruct He as [-> | ->]).
  rewrite serve_not_active by done. cbn [fst].
  f_equal. unfold finalize, truthy. rewrite Hneq. cbn [negb].
  unfold unregister. rewrite Hact, Hrate. subst w1. cbn [stream_handler rate_requests register active_connections] in *.
  destruct w as [[act data] rate]. cbn [stream_handler rate_requests active_connections session_data] in *.
  f_equal. f_equal.
  - apply set_eq. intros x. rewrite elem_of_difference, elem_of_union, elem_of_singleton.
    split; [by intros [[->|Hx] Hne]|]. intros Hx. split; [by right|]. by intros ->.
  - apply map_eq. intros s. destruct (decide (s = sid)) as [->|Hs].
    + by rewrite lookup_delete_eq.
    + rewrite lookup_delete_ne by done. rewrite (Hother s Hs).
      cbn [register session_data]. by rewrite lookup_insert_ne.
Qed.

Lemma connection_round_trip_witness :
  fst (handle_client 1%positive (InitObject None) 0 true
         ([answered_frame true; ping_event] ++ ConnectionClosed :: [ping_event])
         empty_world)
  = (CLOSED, empty_world).
Proof.
  apply (connection_round_trip 1%positive None 0 [answered_frame true; ping_event]
           [ping_event] ConnectionClosed empty_world).
  - discriminate.
  - reflexivity.
  - apply not_elem_of_empty.
  - reflexivity.
  - by left.
Defined.

(** Session ids are not kept apart.  When a second connection registers
    under an id that is in use (two clients that name no id both get
    ["unknown"]), it takes over the entry, whose frame counter starts
    again at zero; when the first connection then closes, the entry of
    the id is deleted although the second connection is still active,
    and no frame of the second connection is counted from then on. *)
Theorem shared_session_id_collision (ws1 ws2 : websocket) (given : option string)
    (now1 now2 : Q) (w : world) :
  let sid := default "unknown"%string given in
  let w1 := snd (fst (connect ws1 (InitObject given) now1 true w)) in
  let w2 := snd (fst (connect ws2 (InitObject given) now2 true w1)) in
  let w3 := snd (fst (on_event ws1 sid ConnectionClosed w2)) in
  ws1 <> ws2 ->
  sid <> ""%string ->
  session_data (stream_handler w2) !! sid = Some (mk_session_entry ws2 now2 0 0) /\
  ws2 ∈ active_connections (stream_handler w3) /\
  session_data (stream_handler w3) !! sid = None /\
  (forall events sent,
     forallb is_message events = true ->
     session_data (stream_handler (snd (fst (serve ws2 (ACTIVE sid) events w3 sent))))
       !! sid = None).
Proof.
  intros sid w1 w2 w3 Hws Hsid.
  assert (String.eqb sid "" = false) as Hneq by (by apply String.eqb_neq).
  assert (session_data (stream_handler w3) !! sid = None) as Hgone.
  { unfold w3, on_event, finalize, truthy. rewrite Hneq. cbn.
    apply lookup_delete_eq. }
  split_and!.
  - unfold w2, connect. fold sid. cbn. apply lookup_insert_eq.
  - unfold w3, on_event, finalize, truthy. rewrite Hneq.
    unfold w2, connect. fold sid. cbn.
    apply elem_of_difference. split; [|by rewrite elem_of_singleton].
    apply elem_of_union. left. by apply elem_of_singleton.
  - exact Hgone.
  - intros events sent Hall.
    destruct (serve_messages ws2 sid events w3 sent Hall) as (_ & _ & _ & Hcount & _).
    by rewrite Hcount, Hgone.
Qed.

Lemma shared_session_id_collision_witness :
  let w1 := snd (fst (connect 1%positive (InitObject None) 0 true empty_world)) in
  let w2 := snd (fst (connect 2%positive (InitObject None) 1 true w1)) in
  let w3 := snd (fst (on_event 1%positive "unknown" ConnectionClosed w2)) in
  1%positive <> 2%positive /\
  2%positive ∈ active_connections (stream_handler w3) /\
  session_data (stream_handler w3) !! "unknown"%string = None.
Proof.
  intros w1 w2 w3.
  assert (1%positive <> 2%positive) as Hws by discriminate.
  assert (default "unknown"%string None <> ""%string) as Hsid by discriminate.
  destruct (shared_session_id_collision 1%positive 2%positive None 0 1 empty_world
              Hws Hsid) as (_ & Hactive & Hgone & _).
  split; [exact Hws|]. split; [exact Hactive|exact Hgone].
Defined.

Lemma on_event_keeps_empty_id (ws : websocket) (e : loop_event) (w : world) :
  registered ws "" (stream_handler w) ->
  registered ws "" (stream_handler (snd (fst (on_event ws "" e w)))).
Proof.
  intros Hreg. destruct e as [m o send_ok| |]; [|exact Hreg|exact Hreg].
  destruct Hreg as [Hact (entry & Hentry & Hws)].
  rewrite on_event_message. cbn [fst snd stream_handler]. unfold registered.
  destruct (message_body_effect "" m o send_ok (stream_handler w)) as [-> ->].
  split; [done|]. destruct (counted (Message m o send_ok)); [|by exists entry].
  exists (count_frame entry). rewrite lookup_alter_eq, Hentry. by split.
Qed.

(** A connection whose client gives the empty text as its session id is
    never deregistered: however the connection goes and ends, its entry
    under the empty id and its websocket among the active connections
    are still there when [handle_client] is over. *)
Theorem empty_session_id_never_deregistered (ws : websocket) (now : Q)
    (send_ok : bool) (events : list loop_event) (w : world) :
  registered ws ""
    (stream_handler
       (snd (fst (handle_client ws (InitObject (Some ""%string)) now send_ok events w)))).
Proof.
  assert (forall events st w sent,
            (st = ACTIVE "" \/ st = CLOSED) ->
            registered ws "" (stream_handler w) ->
            registered ws ""
              (stream_handler (snd (fst (serve ws st events w sent))))) as Hserve.
  { clear. induction events as [|e events IH]; intros st w sent Hst Hreg.
    - by destruct st.
    - destruct Hst as [-> | ->]; [|done]. cbn [serve].
      pose proof (on_event_keeps_empty_id ws e w Hreg) as Hreg1.
      destruct (on_event ws "" e w) as [[st1 w1] out] eqn:Hev.
      apply IH; [|done].
      destruct e as [m o send_ok| |].
      + rewrite on_event_message in Hev. injection Hev as <- _ _. by left.
      + simpl in Hev. injection Hev as <- _ _. by right.
      + simpl in Hev. injection Hev as <- _ _. by right. }
  assert (registered ws ""
            (register ws "" now (stream_handler w))) as Hreg.
  { split; [apply elem_of_union; left; by apply elem_of_singleton|].
    eexists. split; [apply lookup_insert_eq|done]. }
  unfold handle_client, connect. cbn [default].
  destruct send_ok.
  - apply Hserve; [by left|done].
  - apply Hserve; [by right|]. by cbn.
Qed.

End OrchestratorFacts.
